(** * Task Reward: a shallow embedding of the feedback pipeline

    The plugin watches checklist items of markdown documents, batches the
    "became checked" transitions inside a debounce window, throttles the
    batches and drives two output drivers: a reward sound and a confetti
    burst.  This file embeds [main.ts] (the plugin class), [sound.ts],
    [confetti.ts] and the test buttons of [settings.ts] and proves the
    properties of the specification against these embeddings.

    Conventions of the embedding.
    - JavaScript numbers that carry clock readings, line numbers, timer
      handles, counts and durations are integers: [Z].  Pixel coordinates
      and volumes are exact rationals: [Q] (no rounding, no NaN).
    - A [TFile] is represented by its path; a map key [`${path}:${line}`]
      by the pair [(path, line)] (the rendering of a number holds no colon,
      so the string is injective in the pair).
    - ES6 [Map]s are [gmap]s; deleting while iterating a [Map] visits every
      entry that was present, hence is a [filter].
    - What the host supplies (clock, media query, editor geometry, window
      size, random numbers, whether a platform call raises) is a field of a
      [Host] record read by the handler that runs. *)

From Stdlib Require Import ZArith QArith Qminmax Qround Lqa Lia List Bool Ascii String.
From stdpp Require Import gmap strings list fin_maps.

Local Open Scope Z_scope.

(** ** Shared vocabulary *)

Inductive Intensity := light | medium | heavy.

#[global] Instance Intensity_eq_dec : EqDecision Intensity.
Proof. solve_decision. Defined.

(** A pixel position [{ x, y }]. *)
Record Coord := mkCoord { cx : Q; cy : Q }.

(** [ConfettiBurstConfig] of confetti.ts. *)
Record ConfettiBurstConfig := mkBurst {
  b_intensity : Intensity;
  particleCount : Z;
  duration : Z;
  origin : option Coord
}.

(** ** confetti.ts *)
Module Confetti.

Local Open Scope Q_scope.

Record Particle := mkParticle {
  p_x : Q; p_y : Q; p_vx : Q; p_vy : Q;
  p_rotation : Q; p_rotationSpeed : Q;
  p_color : Z;          (* index into [colors] *)
  p_size : Q; p_life : Q; p_maxLife : Z
}.

(** What [window] and [Math.random] give to one call of [burst]:
    [random k] is the value of the k-th call of [Math.random]. *)
Record Window := mkWindow {
  innerWidth : Q;
  innerHeight : Q;
  random : nat -> Q
}.

Record ConfettiManager := mkManager {
  canvas : bool;             (* [this.canvas !== null] *)
  attached : bool;           (* [this.canvas.parentElement !== null] *)
  particles : list Particle;
  animating : bool;          (* [this.animationFrame !== null] *)
  logicalWidth : Q;
  logicalHeight : Q
}.

Definition colors_length : Z := 6.

(** [clamp(value, min, max)]. *)
Definition clamp (value min max : Q) : Q :=
  if Qlt_le_dec value min then min
  else if Qlt_le_dec max value then max
  else value.

(** [resizeCanvas]: records the viewport size when a canvas exists. *)
Definition resizeCanvas (w : Window) (m : ConfettiManager) : ConfettiManager :=
  if canvas m then
    mkManager true (attached m) (particles m) (animating m)
              (innerWidth w) (innerHeight w)
  else m.

(** [setupCanvas]: creates the canvas once, then sizes it. *)
Definition setupCanvas (w : Window) (m : ConfettiManager) : ConfettiManager :=
  if canvas m then m
  else resizeCanvas w
         (mkManager true false (particles m) (animating m)
                    (logicalWidth m) (logicalHeight m)).

Definition ensureCanvas (w : Window) (m : ConfettiManager) : ConfettiManager :=
  resizeCanvas w (if canvas m then m else setupCanvas w m).

(** [a || b] on numbers: [b] when [a] is zero. *)
Definition or_number (a b : Q) : Q := if Qeq_dec a 0 then b else a.

(** [x ?? d] for an optional number. *)
Definition nullish {A} (x : option A) (d : A) : A :=
  match x with Some v => v | None => d end.

Definition burstWidth (w : Window) (m : ConfettiManager) : Q :=
  or_number (logicalWidth (ensureCanvas w m)) (innerWidth w).

Definition burstHeight (w : Window) (m : ConfettiManager) : Q :=
  or_number (logicalHeight (ensureCanvas w m)) (innerHeight w).

(** [originX] and [originY] of [burst]. *)
Definition originX (w : Window) (m : ConfettiManager) (config : ConfettiBurstConfig) : Q :=
  let width := burstWidth w m in
  clamp (nullish (option_map cx (origin config)) (width / 2)) 40
        (Qmax 40 (width - 40)).

Definition originY (w : Window) (m : ConfettiManager) (config : ConfettiBurstConfig) : Q :=
  let height := burstHeight w m in
  clamp (nullish (option_map cy (origin config)) (height * (1 # 4))) 40
        (Qmax 40 (height - 40)).

(** [Math.floor] of a rational. *)
Definition floorQ (q : Q) : Z := Qfloor q.

(** The i-th particle of the loop of [burst]; it draws eight random
    numbers, in the order of the object literal. *)
Definition spawn (w : Window) (ox oy spreadX spreadY : Q) (maxLife : Z) (i : nat) : Particle :=
  let r k := random w (8 * i + k)%nat in
  let spawnX := ox + (r 0%nat - (1 # 2)) * spreadX in
  let spawnY := oy + (r 1%nat - (1 # 2)) * spreadY * (3 # 10) in
  mkParticle spawnX spawnY
             ((r 2%nat - (1 # 2)) * 6)
             (- (r 3%nat * 3 + 2))
             (r 4%nat * 360)
             ((r 5%nat - (1 # 2)) * 10)
             (floorQ (r 6%nat * inject_Z colors_length))
             (r 7%nat * 6 + 4)
             1 maxLife.

(** [burst(config)]: the previous particles are replaced, the canvas is
    attached and the animation (re)started. *)
Definition burst (w : Window) (config : ConfettiBurstConfig) (m : ConfettiManager)
  : ConfettiManager :=
  let m1 := ensureCanvas w m in
  let width := burstWidth w m in
  let height := burstHeight w m in
  let ox := originX w m config in
  let oy := originY w m config in
  let spreadX := Qmax (width * (1 # 4)) 160 in
  let spreadY := Qmax (height * (15 # 100)) 80 in
  let ps := List.map (spawn w ox oy spreadX spreadY (duration config))
                     (seq 0 (Z.to_nat (particleCount config))) in
  mkManager (canvas m1) true ps true (logicalWidth m1) (logicalHeight m1).

End Confetti.

(** ** sound.ts *)
Module Sound.

Local Open Scope Q_scope.

(** The fields of [SoundManager] that [playRewardSound] and the three
    playback tiers read or write. *)
Record SoundManager := mkSound {
  audioBuffer : bool;      (* a decoded buffer is held *)
  audioElement : bool;     (* an HTML audio element is held *)
  audioContext : bool;     (* an AudioContext has been created *)
  useWebAudio : bool;
  loading : bool           (* the preload promise is still pending *)
}.

(** What the audio platform does during one call. *)
Record Platform := mkPlatform {
  contextAvailable : bool;   (* the AudioContext constructor exists and succeeds *)
  contextSuspended : bool;
  resumeRejects : bool;
  bufferStartRaises : bool;  (* building or starting the buffer source raises *)
  elementPlayFails : bool;   (* [audioElement.play()] raises or rejects *)
  synthRaises : bool         (* the synthesized tone cannot be built *)
}.

(** The audible result of a call: which tier sounded, at which volume. *)
Inductive Playback :=
| Silent
| Deferred (i : Intensity) (volume : Q)    (* replayed once loading settles *)
| BufferGain (volume : Q)                  (* [gainNode.gain.value] *)
| ElementVolume (volume : Q)               (* [audioElement.volume] *)
| Tone (volume : Q) (layers : Z).          (* [synthesizeTone(.., volume, layers)] *)

(** [volumeMultiplier] of [playRewardSound]. *)
Definition volumeMultiplier (i : Intensity) : Q :=
  match i with light => 8 # 10 | medium => 1 | heavy => 12 # 10 end.

(** [adjustedVolume = Math.min(volume * volumeMultiplier, 1.0)]. *)
Definition adjustedVolume (i : Intensity) (volume : Q) : Q :=
  Qmin (volume * volumeMultiplier i) 1.

Definition layersOf (i : Intensity) : Z :=
  match i with light => 1%Z | medium => 2%Z | heavy => 3%Z end.

(** [layerVolume] of [synthesizeTone] for layer [i]. *)
Definition layerVolume (volume : Q) (i : Z) : Q :=
  volume * (15 # 100) * (1 - inject_Z i * (2 # 10)).

(** [playSynthesizedSound]: any failure is logged and swallowed. *)
Definition playSynthesizedSound (p : Platform) (i : Intensity) (volume : Q) : Playback :=
  if synthRaises p then Silent else Tone volume (layersOf i).

(** [playHTML5Audio]: falls back to the synthesized tone with the volume
    it was given. *)
Definition playHTML5Audio (p : Platform) (sm : SoundManager) (i : Intensity) (volume : Q)
  : Playback :=
  if negb (audioElement sm) then Silent
  else if elementPlayFails p then playSynthesizedSound p i volume
  else ElementVolume volume.

(** [ensureAudioContext]. *)
Definition ensureAudioContext (p : Platform) (sm : SoundManager) : bool * SoundManager :=
  if audioContext sm then (true, sm)
  else if contextAvailable p
       then (true, mkSound (audioBuffer sm) (audioElement sm) true (useWebAudio sm) (loading sm))
       else (false, sm).

Definition noWebAudio (sm : SoundManager) : SoundManager :=
  mkSound (audioBuffer sm) (audioElement sm) (audioContext sm) false (loading sm).

(** [playWebAudio]: a suspended context is resumed first; every failure
    falls back to the HTML element with the same volume. *)
Definition playWebAudio (p : Platform) (sm : SoundManager) (i : Intensity) (volume : Q)
  : Playback * SoundManager :=
  if negb (audioBuffer sm) then (Silent, sm)
  else
    let '(ok, sm1) := ensureAudioContext p sm in
    if negb ok then (playHTML5Audio p sm1 i volume, noWebAudio sm1)
    else
      let startPlayback :=
        if bufferStartRaises p then playHTML5Audio p sm1 i volume
        else BufferGain volume in
      if contextSuspended p then
        if resumeRejects p then (playHTML5Audio p sm1 i volume, noWebAudio sm1)
        else (startPlayback, sm1)
      else (startPlayback, sm1).

(** [playRewardSound(intensity, volume)]. *)
Definition playRewardSound (p : Platform) (sm : SoundManager) (i : Intensity) (volume : Q)
  : Playback * SoundManager :=
  if loading sm then (Deferred i volume, sm)
  else
    let adjusted := adjustedVolume i volume in
    if useWebAudio sm && audioBuffer sm then playWebAudio p sm i adjusted
    else if audioElement sm then (playHTML5Audio p sm i adjusted, sm)
    else (playSynthesizedSound p i volume, sm).

(** The volume a playback result sounds at, when it sounds. *)
Definition effectiveVolume (r : Playback) : option Q :=
  match r with
  | BufferGain v | ElementVolume v | Tone v _ => Some v
  | Silent | Deferred _ _ => None
  end.

End Sound.

(** ** main.ts: the plugin *)
Module Main.

Local Open Scope Z_scope.

(** [RewardSettings] and [DEFAULT_SETTINGS] of settings.ts. *)
Record RewardSettings := mkSettings {
  enableSound : bool;
  enableConfetti : bool;
  globalMute : bool;
  disableConfetti : bool;
  soundVolume : Q;
  confettiDuration : Z;
  mergeWindowMs : Z;
  throttleMs : Z;
  undoWindowMs : Z
}.

Definition DEFAULT_SETTINGS : RewardSettings :=
  mkSettings true true false false (3 # 10) 800 300 250 1000.

(** A map key [`${file.path}:${line}`]. *)
Abbreviation Key := (string * Z)%type.

Record TaskEvent := mkEvent {
  file : string;
  line : Z;
  checked : bool;
  timestamp : Z;
  coords : option Coord
}.

Definition keyOf (e : TaskEvent) : Key := (file e, line e).

Record SoundDirective := mkSoundDirective { s_intensity : Intensity; s_volume : Q }.

Record ConfettiDirective := mkConfettiDirective {
  c_intensity : Intensity;
  c_particleCount : Z;
  c_duration : Z
}.

Record FeedbackProfile := mkProfile {
  sound : option SoundDirective;
  confetti : option ConfettiDirective
}.

(** A call into an output driver, with its arguments. *)
Inductive DriverCall :=
| PlayRewardSound (i : Intensity) (volume : Q)
| Burst (config : ConfettiBurstConfig).

(** *** The host *)

(** The result of [cm.coordsAtPos]. *)
Record PosCoords := mkPosCoords { pc_left : Q; pc_right : Q; pc_top : Q; pc_bottom : Q }.

(** The result of [getBoundingClientRect]. *)
Record DOMRect := mkRect { r_left : Q; r_top : Q; r_width : Q; r_height : Q }.

(** The CodeMirror state behind an editor: [doc_line n] is the pair
    [(from, to)] of the n-th line, counted from 1. *)
Record CodeMirror := mkCM {
  doc_lines : Z;
  doc_line : Z -> Z * Z;
  coordsAtPos : Z -> option PosCoords
}.

Record MarkdownView := mkView {
  view_file : string;
  getMode : option string;
  cm : option CodeMirror;                       (* [editor?.cm] with a [state] *)
  previewContainer : option (Z -> option DOMRect); (* [querySelector] by data-line *)
  geometryRaises : bool                         (* a lookup inside the [try] raises *)
}.

(** What the host answers to the handler that runs. *)
Record Host := mkHost {
  clock : Z;                         (* [Date.now()] *)
  reducedMotion : bool;              (* the prefers-reduced-motion media query *)
  activeView : option MarkdownView;  (* [getActiveViewOfType(MarkdownView)] *)
  soundRaises : bool;                (* the call into the sound driver raises *)
  burstRaises : bool                 (* the call into the confetti driver raises *)
}.

(** *** The plugin instance, with the window's pending timeouts *)

Record Plugin := mkPlugin {
  settings : RewardSettings;
  taskEventQueue : list TaskEvent;
  mergeTimer : option Z;
  lastFeedbackTime : Z;
  undoProtection : gmap Key Z;
  taskStates : gmap string (gmap Z bool);
  recentTaskCoordinates : gmap Key (Coord * Z);
  pendingTimeouts : list (Z * Z);   (* window: (handle, time it is due) *)
  nextHandle : Z                    (* window: the next handle [setTimeout] returns *)
}.

Definition initial (st : RewardSettings) : Plugin :=
  mkPlugin st [] None 0 ∅ ∅ ∅ [] 1.

Definition set_taskEventQueue (q : list TaskEvent) (s : Plugin) : Plugin :=
  mkPlugin (settings s) q (mergeTimer s) (lastFeedbackTime s) (undoProtection s)
           (taskStates s) (recentTaskCoordinates s) (pendingTimeouts s) (nextHandle s).

Definition set_mergeTimer (t : option Z) (s : Plugin) : Plugin :=
  mkPlugin (settings s) (taskEventQueue s) t (lastFeedbackTime s) (undoProtection s)
           (taskStates s) (recentTaskCoordinates s) (pendingTimeouts s) (nextHandle s).

Definition set_lastFeedbackTime (t : Z) (s : Plugin) : Plugin :=
  mkPlugin (settings s) (taskEventQueue s) (mergeTimer s) t (undoProtection s)
           (taskStates s) (recentTaskCoordinates s) (pendingTimeouts s) (nextHandle s).

Definition set_undoProtection (u : gmap Key Z) (s : Plugin) : Plugin :=
  mkPlugin (settings s) (taskEventQueue s) (mergeTimer s) (lastFeedbackTime s) u
           (taskStates s) (recentTaskCoordinates s) (pendingTimeouts s) (nextHandle s).

Definition set_taskStates (t : gmap string (gmap Z bool)) (s : Plugin) : Plugin :=
  mkPlugin (settings s) (taskEventQueue s) (mergeTimer s) (lastFeedbackTime s)
           (undoProtection s) t (recentTaskCoordinates s) (pendingTimeouts s)
           (nextHandle s).

Definition set_recentTaskCoordinates (r : gmap Key (Coord * Z)) (s : Plugin) : Plugin :=
  mkPlugin (settings s) (taskEventQueue s) (mergeTimer s) (lastFeedbackTime s)
           (undoProtection s) (taskStates s) r (pendingTimeouts s) (nextHandle s).

Definition set_window (ts : list (Z * Z)) (n : Z) (s : Plugin) : Plugin :=
  mkPlugin (settings s) (taskEventQueue s) (mergeTimer s) (lastFeedbackTime s)
           (undoProtection s) (taskStates s) (recentTaskCoordinates s) ts n.

(** JavaScript truthiness of a number that is not NaN. *)
Definition truthy (n : Z) : bool := negb (n =? 0).

(** [window.setTimeout(callback, delay)]: a fresh handle; a negative delay
    counts as zero.  The only callback ever registered is
    [processMergedEvents]. *)
Definition setTimeout (now delay : Z) (s : Plugin) : Z * Plugin :=
  let id := nextHandle s in
  (id, set_window (pendingTimeouts s ++ [(id, now + Z.max 0 delay)]) (id + 1) s).

(** [window.clearTimeout(handle)]. *)
Definition clearTimeout (id : Z) (s : Plugin) : Plugin :=
  set_window (List.filter (fun t => negb (fst t =? id)) (pendingTimeouts s))
             (nextHandle s) s.

(** *** Checklist markers *)

Definition is_space (c : ascii) : bool :=
  let n := nat_of_ascii c in
  ((9 <=? n) && (n <=? 13) || (n =? 32))%nat.

Definition lower (c : ascii) : ascii :=
  let n := nat_of_ascii c in
  if ((65 <=? n) && (n <=? 90))%nat then ascii_of_nat (n + 32) else c.

Fixpoint trimStart (s : string) : string :=
  match s with
  | String c r => if is_space c then trimStart r else s
  | EmptyString => EmptyString
  end.

Fixpoint trimEnd (s : string) : string :=
  match s with
  | String c r =>
      match trimEnd r with
      | EmptyString => if is_space c then EmptyString else String c EmptyString
      | r' => String c r'
      end
  | EmptyString => EmptyString
  end.

Definition trim (s : string) : string := trimEnd (trimStart s).

Fixpoint toLowerCase (s : string) : string :=
  match s with
  | String c r => String (lower c) (toLowerCase r)
  | EmptyString => EmptyString
  end.

(** A [ListItemCache]: the [task] marker (absent for plain list items)
    and [position.start.line]. *)
Record ListItemCache := mkItem { task : option string; position_line : Z }.

(** [isChecked(task)] (markers are taken as ASCII text). *)
Definition isChecked (t : ListItemCache) : bool :=
  match task t with
  | None => false
  | Some m =>
      let normalized := toLowerCase (trim m) in
      bool_decide (normalized = "x"%string)
      || bool_decide (normalized = "check"%string)
      || bool_decide (normalized = "checked"%string)
  end.

(** *** Geometry lookup *)

Local Open Scope Q_scope.

Definition posCenter (c : PosCoords) : Coord :=
  mkCoord (pc_left c + (pc_right c - pc_left c) / 2)
          (pc_top c + (pc_bottom c - pc_top c) / 2).

Definition rectCenter (r : DOMRect) : Coord :=
  mkCoord (r_left r + r_width r / 2) (r_top r + r_height r / 2).

Local Close Scope Q_scope.

(** [!mode || mode === 'source' || mode === 'source-both']. *)
Definition sourceMode (mode : option string) : bool :=
  match mode with
  | None => true
  | Some m =>
      bool_decide (m = ""%string) || bool_decide (m = "source"%string)
      || bool_decide (m = "source-both"%string)
  end.

(** The editor branch of [computeTaskCoordinates]. *)
Definition editorCoordinates (view : MarkdownView) (ln : Z) : option Coord :=
  match cm view with
  | Some c =>
      if sourceMode (getMode view) then
        let lineNumber := Z.min (Z.max 0 ln) (doc_lines c - 1) in
        let docLine := doc_line c (lineNumber + 1) in
        match coordsAtPos c (fst docLine) with
        | Some co => Some (posCenter co)
        | None => option_map posCenter (coordsAtPos c (snd docLine))
        end
      else None
  | None => None
  end.

(** The preview branch of [computeTaskCoordinates]. *)
Definition previewCoordinates (view : MarkdownView) (ln : Z) : option Coord :=
  match previewContainer view with
  | Some querySelector => option_map rectCenter (querySelector ln)
  | None => None
  end.

(** [computeTaskCoordinates(file, line)]: [null] when the document is not
    the active view, when a lookup raises, or when no strategy answers. *)
Definition computeTaskCoordinates (h : Host) (f : string) (ln : Z) : option Coord :=
  match activeView h with
  | None => None
  | Some view =>
      if negb (bool_decide (view_file view = f)) then None
      else if geometryRaises view then None
      else
        match editorCoordinates view ln with
        | Some c => Some c
        | None => previewCoordinates view ln
        end
  end.

(** *** Undo protection and the pending batch *)

(** [cleanupUndoProtection(now)]. *)
Definition cleanupUndoProtection (now : Z) (s : Plugin) : Plugin :=
  if (size (undoProtection s) <=? 100)%nat then s
  else
    set_undoProtection
      (filter (fun kt : Key * Z => ¬ (now - snd kt > undoWindowMs (settings s) * 2))
              (undoProtection s))
      s.

(** The coordinate a fresh cache entry gives at time [now]. *)
Definition cachedCoords (now : Z) (recent : option (Coord * Z)) : option Coord :=
  match recent with
  | Some (c, ts) => if now - ts <? 1500 then Some c else None
  | None => None
  end.

(** [a ?? b] where [b] is only evaluated when [a] is null. *)
Definition orElse {A} (a b : option A) : option A :=
  match a with Some _ => a | None => b end.

(** [queueTaskEvent(event)]. *)
Definition queueTaskEvent (h : Host) (event : TaskEvent) (s : Plugin) : Plugin :=
  let key := keyOf event in
  let recent := recentTaskCoordinates s !! key in
  let now := clock h in
  let cached := cachedCoords now recent in
  let s1 := set_recentTaskCoordinates (delete key (recentTaskCoordinates s)) s in
  let enrichedEvent :=
    mkEvent (file event) (line event) (checked event) (timestamp event)
            (orElse cached
               (orElse (coords event)
                  (computeTaskCoordinates h (file event) (line event)))) in
  let s2 := set_taskEventQueue (taskEventQueue s1 ++ [enrichedEvent]) s1 in
  let s3 :=
    match mergeTimer s2 with
    | Some id => if truthy id then clearTimeout id s2 else s2
    | None => s2
    end in
  let '(id, s4) := setTimeout now (mergeWindowMs (settings s3)) s3 in
  set_mergeTimer (Some id) s4.

(** *** Profile and dispatch *)

Definition getParticleCount (_ : Intensity) : Z := 150.

(** [getFeedbackProfile(count)]. *)
Definition getFeedbackProfile (h : Host) (s : Plugin) (count : Z) : FeedbackProfile :=
  let muted := globalMute (settings s) in
  let intensity := heavy in
  mkProfile
    (if muted then None
     else Some (mkSoundDirective intensity (soundVolume (settings s))))
    (if reducedMotion h || disableConfetti (settings s) then None
     else Some (mkConfettiDirective intensity (getParticleCount intensity)
                                    (confettiDuration (settings s)))).

(** The callback of the [map] in [getConfettiOrigin]: an event without a
    coordinate gets the result of the geometry lookup written into it. *)
Definition resolveCoords (h : Host) (e : TaskEvent) : TaskEvent :=
  match coords e with
  | Some _ => e
  | None =>
      mkEvent (file e) (line e) (checked e) (timestamp e)
              (computeTaskCoordinates h (file e) (line e))
  end.

Definition addCoord (acc c : Coord) : Coord :=
  mkCoord (cx acc + cx c)%Q (cy acc + cy c)%Q.

(** [getConfettiOrigin(events)]: the mean of the coordinates found, and
    the events as the [map] callback left them. *)
Definition getConfettiOrigin (h : Host) (events : list TaskEvent)
  : option Coord * list TaskEvent :=
  let events' := List.map (resolveCoords h) events in
  let cs := omap coords events' in
  match cs with
  | [] => (None, events')
  | _ =>
      let sum := fold_left addCoord cs (mkCoord 0 0) in
      let n := inject_Z (Z.of_nat (length cs)) in
      (Some (mkCoord (cx sum / n)%Q (cy sum / n)%Q), events')
  end.

Inductive Completion := Normal | Threw.

(** [triggerFeedback(profile, events)]: the driver calls made, how the
    function completed, and the events as it left them.  (The elapsed
    time it measures only feeds a console warning.) *)
Definition triggerFeedback (h : Host) (s : Plugin) (profile : FeedbackProfile)
  (events : list TaskEvent) : list DriverCall * Completion * list TaskEvent :=
  let soundCalls :=
    match sound profile with
    | Some sd =>
        if enableSound (settings s)
        then [PlayRewardSound (s_intensity sd) (s_volume sd)] else []
    | None => []
    end in
  if negb (bool_decide (soundCalls = [])) && soundRaises h
  then (soundCalls, Threw, events)
  else
    match confetti profile with
    | Some cd =>
        if enableConfetti (settings s) then
          let '(origin, events') := getConfettiOrigin h events in
          let call :=
            Burst (mkBurst (c_intensity cd) (c_particleCount cd) (c_duration cd) origin) in
          (soundCalls ++ [call], if burstRaises h then Threw else Normal, events')
        else (soundCalls, Normal, events)
    | None => (soundCalls, Normal, events)
    end.

(** How one run of [processMergedEvents] ended. *)
Inductive FlushResult :=
| Throttled
| NothingPending
| Dispatched (count : nat) (calls : list DriverCall) (c : Completion).

(** [processMergedEvents()].  The events handed to [triggerFeedback] are
    the objects the queue holds, so what [getConfettiOrigin] writes into
    them is seen in the queue when the queue is not replaced. *)
Definition processMergedEvents (h : Host) (s : Plugin) : Plugin * FlushResult :=
  let now := clock h in
  let events := taskEventQueue s in
  let count := length events in
  if now - lastFeedbackTime s <? throttleMs (settings s) then
    (set_mergeTimer None (set_taskEventQueue [] s), Throttled)
  else if (count =? 0)%nat then
    (set_mergeTimer None s, NothingPending)
  else
    let profile := getFeedbackProfile h s (Z.of_nat count) in
    let '(calls, c, events') := triggerFeedback h s profile events in
    match c with
    | Threw => (set_taskEventQueue events' s, Dispatched count calls Threw)
    | Normal =>
        (set_lastFeedbackTime now (set_mergeTimer None (set_taskEventQueue [] s)),
         Dispatched count calls Normal)
    end.

(** *** Detecting transitions *)

(** The body of the loop of [handleTaskMetadataChange] over the tasks of
    the snapshot; [previousStates] is the snapshot before. *)
Definition taskStep (h : Host) (f : string) (now : Z) (previousStates : gmap Z bool)
  (acc : Plugin * gmap Z bool) (t : ListItemCache) : Plugin * gmap Z bool :=
  let '(s, currentStates) := acc in
  let ln := position_line t in
  let isC := isChecked t in
  let wasChecked := default false (previousStates !! ln) in
  let taskKey : Key := (f, ln) in
  let currentStates' := <[ln := isC]> currentStates in
  if negb wasChecked && isC then
    let suppressed :=
      match undoProtection s !! taskKey with
      | Some lastUndoTime =>
          truthy lastUndoTime && (now - lastUndoTime <? undoWindowMs (settings s))
      | None => false
      end in
    if suppressed then (s, currentStates')
    else
      (queueTaskEvent h (mkEvent f ln true now None) (cleanupUndoProtection now s),
       currentStates')
  else if wasChecked && negb isC then
    (set_undoProtection (<[taskKey := now]> (undoProtection s)) s, currentStates')
  else (s, currentStates').

Definition isTask (item : ListItemCache) : bool :=
  match task item with Some _ => true | None => false end.

(** [handleTaskMetadataChange(file, cache)]; [cache] is [None] for a null
    cache and the list [cache.listItems ?? []] otherwise. *)
Definition handleTaskMetadataChange (h : Host) (f : string)
  (cache : option (list ListItemCache)) (s : Plugin) : Plugin :=
  match cache with
  | None => set_taskStates (delete f (taskStates s)) s
  | Some listItems =>
      let tasks := List.filter isTask listItems in
      match taskStates s !! f with
      | None =>
          let currentStates :=
            fold_left (fun cur t => <[position_line t := isChecked t]> cur) tasks ∅ in
          set_taskStates (<[f := currentStates]> (taskStates s)) s
      | Some previousStates =>
          let now := clock h in
          let '(s', currentStates) :=
            fold_left (taskStep h f now previousStates) tasks (s, ∅) in
          set_taskStates (<[f := currentStates]> (taskStates s')) s'
      end
  end.

(** The DOM [change] listener on task checkboxes: [activeFile] is the
    path of the active file and [lineAttr] the parsed [data-line], each
    [None] when the listener returns early. *)
Definition onCheckboxChange (h : Host) (activeFile : option string)
  (lineAttr : option Z) (rect : DOMRect) (s : Plugin) : Plugin :=
  match activeFile, lineAttr with
  | Some path, Some ln =>
      set_recentTaskCoordinates
        (<[(path, ln) := (rectCenter rect, clock h)]> (recentTaskCoordinates s)) s
  | _, _ => s
  end.

(** [onunload] (the part on the merge timer). *)
Definition onunload (s : Plugin) : Plugin :=
  match mergeTimer s with
  | Some id => if truthy id then clearTimeout id s else s
  | None => s
  end.

Arguments computeTaskCoordinates : simpl never.
Arguments cleanupUndoProtection : simpl never.
Arguments queueTaskEvent : simpl never.
Arguments processMergedEvents : simpl never.
Arguments taskStep : simpl never.
Arguments handleTaskMetadataChange : simpl never.

(** *** The window's event loop *)

(** The window runs a timeout that is due: it leaves the pending list and
    its callback, [processMergedEvents], runs. *)
Definition fireTimeout (h : Host) (id : Z) (s : Plugin) : Plugin * FlushResult :=
  processMergedEvents h (clearTimeout id s).

Definition isDue (now : Z) (t : Z * Z) : bool := snd t <=? now.

(** All timeouts due at the host's clock run, oldest first. *)
Definition fireDue (h : Host) (s : Plugin) : Plugin * list FlushResult :=
  fold_left
    (fun acc t =>
       let '(s1, log) := acc in
       let '(s2, r) := fireTimeout h (fst t) s1 in
       (s2, log ++ [r]))
    (List.filter (isDue (clock h)) (pendingTimeouts s))
    (s, []).

(** Check transitions arriving one after the other, each with the host
    as it is on arrival; timeouts that came due in between run first. *)
Fixpoint arrive (evs : list (Host * TaskEvent)) (s : Plugin)
  : Plugin * list FlushResult :=
  match evs with
  | [] => (s, [])
  | (h, e) :: rest =>
      let '(s1, log1) := fireDue h s in
      let '(s2, log2) := arrive rest (queueTaskEvent h e s1) in
      (s2, log1 ++ log2)
  end.

(** What the plugin can be asked to do by the host. *)
Inductive Input :=
| MetadataChanged (f : string) (cache : option (list ListItemCache))
| CheckboxChanged (activeFile : option string) (lineAttr : option Z) (rect : DOMRect)
| TimeoutFired (id : Z).

(** One turn of the event loop, with the flushes it ran and the clock
    reading of each. *)
Definition step (h : Host) (i : Input) (s : Plugin) : Plugin * list (Z * FlushResult) :=
  match i with
  | MetadataChanged f cache => (handleTaskMetadataChange h f cache s, [])
  | CheckboxChanged a l r => (onCheckboxChange h a l r s, [])
  | TimeoutFired id =>
      match List.find (fun t => fst t =? id) (pendingTimeouts s) with
      | Some t =>
          if isDue (clock h) t
          then let '(s', r) := fireTimeout h id s in (s', [(clock h, r)])
          else (s, [])
      | None => (s, [])
      end
  end.

Fixpoint run (inputs : list (Host * Input)) (s : Plugin)
  : Plugin * list (Z * FlushResult) :=
  match inputs with
  | [] => (s, [])
  | (h, i) :: rest =>
      let '(s1, log1) := step h i s in
      let '(s2, log2) := run rest s1 in
      (s2, log1 ++ log2)
  end.


End Main.

(** ** settings.ts: the two test buttons of the settings tab *)
Module SettingsTab.

Import Main.

(** The [onClick] of "Test single completion". *)
Definition testSingleCompletion (s : Plugin) : list DriverCall :=
  [ PlayRewardSound light (soundVolume (settings s));
    Burst (mkBurst light 15 (confettiDuration (settings s)) None) ].

(** The [onClick] of "Test batch completion". *)
Definition testBatchCompletion (s : Plugin) : list DriverCall :=
  [ PlayRewardSound heavy (soundVolume (settings s));
    Burst (mkBurst heavy 50 (confettiDuration (settings s)) None) ].

(** What a flush would dispatch for a batch of [n] events: the path
    [getFeedbackProfile] then [triggerFeedback]. *)
Definition flushPath (h : Host) (s : Plugin) (events : list TaskEvent) : list DriverCall :=
  fst (fst (triggerFeedback h s (getFeedbackProfile h s (Z.of_nat (length events))) events)).

End SettingsTab.

(** ** Vocabulary of the properties *)
Module Vocabulary.

Import Main.
Local Open Scope Z_scope.

(** The events of a batch that belong to one key. *)
Definition eventsFor (k : Key) (q : list TaskEvent) : list TaskEvent :=
  List.filter (fun e => bool_decide (keyOf e = k)) q.





(** The merge timer discipline: a pending timeout is the one the plugin
    holds in [mergeTimer], handles are positive and below the next one. *)
Definition timerInv (s : Plugin) : Prop :=
  0 < nextHandle s
  /\ (forall id, mergeTimer s = Some id -> 0 < id < nextHandle s)
  /\ (forall t, In t (pendingTimeouts s) -> mergeTimer s = Some (fst t))
  /\ (length (pendingTimeouts s) <= 1)%nat.

(** How [cleanupUndoProtection] at time [now] can change one entry of
    the ledger: not at all, or by evicting a time older than [2 * w]. *)
Definition keptOrEvicted (w now : Z) (before after : option Z) : Prop :=
  after = before \/ (after = None /\ exists u, before = Some u /\ w * 2 < now - u).

(** An input that leaves line [l] of document [f] tracked and unchecked:
    any input but a null cache for [f] or a snapshot of [f] that shows
    a checked task at line [l]. *)
Definition quietFor (f : string) (l : Z) (i : Input) : Prop :=
  match i with
  | MetadataChanged f' cache =>
      f' = f ->
      exists items, cache = Some items
        /\ forall t, In t items -> isTask t = true -> position_line t = l ->
                     isChecked t = false
  | _ => True
  end.

(** The four ways one step of the loop of [handleTaskMetadataChange] can
    go, each with the plugin it leaves. *)
Inductive StepCase (h : Host) (f : string) (now : Z) (prev : gmap Z bool)
  (s : Plugin) (t : ListItemCache) : Plugin -> Prop :=
| StepSuppressed u :
    default false (prev !! position_line t) = false -> isChecked t = true ->
    undoProtection s !! (f, position_line t) = Some u ->
    u <> 0 -> now - u < undoWindowMs (settings s) ->
    StepCase h f now prev s t s
| StepEnqueued :
    default false (prev !! position_line t) = false -> isChecked t = true ->
    (forall u, undoProtection s !! (f, position_line t) = Some u ->
               u = 0 \/ undoWindowMs (settings s) <= now - u) ->
    StepCase h f now prev s t
      (queueTaskEvent h (mkEvent f (position_line t) true now None)
                      (cleanupUndoProtection now s))
| StepUnchecked :
    default false (prev !! position_line t) = true -> isChecked t = false ->
    StepCase h f now prev s t
      (set_undoProtection (<[(f, position_line t) := now]> (undoProtection s)) s)
| StepSame :
    default false (prev !! position_line t) = isChecked t ->
    StepCase h f now prev s t s.

(** Arrivals each at or after the one before and less than [w] after it;
    [t0] is the time of the arrival before the first of the list. *)
Fixpoint closeArrivals (w t0 : Z) (evs : list (Host * TaskEvent)) : Prop :=
  match evs with
  | [] => True
  | (h, _) :: rest => t0 <= clock h < t0 + w /\ closeArrivals w (clock h) rest
  end.

(** The time of the last arrival of the list ([t0] for an empty list). *)
Fixpoint lastArrival (t0 : Z) (evs : list (Host * TaskEvent)) : Z :=
  match evs with
  | [] => t0
  | (h, _) :: rest => lastArrival (clock h) rest
  end.

(** A ledger of 102 entries: lines 0 to 100 unchecked at time 5 and line
    500 unchecked at time 9000. *)
Definition crowdedLedger : gmap Key Z :=
  <[("todo.md"%string, 500) := 9000]>
    (list_to_map
       (List.map (fun i => (("todo.md"%string, Z.of_nat i), 5)) (seq 0 101))).

End Vocabulary.

(** ** confetti.ts: the animation loop and teardown *)
Module Animation.

Import Confetti.
Local Open Scope Q_scope.

(** [stopAnimation]: the frame request is cancelled and the canvas
    leaves the document. *)
Definition stopAnimation (m : ConfettiManager) : ConfettiManager :=
  mkManager (canvas m) false (particles m) false (logicalWidth m) (logicalHeight m).

(** [cleanup]. *)
Definition cleanup (m : ConfettiManager) : ConfettiManager :=
  mkManager false false [] false 0 0.

(** [particle.life = 1 - elapsed / particle.maxLife].  With [maxLife]
    zero the quotient is not a finite number: that case is left out of
    the model ([None]). *)
Definition lifeAt (elapsed : Q) (maxLife : Z) : option Q :=
  if (maxLife =? 0)%Z then None else Some (1 - elapsed / inject_Z maxLife).

(** The physics update of one particle in a frame. *)
Definition move (p : Particle) (life : Q) : Particle :=
  mkParticle (p_x p + p_vx p) (p_y p + p_vy p)
             (p_vx p) (p_vy p + (18 # 100))
             (p_rotation p + p_rotationSpeed p) (p_rotationSpeed p)
             (p_color p) (p_size p) life (p_maxLife p).

(** The callback of the [filter] in [animate]: the particle as updated,
    and whether it is kept ([life <= 0] drops it). *)
Definition frameParticle (elapsed : Q) (p : Particle) : option (Particle * bool) :=
  match lifeAt elapsed (p_maxLife p) with
  | Some life => Some (move p life, negb (Qle_bool life 0))
  | None => None
  end.

Fixpoint frameParticles (elapsed : Q) (ps : list Particle) : option (list Particle) :=
  match ps with
  | [] => Some []
  | p :: rest =>
      match frameParticle elapsed p, frameParticles elapsed rest with
      | Some (p', keep), Some rest' => Some (if keep then p' :: rest' else rest')
      | _, _ => None
      end
  end.

(** One run of the [animate] callback of [startAnimation]; [ctx] tells
    whether the canvas gave a 2D context, [startTime] is the time
    captured when the animation started.  The result is the manager and
    whether another frame was requested. *)
Definition animate (ctx : bool) (startTime currentTime : Q) (m : ConfettiManager)
  : option (ConfettiManager * bool) :=
  if negb ctx || negb (canvas m) then Some (m, false)
  else
    match frameParticles (currentTime - startTime) (particles m) with
    | Some [] =>
        Some (stopAnimation
                (mkManager (canvas m) (attached m) [] (animating m)
                           (logicalWidth m) (logicalHeight m)), false)
    | Some ps =>
        Some (mkManager (canvas m) (attached m) ps true
                        (logicalWidth m) (logicalHeight m), true)
    | None => None
    end.

(** The frames the browser delivers at the given times, for as long as
    the callback requests another one. *)
Fixpoint frames (ctx : bool) (startTime : Q) (times : list Q) (m : ConfettiManager)
  : option ConfettiManager :=
  match times with
  | [] => Some m
  | t :: rest =>
      match animate ctx startTime t m with
      | Some (m', true) => frames ctx startTime rest m'
      | Some (m', false) => Some m'
      | None => None
      end
  end.

(** A particle after the frames at the given times, none of which drops
    it. *)
Fixpoint moves (startTime : Q) (times : list Q) (p : Particle) : Particle :=
  match times with
  | [] => p
  | t :: rest =>
      moves startTime rest (move p (1 - (t - startTime) / inject_Z (p_maxLife p)))
  end.

(** A particle after [k] physics updates, in closed form. *)
Definition afterFrames (k : Z) (p : Particle) (life : Q) : Particle :=
  let n := inject_Z k in
  mkParticle (p_x p + n * p_vx p)
             (p_y p + n * p_vy p + (9 # 100) * n * (n - 1))
             (p_vx p) (p_vy p + n * (18 # 100))
             (p_rotation p + n * p_rotationSpeed p) (p_rotationSpeed p)
             (p_color p) (p_size p) life (p_maxLife p).

(** Two particles with the same numbers (equal as rationals). *)
Definition sameParticle (p q : Particle) : Prop :=
  p_x p == p_x q /\ p_y p == p_y q /\ p_vx p == p_vx q /\ p_vy p == p_vy q
  /\ p_rotation p == p_rotation q /\ p_rotationSpeed p == p_rotationSpeed q
  /\ p_color p = p_color q /\ p_size p == p_size q /\ p_life p == p_life q
  /\ p_maxLife p = p_maxLife q.

End Animation.

(** ** sound.ts: the synthesized chord, the asset loader and teardown *)
Module SoundAssets.

Import Sound.
Local Open Scope Q_scope.

(** One oscillator of [synthesizeTone] with its gain envelope: silent at
    [o_start], [o_peakGain] at [o_peakAt], decayed at [o_decayEnd],
    stopped at [o_stop]. *)
Record Oscillator := mkOsc {
  o_frequency : Z;
  o_start : Q;
  o_peakAt : Q;
  o_peakGain : Q;
  o_decayEnd : Q;
  o_stop : Q
}.

Definition frequencies : list (list Z) :=
  [[880; 1100]; [660; 880]; [440; 660]]%Z.

(** The body of the loop of [synthesizeTone] for layer [i]. *)
Definition layerOscillators (startTime volume : Q) (i : nat) (freqs : list Z)
  : list Oscillator :=
  let delay := inject_Z (Z.of_nat i) * (3 # 100) in
  imap (fun idx freq =>
          mkOsc freq (startTime + delay) (startTime + delay + (1 # 100))
                (layerVolume volume (Z.of_nat i))
                (startTime + delay + (15 # 100) + inject_Z (Z.of_nat idx) * (5 # 100))
                (startTime + delay + (2 # 10)))
       freqs.

(** [synthesizeTone(audioContext, startTime, volume, layers)]. *)
Definition synthesizeTone (startTime volume : Q) (layers : Z) : list Oscillator :=
  concat (imap (layerOscillators startTime volume)
               (take (Z.to_nat (Z.min layers 3)) frequencies)).

(** [cleanup()] (the fields of the model). *)
Definition cleanup (sm : SoundManager) : SoundManager :=
  mkSound false false false (useWebAudio sm) (loading sm).

(** The manager as the constructor leaves it: nothing loaded, the load
    pending. *)
Definition constructed : SoundManager := mkSound false false false true true.

(** *** What the vault adapter and the platform answer for a candidate *)

Inductive ExistsAnswer :=
| ExistsAbsent               (* [adapter.exists] is not a function *)
| ExistsIs (b : bool)
| ExistsRaises.

Inductive ResourceAnswer :=
| ResourceNone               (* no [getResourcePath], or a falsy path *)
| ResourceUrl
| ResourceRaises.

Inductive FetchAnswer :=
| FetchFails                 (* [fetch] raises or the response is not ok *)
| FetchOk (decodes : bool).  (* the bytes, and whether they decode *)

Inductive BinaryAnswer :=
| BinaryAbsent               (* [adapter.readBinary] is not a function *)
| BinaryRaises
| BinaryOk (decodes : bool).

Record Candidate := mkCandidate {
  existsAnswer : ExistsAnswer;
  resourceAnswer : ResourceAnswer;
  fetchAnswer : FetchAnswer;
  htmlFromUrlRaises : bool;
  binaryAnswer : BinaryAnswer;
  htmlFromBufferRaises : bool
}.

Definition set_loaded (buffer webAudio : bool) (sm : SoundManager) : SoundManager :=
  mkSound buffer (audioElement sm) (audioContext sm) webAudio (loading sm).

Definition set_element (element : bool) (sm : SoundManager) : SoundManager :=
  mkSound (audioBuffer sm) element (audioContext sm) (useWebAudio sm) (loading sm).

(** [tryLoadWithWebAudio(arrayBuffer)]. *)
Definition tryLoadWithWebAudio (p : Platform) (decodes : bool) (sm : SoundManager)
  : bool * SoundManager :=
  let '(ok, sm1) := ensureAudioContext p sm in
  if negb ok then (false, noWebAudio sm1)
  else if decodes then (true, set_loaded true true sm1)
       else (false, set_loaded false false sm1).

(** [tryLoadWithWebAudioFromUrl(url)]. *)
Definition tryLoadWithWebAudioFromUrl (p : Platform) (f : FetchAnswer) (sm : SoundManager)
  : bool * SoundManager :=
  match f with
  | FetchFails => (false, sm)
  | FetchOk decodes => tryLoadWithWebAudio p decodes sm
  end.

(** [tryLoadWithHtmlAudioFromUrl] and [tryLoadWithHtmlAudioFromBuffer]:
    the element is kept and Web Audio given up, unless building the
    element raises. *)
Definition tryLoadWithHtmlAudio (raises : bool) (sm : SoundManager)
  : bool * SoundManager :=
  if raises then (false, set_element false sm)
  else (true, noWebAudio (set_element true sm)).

(** How the body of the loop of [loadSound] ends for one candidate. *)
Inductive LoopExit := Loaded | NextCandidate | Aborted.

Definition fromBinary (p : Platform) (c : Candidate) (sm : SoundManager)
  : LoopExit * SoundManager :=
  match binaryAnswer c with
  | BinaryAbsent | BinaryRaises => (NextCandidate, sm)
  | BinaryOk decodes =>
      let '(ok, sm1) := tryLoadWithWebAudio p decodes sm in
      if ok then (Loaded, sm1)
      else
        let '(ok2, sm2) := tryLoadWithHtmlAudio (htmlFromBufferRaises c) sm1 in
        if ok2 then (Loaded, sm2) else (NextCandidate, sm2)
  end.

Definition fromResource (p : Platform) (c : Candidate) (sm : SoundManager)
  : LoopExit * SoundManager :=
  match resourceAnswer c with
  | ResourceRaises => (Aborted, sm)
  | ResourceNone => fromBinary p c sm
  | ResourceUrl =>
      let '(ok, sm1) := tryLoadWithWebAudioFromUrl p (fetchAnswer c) sm in
      if ok then (Loaded, sm1)
      else
        let '(ok2, sm2) := tryLoadWithHtmlAudio (htmlFromUrlRaises c) sm1 in
        if ok2 then (Loaded, sm2) else fromBinary p c sm2
  end.

Definition tryCandidate (p : Platform) (c : Candidate) (sm : SoundManager)
  : LoopExit * SoundManager :=
  match existsAnswer c with
  | ExistsRaises => (Aborted, sm)
  | ExistsIs false => (NextCandidate, sm)
  | ExistsAbsent | ExistsIs true => fromResource p c sm
  end.

Fixpoint tryCandidates (p : Platform) (cs : list Candidate) (sm : SoundManager)
  : SoundManager :=
  match cs with
  | [] => sm
  | c :: rest =>
      match tryCandidate p c sm with
      | (NextCandidate, sm1) => tryCandidates p rest sm1
      | (_, sm1) => sm1
      end
  end.

(** [loadSound()]: the candidates in order ([reward.m4a], then
    [reward.mp3]); whatever happens, [finally] clears [loading]. *)
Definition loadSound (p : Platform) (cs : list Candidate) (sm : SoundManager)
  : SoundManager :=
  let sm1 := tryCandidates p cs sm in
  mkSound (audioBuffer sm1) (audioElement sm1) (audioContext sm1) (useWebAudio sm1) false.

(** The manager holds at most one asset, and Web Audio is on exactly
    when the asset is a decoded buffer. *)
Definition oneAsset (sm : SoundManager) : Prop :=
  (audioBuffer sm = true -> useWebAudio sm = true /\ audioElement sm = false)
  /\ (audioElement sm = true -> useWebAudio sm = false /\ audioBuffer sm = false).

(** Neither a decoded buffer nor an audio element is held. *)
Definition noAsset (sm : SoundManager) : Prop :=
  audioBuffer sm = false /\ audioElement sm = false.

(** Playing the decoded buffer fails: no [AudioContext] can be had, the
    suspended context refuses to resume, or starting the source raises. *)
Definition webAudioFails (p : Platform) (sm : SoundManager) : bool :=
  (negb (audioContext sm) && negb (contextAvailable p))
  || (contextSuspended p && resumeRejects p)
  || bufferStartRaises p.

(** The sum of the peak gains of the oscillators. *)
Definition totalPeakGain (os : list Oscillator) : Q :=
  fold_right (fun o acc => o_peakGain o + acc) 0 os.

(** The vault adapter reports the candidate's file as absent. *)
Definition reportedAbsent (c : Candidate) : Prop := existsAnswer c = ExistsIs false.

(** The vault adapter raises while the candidate is looked up:
    [adapter.exists] rejects, or the file is not reported absent and
    [adapter.getResourcePath] raises. *)
Definition lookupRaises (c : Candidate) : Prop :=
  existsAnswer c = ExistsRaises
  \/ (existsAnswer c <> ExistsIs false /\ resourceAnswer c = ResourceRaises).

End SoundAssets.

(** ** settings.ts: the controls of the settings tab *)
Module SettingsEdit.

Import Main.
Local Open Scope Z_scope.

(** What the user can do in the tab.  A text field hands its handler the
    result of [parseInt(value)]: [None] stands for [NaN] (an infinite
    result fails the upper bound like any integer above it). *)
Inductive Edit :=
| ToggleSound (value : bool)
| ToggleConfetti (value : bool)
| ToggleMute (value : bool)
| SlideVolume (value : Q)        (* the slider position, 0 to 100 *)
| SlideDuration (value : Z)
| TypeMergeWindow (num : option Z)
| TypeThrottle (num : option Z)
| TypeUndoWindow (num : option Z).

(** [!isNaN(num) && num >= lo && num <= hi]. *)
Definition accepted (lo hi : Z) (num : option Z) : option Z :=
  match num with
  | Some n => if (lo <=? n) && (n <=? hi) then Some n else None
  | None => None
  end.

(** The [onChange] handler of each control. *)
Definition onChange (e : Edit) (st : RewardSettings) : RewardSettings :=
  match e with
  | ToggleSound v =>
      mkSettings v (enableConfetti st) (globalMute st) (disableConfetti st)
                 (soundVolume st) (confettiDuration st) (mergeWindowMs st)
                 (throttleMs st) (undoWindowMs st)
  | ToggleConfetti v =>
      mkSettings (enableSound st) v (globalMute st) (disableConfetti st)
                 (soundVolume st) (confettiDuration st) (mergeWindowMs st)
                 (throttleMs st) (undoWindowMs st)
  | ToggleMute v =>
      mkSettings (enableSound st) (enableConfetti st) v (disableConfetti st)
                 (soundVolume st) (confettiDuration st) (mergeWindowMs st)
                 (throttleMs st) (undoWindowMs st)
  | SlideVolume v =>
      mkSettings (enableSound st) (enableConfetti st) (globalMute st)
                 (disableConfetti st) (v / 100)%Q (confettiDuration st)
                 (mergeWindowMs st) (throttleMs st) (undoWindowMs st)
  | SlideDuration v =>
      mkSettings (enableSound st) (enableConfetti st) (globalMute st)
                 (disableConfetti st) (soundVolume st) v (mergeWindowMs st)
                 (throttleMs st) (undoWindowMs st)
  | TypeMergeWindow num =>
      match accepted 100 1000 num with
      | Some n =>
          mkSettings (enableSound st) (enableConfetti st) (globalMute st)
                     (disableConfetti st) (soundVolume st) (confettiDuration st) n
                     (throttleMs st) (undoWindowMs st)
      | None => st
      end
  | TypeThrottle num =>
      match accepted 100 1000 num with
      | Some n =>
          mkSettings (enableSound st) (enableConfetti st) (globalMute st)
                     (disableConfetti st) (soundVolume st) (confettiDuration st)
                     (mergeWindowMs st) n (undoWindowMs st)
      | None => st
      end
  | TypeUndoWindow num =>
      match accepted 500 3000 num with
      | Some n =>
          mkSettings (enableSound st) (enableConfetti st) (globalMute st)
                     (disableConfetti st) (soundVolume st) (confettiDuration st)
                     (mergeWindowMs st) (throttleMs st) n
      | None => st
      end
  end.

(** The timing parameters are inside the bounds the tab declares. *)
Definition timingInRange (st : RewardSettings) : Prop :=
  100 <= mergeWindowMs st <= 1000
  /\ 100 <= throttleMs st <= 1000
  /\ 500 <= undoWindowMs st <= 3000.

(** The edit respects the limits its slider declares
    ([setLimits(0, 100, 5)] and [setLimits(400, 1200, 100)]). *)
Definition withinLimits (e : Edit) : Prop :=
  match e with
  | SlideVolume v => (0 <= v /\ v <= 100)%Q
  | SlideDuration d => 400 <= d <= 1200
  | _ => True
  end.

(** Every numeric setting is inside the range its control declares. *)
Definition settingsInRange (st : RewardSettings) : Prop :=
  timingInRange st
  /\ (0 <= soundVolume st /\ soundVolume st <= 1)%Q
  /\ 400 <= confettiDuration st <= 1200.

(** A sequence of edits, each handled by its [onChange]. *)
Definition editAll (edits : list Edit) (st : RewardSettings) : RewardSettings :=
  fold_left (fun s e => onChange e s) edits st.

End SettingsEdit.

(** ** More vocabulary *)
Module Observations.

Import Main.
Local Open Scope Z_scope.

(** What a snapshot says about line [l]: the state of the last task it
    lists at that line, if any. *)
Fixpoint lineState (l : Z) (tasks : list ListItemCache) : option bool :=
  match tasks with
  | [] => None
  | t :: rest =>
      match lineState l rest with
      | Some b => Some b
      | None => if position_line t =? l then Some (isChecked t) else None
      end
  end.

(** Tasks listed at the same line agree on their state. *)
Definition consistentLines (tasks : list ListItemCache) : Prop :=
  forall t t', In t tasks -> In t' tasks ->
    position_line t = position_line t' -> isChecked t = isChecked t'.

(** All characters are ASCII white space. *)
Fixpoint allSpace (s : string) : bool :=
  match s with
  | EmptyString => true
  | String c r => is_space c && allSpace r
  end.

(** The point lies in the box [xlo, xhi] by [ylo, yhi]. *)
Definition inBox (xlo xhi ylo yhi : Q) (c : Coord) : Prop :=
  (xlo <= cx c /\ cx c <= xhi /\ ylo <= cy c /\ cy c <= yhi)%Q.

(** The coordinates the events of a batch have once the geometry lookup
    has been asked for those that carry none. *)
Definition knownCoords (h : Host) (events : list TaskEvent) : list Coord :=
  omap coords (List.map (resolveCoords h) events).

(** The sums of the horizontal and of the vertical components. *)
Definition sumX (cs : list Coord) : Q := fold_right (fun c acc => (cx c + acc)%Q) 0%Q cs.
Definition sumY (cs : list Coord) : Q := fold_right (fun c acc => (cy c + acc)%Q) 0%Q cs.

End Observations.

(** * Properties *)

(** ** The confetti origin *)
Section BurstOrigin.

Import Confetti.
Local Open Scope Q_scope.

Variables (w : Window) (m : ConfettiManager) (config : ConfettiBurstConfig).

(** After [ensureCanvas] the logical size is the viewport's, so the
    [||] fallbacks of [burst] change nothing. *)
Lemma burstWidth_viewport : burstWidth w m = innerWidth w.
Proof.
  unfold burstWidth, ensureCanvas, setupCanvas, resizeCanvas, or_number.
  destruct (canvas m) eqn:E; simpl; rewrite ?E; simpl;
    destruct (Qeq_dec _ _); reflexivity.
Qed.

Lemma burstHeight_viewport : burstHeight w m = innerHeight w.
Proof.
  unfold burstHeight, ensureCanvas, setupCanvas, resizeCanvas, or_number.
  destruct (canvas m) eqn:E; simpl; rewrite ?E; simpl;
    destruct (Qeq_dec _ _); reflexivity.
Qed.

Lemma clamp_bounds v lo hi : lo <= hi -> lo <= clamp v lo hi /\ clamp v lo hi <= hi.
Proof.
  intros Hle. unfold clamp.
  destruct (Qlt_le_dec v lo); [split; lra|].
  destruct (Qlt_le_dec hi v); split; lra.
Qed.

Lemma clamp_inside v lo hi : lo <= v -> v <= hi -> clamp v lo hi = v.
Proof.
  intros Hlo Hhi. unfold clamp.
  destruct (Qlt_le_dec v lo); [lra|].
  destruct (Qlt_le_dec hi v); [lra|reflexivity].
Qed.

Lemma upper_bound_wide d : 80 <= d -> Qmax 40 (d - 40) == d - 40.
Proof. intros H. apply Q.max_r. lra. Qed.

Lemma spawn_nth (ox oy sx sy : Q) (life : Z) (n i : nat) :
  (i < n)%nat ->
  nth_error (List.map (spawn w ox oy sx sy life) (seq 0 n)) i
  = Some (spawn w ox oy sx sy life i).
Proof.
  intros Hi. rewrite nth_error_map.
  assert (Hs : nth_error (seq 0 n) i = Some i).
  { rewrite nth_error_nth' with (d := 0%nat) by (rewrite length_seq; exact Hi).
    rewrite seq_nth by exact Hi. reflexivity. }
  rewrite Hs. reflexivity.
Qed.

(** C9. For every call of [burst], each component of the origin used is
    the requested one (or the default: half the viewport width, a quarter
    of its height) clamped into [40, max(40, dimension - 40)].  The origin
    therefore lies in that interval, is the requested point when that
    point is inside, stays 40 logical pixels or more from the left and top
    edges, and also from the right and bottom edges of a viewport that is
    80 or more wide and high; and every particle is spawned around it. *)
Theorem burst_origin_clamped :
  let W := innerWidth w in
  let H := innerHeight w in
  let ox := originX w m config in
  let oy := originY w m config in
  ox = clamp (nullish (option_map cx (origin config)) (W / 2)) 40 (Qmax 40 (W - 40))
  /\ oy = clamp (nullish (option_map cy (origin config)) (H * (1 # 4))) 40
                (Qmax 40 (H - 40))
  /\ (40 <= ox /\ ox <= Qmax 40 (W - 40))
  /\ (40 <= oy /\ oy <= Qmax 40 (H - 40))
  /\ (80 <= W -> ox <= W - 40)
  /\ (80 <= H -> oy <= H - 40)
  /\ (forall c, origin config = Some c ->
        (40 <= cx c -> cx c <= W - 40 -> ox = cx c)
        /\ (40 <= cy c -> cy c <= H - 40 -> oy = cy c))
  /\ (forall i, (i < Z.to_nat (particleCount config))%nat ->
        exists p, nth_error (particles (burst w config m)) i = Some p
          /\ p_x p = ox + (random w (8 * i) - (1 # 2)) * Qmax (W * (1 # 4)) 160
          /\ p_y p = oy + (random w (8 * i + 1) - (1 # 2))
                          * Qmax (H * (15 # 100)) 80 * (3 # 10)).
Proof.
  intros W H ox oy.
  assert (HX : ox = clamp (nullish (option_map cx (origin config)) (W / 2)) 40
                          (Qmax 40 (W - 40))).
  { unfold ox, originX. rewrite burstWidth_viewport. reflexivity. }
  assert (HY : oy = clamp (nullish (option_map cy (origin config)) (H * (1 # 4))) 40
                          (Qmax 40 (H - 40))).
  { unfold oy, originY. rewrite burstHeight_viewport. reflexivity. }
  assert (BX : 40 <= ox /\ ox <= Qmax 40 (W - 40)).
  { rewrite HX. apply clamp_bounds, Q.le_max_l. }
  assert (BY : 40 <= oy /\ oy <= Qmax 40 (H - 40)).
  { rewrite HY. apply clamp_bounds, Q.le_max_l. }
  split; [exact HX|]. split; [exact HY|]. split; [exact BX|]. split; [exact BY|].
  split; [|split; [|split]].
  - intros HW. destruct BX as [_ BX]. rewrite (upper_bound_wide W HW) in BX. exact BX.
  - intros HH. destruct BY as [_ BY]. rewrite (upper_bound_wide H HH) in BY. exact BY.
  - intros c Hc. split; intros Hlo Hhi.
    + rewrite HX, Hc. simpl. apply clamp_inside; [exact Hlo|].
      apply Qle_trans with (W - 40); [exact Hhi | apply Q.le_max_r].
    + rewrite HY, Hc. simpl. apply clamp_inside; [exact Hlo|].
      apply Qle_trans with (H - 40); [exact Hhi | apply Q.le_max_r].
  - intros i Hi. eexists. split.
    + unfold burst. simpl. apply spawn_nth. exact Hi.
    + simpl. rewrite burstWidth_viewport, burstHeight_viewport.
      replace (i + (i + (i + (i + (i + (i + (i + (i + 0))))))) + 0)%nat
        with (i + (i + (i + (i + (i + (i + (i + (i + 0))))))))%nat by lia.
      split; reflexivity.
Qed.

End BurstOrigin.

(** ** The reward sound *)
Section RewardSound.

Import Sound.
Local Open Scope Q_scope.

Lemma adjustedVolume_le_1 i v : adjustedVolume i v <= 1.
Proof. unfold adjustedVolume. apply Q.le_min_r. Qed.

Lemma adjustedVolume_scaled i v :
  v * volumeMultiplier i <= 1 -> adjustedVolume i v == v * volumeMultiplier i.
Proof. intros H. unfold adjustedVolume. apply Q.min_l. exact H. Qed.

Lemma adjustedVolume_clamped i v :
  1 <= v * volumeMultiplier i -> adjustedVolume i v == 1.
Proof. intros H. unfold adjustedVolume. apply Q.min_r. exact H. Qed.

(** Whatever sounds after [playHTML5Audio] sounds at the volume given. *)
Lemma playHTML5Audio_volume p sm i v r :
  effectiveVolume (playHTML5Audio p sm i v) = Some r -> r = v.
Proof.
  unfold playHTML5Audio, playSynthesizedSound.
  destruct (audioElement sm), (elementPlayFails p), (synthRaises p); simpl; congruence.
Qed.

(** Whatever sounds after [playWebAudio] sounds at the volume given. *)
Lemma playWebAudio_volume p sm i v r :
  effectiveVolume (fst (playWebAudio p sm i v)) = Some r -> r = v.
Proof.
  unfold playWebAudio.
  destruct (audioBuffer sm); simpl; [|discriminate].
  destruct (ensureAudioContext p sm) as [ok sm1].
  destruct ok; simpl.
  - destruct (contextSuspended p), (resumeRejects p), (bufferStartRaises p); simpl;
      first [ apply playHTML5Audio_volume | congruence ].
  - apply playHTML5Audio_volume.
Qed.

(** On the decoded-buffer and the HTML-element tiers the volume that
    sounds is the scaled and clamped one. *)
Lemma playRewardSound_asset_tiers p sm i v r :
  loading sm = false ->
  (useWebAudio sm && audioBuffer sm) || audioElement sm = true ->
  effectiveVolume (fst (playRewardSound p sm i v)) = Some r ->
  r = adjustedVolume i v.
Proof.
  intros Hl Ht. unfold playRewardSound. rewrite Hl.
  destruct (useWebAudio sm && audioBuffer sm) eqn:E.
  - apply playWebAudio_volume.
  - simpl in Ht. rewrite Ht. simpl. apply playHTML5Audio_volume.
Qed.

(** C8, at the failing input.  With no decoded buffer and no audio
    element, [playRewardSound('light', 0.5)] hands the synthesized tone
    the volume 0.5 it was called with, while the scaled volume is 0.4; on
    the same call with an audio element the element is set to 0.4, and a
    tone synthesized because that element fails to play gets 0.4 too. *)
Theorem synthesized_fallback_unscaled :
  let p := mkPlatform true false false false false false in
  let bare := mkSound false false false true false in
  let withElement := mkSound false true false false false in
  fst (playRewardSound p bare light (1 # 2)) = Tone (1 # 2) 1
  /\ adjustedVolume light (1 # 2) == 2 # 5
  /\ ~ (1 # 2 == adjustedVolume light (1 # 2))
  /\ effectiveVolume (fst (playRewardSound p withElement light (1 # 2)))
     = Some (adjustedVolume light (1 # 2))
  /\ fst (playRewardSound (mkPlatform true false false false true false)
                          withElement light (1 # 2))
     = Tone (adjustedVolume light (1 # 2)) 1.
Proof.
  simpl. repeat split.
  intros H. vm_compute in H. discriminate.
Qed.

End RewardSound.

(** ** The coordinate cache *)
Section CoordinateCache.

Import Main.
Local Open Scope Z_scope.

(** What [queueTaskEvent] leaves in each field. *)
Lemma queueTaskEvent_recent h e s :
  recentTaskCoordinates (queueTaskEvent h e s)
  = delete (keyOf e) (recentTaskCoordinates s).
Proof.
  unfold queueTaskEvent. simpl.
  destruct (mergeTimer s) as [id|]; [destruct (truthy id)|]; reflexivity.
Qed.

Lemma queueTaskEvent_queue h e s :
  taskEventQueue (queueTaskEvent h e s)
  = taskEventQueue s
    ++ [mkEvent (file e) (line e) (checked e) (timestamp e)
          (orElse (cachedCoords (clock h) (recentTaskCoordinates s !! keyOf e))
             (orElse (coords e) (computeTaskCoordinates h (file e) (line e))))].
Proof.
  unfold queueTaskEvent. simpl.
  destruct (mergeTimer s) as [id|]; [destruct (truthy id)|]; reflexivity.
Qed.

(** [processMergedEvents] neither reads nor writes the coordinate cache. *)
Lemma processMergedEvents_ignores_cache h s r :
  processMergedEvents h (set_recentTaskCoordinates r s)
  = (set_recentTaskCoordinates r (fst (processMergedEvents h s)),
     snd (processMergedEvents h s)).
Proof.
  unfold processMergedEvents. simpl.
  destruct (clock h - lastFeedbackTime s <? throttleMs (settings s)); [reflexivity|].
  destruct (length (taskEventQueue s) =? 0)%nat; [reflexivity|].
  unfold triggerFeedback, getFeedbackProfile. simpl.
  destruct (globalMute (settings s)), (enableSound (settings s)),
    (reducedMotion h || disableConfetti (settings s)), (enableConfetti (settings s)),
    (soundRaises h), (burstRaises h); simpl;
    try destruct (getConfettiOrigin h (taskEventQueue s)); reflexivity.
Qed.

(** C10. Enqueuing a check event removes the entry of its key from the
    coordinate cache, fresh or not, and leaves the other entries alone;
    a flush does not look at the cache. *)
Theorem enqueue_consumes_cache_entry h e s :
  recentTaskCoordinates (queueTaskEvent h e s) !! keyOf e = None
  /\ (forall k, k <> keyOf e ->
        recentTaskCoordinates (queueTaskEvent h e s) !! k
        = recentTaskCoordinates s !! k)
  /\ (forall h' r,
        snd (processMergedEvents h' (set_recentTaskCoordinates r (queueTaskEvent h e s)))
        = snd (processMergedEvents h' (queueTaskEvent h e s))).
Proof.
  rewrite queueTaskEvent_recent. repeat split.
  - apply lookup_delete_eq.
  - intros k Hk. apply lookup_delete_ne. congruence.
  - intros h' r. rewrite processMergedEvents_ignores_cache. reflexivity.
Qed.

(** C7. The event that [queueTaskEvent] appends carries the cached
    coordinate of its key when that entry was captured less than 1500 ms
    before; when the entry is 1500 ms old or older, or absent, an event
    that brings no coordinate of its own (as those built by
    [handleTaskMetadataChange]) carries the result of the geometry
    lookup. *)
Theorem cached_coordinate_round_trip h e s :
  let enqueued := List.last (taskEventQueue (queueTaskEvent h e s)) e in
  taskEventQueue (queueTaskEvent h e s) = taskEventQueue s ++ [enqueued]
  /\ keyOf enqueued = keyOf e
  /\ (forall c ts,
        recentTaskCoordinates s !! keyOf e = Some (c, ts) ->
        clock h - ts < 1500 ->
        coords enqueued = Some c)
  /\ (forall c ts,
        recentTaskCoordinates s !! keyOf e = Some (c, ts) ->
        1500 <= clock h - ts ->
        coords e = None ->
        coords enqueued = computeTaskCoordinates h (file e) (line e))
  /\ (recentTaskCoordinates s !! keyOf e = None ->
        coords e = None ->
        coords enqueued = computeTaskCoordinates h (file e) (line e)).
Proof.
  intros enqueued. unfold enqueued. rewrite queueTaskEvent_queue, List.last_last.
  repeat split.
  - intros c ts Hr Hf. simpl. rewrite Hr. simpl.
    destruct (Z.ltb_spec (clock h - ts) 1500); [reflexivity | lia].
  - intros c ts Hr Hf He. simpl. rewrite Hr, He. simpl.
    destruct (Z.ltb_spec (clock h - ts) 1500); [lia | reflexivity].
  - intros Hr He. simpl. rewrite Hr, He. reflexivity.
Qed.

(** The coordinate stored by the checkbox listener comes back unchanged
    on an enqueue for the same key within the validity window. *)
Lemma interaction_round_trip h0 h1 path ln rect e s :
  keyOf e = (path, ln) ->
  clock h1 - clock h0 < 1500 ->
  coords (List.last (taskEventQueue
                       (queueTaskEvent h1 e
                          (onCheckboxChange h0 (Some path) (Some ln) rect s))) e)
  = Some (rectCenter rect).
Proof.
  intros Hk Hf. rewrite queueTaskEvent_queue, List.last_last. simpl.
  rewrite Hk, lookup_insert_eq. simpl.
  destruct (Z.ltb_spec (clock h1 - clock h0) 1500); [reflexivity | lia].
Qed.

End CoordinateCache.

(** ** Frame lemmas: what each operation leaves untouched *)
Section Frames.

Import Main.
Local Open Scope Z_scope.

Lemma queueTaskEvent_settings h e s : settings (queueTaskEvent h e s) = settings s.
Proof.
  unfold queueTaskEvent. simpl.
  destruct (mergeTimer s) as [id|]; [destruct (truthy id)|]; reflexivity.
Qed.

Lemma queueTaskEvent_lastFeedbackTime h e s :
  lastFeedbackTime (queueTaskEvent h e s) = lastFeedbackTime s.
Proof.
  unfold queueTaskEvent. simpl.
  destruct (mergeTimer s) as [id|]; [destruct (truthy id)|]; reflexivity.
Qed.

Lemma queueTaskEvent_undoProtection h e s :
  undoProtection (queueTaskEvent h e s) = undoProtection s.
Proof.
  unfold queueTaskEvent. simpl.
  destruct (mergeTimer s) as [id|]; [destruct (truthy id)|]; reflexivity.
Qed.

Lemma cleanupUndoProtection_settings now s :
  settings (cleanupUndoProtection now s) = settings s.
Proof. unfold cleanupUndoProtection. destruct (_ <=? _)%nat; reflexivity. Qed.


Lemma cleanupUndoProtection_queue now s :
  taskEventQueue (cleanupUndoProtection now s) = taskEventQueue s.
Proof. unfold cleanupUndoProtection. destruct (_ <=? _)%nat; reflexivity. Qed.

Lemma cleanupUndoProtection_recent now s :
  recentTaskCoordinates (cleanupUndoProtection now s) = recentTaskCoordinates s.
Proof. unfold cleanupUndoProtection. destruct (_ <=? _)%nat; reflexivity. Qed.

(** A field that one loop step preserves is preserved by the loop. *)
Lemma fold_taskStep_preserves {A} (proj : Plugin -> A) h f now prev :
  (forall acc t, proj (fst (taskStep h f now prev acc t)) = proj (fst acc)) ->
  forall tasks acc,
    proj (fst (fold_left (taskStep h f now prev) tasks acc)) = proj (fst acc).
Proof.
  intros Hstep tasks. induction tasks as [|t tasks IH]; intros acc; simpl.
  - reflexivity.
  - rewrite IH. apply Hstep.
Qed.

Lemma taskStep_settings h f now prev acc t :
  settings (fst (taskStep h f now prev acc t)) = settings (fst acc).
Proof.
  destruct acc as [s cur]. unfold taskStep. cbv beta iota zeta.
  repeat match goal with
         | |- context [if ?b then _ else _] => destruct b
         | |- context [match ?o with Some _ => _ | None => _ end] => destruct o
         end; cbn [fst];
    rewrite ?queueTaskEvent_settings, ?cleanupUndoProtection_settings; reflexivity.
Qed.


Lemma handleTaskMetadataChange_settings h f cache s :
  settings (handleTaskMetadataChange h f cache s) = settings s.
Proof.
  unfold handleTaskMetadataChange.
  destruct cache as [items|]; [|reflexivity].
  destruct (taskStates s !! f) as [prev|]; [|reflexivity].
  pose proof (fold_taskStep_preserves settings h f (clock h) prev
                (taskStep_settings h f (clock h) prev)
                (List.filter isTask items) (s, ∅)) as Hf.
  destruct (fold_left _ _ _) as [s' cur]. exact Hf.
Qed.


Lemma queueTaskEvent_taskStates h e s : taskStates (queueTaskEvent h e s) = taskStates s.
Proof.
  unfold queueTaskEvent. simpl.
  destruct (mergeTimer s) as [id|]; [destruct (truthy id)|]; reflexivity.
Qed.

Lemma cleanupUndoProtection_taskStates now s :
  taskStates (cleanupUndoProtection now s) = taskStates s.
Proof. unfold cleanupUndoProtection. destruct (_ <=? _)%nat; reflexivity. Qed.

Lemma taskStep_taskStates h f now prev acc t :
  taskStates (fst (taskStep h f now prev acc t)) = taskStates (fst acc).
Proof.
  destruct acc as [s cur]. unfold taskStep. cbv beta iota zeta.
  repeat match goal with
         | |- context [if ?b then _ else _] => destruct b
         | |- context [match ?o with Some _ => _ | None => _ end] => destruct o
         end; cbn [fst];
    rewrite ?queueTaskEvent_taskStates, ?cleanupUndoProtection_taskStates; reflexivity.
Qed.

(** A snapshot of one document leaves the tracked state of the others. *)
Lemma handleTaskMetadataChange_taskStates_other h f' cache s f :
  f' <> f ->
  taskStates (handleTaskMetadataChange h f' cache s) !! f = taskStates s !! f.
Proof.
  intros Hne. unfold handleTaskMetadataChange.
  destruct cache as [items|]; [|simpl; apply lookup_delete_ne; exact Hne].
  destruct (taskStates s !! f') as [prev|].
  - pose proof (fold_taskStep_preserves taskStates h f' (clock h) prev
                  (taskStep_taskStates h f' (clock h) prev)
                  (List.filter isTask items) (s, ∅)) as Hf.
    destruct (fold_left _ _ _) as [s' cur]. simpl in *.
    rewrite lookup_insert_ne by exact Hne. rewrite Hf. reflexivity.
  - simpl. apply lookup_insert_ne. exact Hne.
Qed.

(** A flush touches neither the ledger nor the tracked states. *)
Lemma processMergedEvents_ledger h s :
  undoProtection (fst (processMergedEvents h s)) = undoProtection s
  /\ taskStates (fst (processMergedEvents h s)) = taskStates s.
Proof.
  unfold processMergedEvents.
  destruct (_ <? _); [split; reflexivity|].
  destruct (_ =? _)%nat; [split; reflexivity|].
  destruct (triggerFeedback h s _ _) as [[calls c] events'].
  destruct c; split; reflexivity.
Qed.

End Frames.

(** ** The flush: cleanup and throttle *)
Section Flush.

Import Main Vocabulary.
Local Open Scope Z_scope.

Lemma getConfettiOrigin_events h events :
  snd (getConfettiOrigin h events) = List.map (resolveCoords h) events.
Proof. unfold getConfettiOrigin. destruct (omap _ _); reflexivity. Qed.

Lemma triggerFeedback_length h s profile events :
  length (snd (triggerFeedback h s profile events)) = length events.
Proof.
  unfold triggerFeedback.
  destruct (negb _ && soundRaises h); [reflexivity|].
  destruct (confetti profile) as [cd|]; [|reflexivity].
  destruct (enableConfetti (settings s)); [|reflexivity].
  pose proof (getConfettiOrigin_events h events) as He.
  destruct (getConfettiOrigin h events) as [o ev']. simpl in *.
  rewrite He. apply length_map.
Qed.

(** When no driver raises, [triggerFeedback] returns normally. *)
Lemma triggerFeedback_normal h s profile events :
  soundRaises h = false -> burstRaises h = false ->
  snd (fst (triggerFeedback h s profile events)) = Normal.
Proof.
  intros Hs Hb. unfold triggerFeedback. rewrite Hs, Hb, andb_false_r.
  destruct (confetti profile) as [cd|]; [|reflexivity].
  destruct (enableConfetti (settings s)); [|reflexivity].
  destruct (getConfettiOrigin h events). reflexivity.
Qed.

(** The throttled branch of [processMergedEvents]. *)
Lemma processMergedEvents_throttled h s :
  clock h - lastFeedbackTime s < throttleMs (settings s) ->
  processMergedEvents h s = (set_mergeTimer None (set_taskEventQueue [] s), Throttled).
Proof.
  intros Ht. unfold processMergedEvents.
  destruct (Z.ltb_spec (clock h - lastFeedbackTime s) (throttleMs (settings s)));
    [reflexivity | lia].
Qed.

(** What a run of [processMergedEvents] that reached the drivers leaves. *)
Lemma processMergedEvents_dispatched h s s' n calls c :
  processMergedEvents h s = (s', Dispatched n calls c) ->
  throttleMs (settings s) <= clock h - lastFeedbackTime s
  /\ n = length (taskEventQueue s) /\ (0 < n)%nat
  /\ settings s' = settings s
  /\ match c with
     | Normal =>
         taskEventQueue s' = [] /\ mergeTimer s' = None
         /\ lastFeedbackTime s' = clock h
     | Threw =>
         length (taskEventQueue s') = length (taskEventQueue s)
         /\ mergeTimer s' = mergeTimer s
         /\ lastFeedbackTime s' = lastFeedbackTime s
         /\ (soundRaises h = true \/ burstRaises h = true)
     end.
Proof.
  unfold processMergedEvents.
  destruct (Z.ltb_spec (clock h - lastFeedbackTime s) (throttleMs (settings s)));
    [discriminate|].
  destruct (Nat.eqb_spec (length (taskEventQueue s)) 0); [discriminate|].
  pose proof (triggerFeedback_length h s
                (getFeedbackProfile h s (Z.of_nat (length (taskEventQueue s))))
                (taskEventQueue s)) as Hlen.
  pose proof (triggerFeedback_normal h s
                (getFeedbackProfile h s (Z.of_nat (length (taskEventQueue s))))
                (taskEventQueue s)) as Hnorm.
  destruct (triggerFeedback h s _ _) as [[calls' c'] events']. simpl in Hlen, Hnorm.
  destruct c'; intros [= <- <- <- <-]; (split; [assumption|]);
    (split; [reflexivity|]); (split; [lia|]); (split; [reflexivity|]); simpl.
  - repeat split.
  - repeat split; try assumption.
    destruct (soundRaises h); [left; reflexivity|].
    destruct (burstRaises h); [right; reflexivity|].
    specialize (Hnorm eq_refl eq_refl). discriminate.
Qed.

(** What the two branches that do not reach the drivers leave. *)
Lemma processMergedEvents_not_dispatched h s s' r :
  processMergedEvents h s = (s', r) ->
  match r with Dispatched _ _ _ => False | _ => True end ->
  mergeTimer s' = None /\ lastFeedbackTime s' = lastFeedbackTime s
  /\ settings s' = settings s.
Proof.
  unfold processMergedEvents.
  destruct (_ <? _); [intros [= <- <-]; repeat split|].
  destruct (_ =? _)%nat; [intros [= <- <-]; repeat split|].
  destruct (triggerFeedback h s _ _) as [[calls' c'] events'].
  destruct c'; intros [= <- <-]; contradiction.
Qed.









End Flush.

(** ** The undo-protection ledger *)
Section UndoLedger.

Import Main Vocabulary.
Local Open Scope Z_scope.

(** An entry is in the ledger after [cleanupUndoProtection] exactly when
    it was there before and either the ledger held 100 entries or fewer,
    or the entry is no older than twice the undo window. *)
Lemma cleanupUndoProtection_lookup now s k u :
  undoProtection (cleanupUndoProtection now s) !! k = Some u
  <-> undoProtection s !! k = Some u
      /\ ((size (undoProtection s) <= 100)%nat
          \/ now - u <= undoWindowMs (settings s) * 2).
Proof.
  unfold cleanupUndoProtection.
  destruct (Nat.leb_spec (size (undoProtection s)) 100) as [Hs|Hs].
  - split; [intros H; split; [exact H | left; exact Hs] | intros [H _]; exact H].
  - simpl. rewrite map_lookup_filter_Some. simpl. split.
    + intros [H1 H2]. split; [exact H1 | right; lia].
    + intros [H1 [H2|H2]]; [lia | split; [exact H1 | lia]].
Qed.

Lemma taskStep_cases h f now prev s cur t :
  StepCase h f now prev s t (fst (taskStep h f now prev (s, cur) t))
  /\ snd (taskStep h f now prev (s, cur) t) = <[position_line t := isChecked t]> cur.
Proof.
  unfold taskStep. cbv beta iota zeta.
  destruct (default false (prev !! position_line t)) eqn:Ew,
           (isChecked t) eqn:Ec; cbn [negb andb fst snd].
  - split; [apply StepSame; congruence | reflexivity].
  - split; [apply StepUnchecked; assumption | reflexivity].
  - destruct (undoProtection s !! (f, position_line t)) as [u|] eqn:Eu.
    + unfold truthy.
      destruct (Z.eqb_spec u 0) as [Hz|Hz]; cbn [negb andb].
      * split; [|reflexivity]. apply StepEnqueued; try assumption.
        intros u' Hu'. left. congruence.
      * destruct (Z.ltb_spec (now - u) (undoWindowMs (settings s))) as [Hl|Hl].
        -- split; [|reflexivity]. eapply StepSuppressed; eassumption.
        -- split; [|reflexivity]. apply StepEnqueued; try assumption.
           intros u' Hu'. right. congruence.
    + split; [|reflexivity]. apply StepEnqueued; try assumption.
      intros u' Hu'. congruence.
  - split; [apply StepSame; congruence | reflexivity].
Qed.

Lemma taskStep_unchecked h f now prev s cur t :
  default false (prev !! position_line t) = true -> isChecked t = false ->
  fst (taskStep h f now prev (s, cur) t)
  = set_undoProtection (<[(f, position_line t) := now]> (undoProtection s)) s.
Proof. intros Hw Hc. unfold taskStep. cbv beta iota zeta. rewrite Hw, Hc. reflexivity. Qed.

Lemma taskStep_suppressed h f now prev s cur t u :
  default false (prev !! position_line t) = false -> isChecked t = true ->
  undoProtection s !! (f, position_line t) = Some u ->
  u <> 0 -> now - u < undoWindowMs (settings s) ->
  fst (taskStep h f now prev (s, cur) t) = s.
Proof.
  intros Hw Hc Hu Hnz Hlt. unfold taskStep. cbv beta iota zeta.
  rewrite Hw, Hc, Hu. unfold truthy.
  destruct (Z.eqb_spec u 0); [contradiction|].
  destruct (Z.ltb_spec (now - u) (undoWindowMs (settings s))); [reflexivity | lia].
Qed.

Lemma taskStep_enqueued h f now prev s cur t :
  default false (prev !! position_line t) = false -> isChecked t = true ->
  (forall u, undoProtection s !! (f, position_line t) = Some u ->
             u = 0 \/ undoWindowMs (settings s) <= now - u) ->
  fst (taskStep h f now prev (s, cur) t)
  = queueTaskEvent h (mkEvent f (position_line t) true now None)
                   (cleanupUndoProtection now s).
Proof.
  intros Hw Hc Hu. unfold taskStep. cbv beta iota zeta. rewrite Hw, Hc.
  destruct (undoProtection s !! (f, position_line t)) as [u|]; [|reflexivity].
  unfold truthy. destruct (Hu u eq_refl) as [Hz|Hge].
  - destruct (Z.eqb_spec u 0); [reflexivity | contradiction].
  - destruct (Z.ltb_spec (now - u) (undoWindowMs (settings s))); [lia|].
    rewrite andb_false_r. reflexivity.
Qed.

(** C5, as the code has it.  An uncheck only inserts into the ledger and
    evicts nothing.  Eviction is done by [cleanupUndoProtection], which
    runs when a check that is not suppressed is about to be enqueued: it
    keeps every entry while the ledger holds 100 entries or fewer, and
    above that keeps exactly the entries no older than twice the undo
    window. *)
Theorem ledger_eviction_policy h f now prev s cur t :
  let s' := fst (taskStep h f now prev (s, cur) t) in
  let key : Key := (f, position_line t) in
  (default false (prev !! position_line t) = true -> isChecked t = false ->
   undoProtection s' = <[key := now]> (undoProtection s))
  /\ (default false (prev !! position_line t) = false -> isChecked t = true ->
      (forall u, undoProtection s !! key = Some u ->
                 u = 0 \/ undoWindowMs (settings s) <= now - u) ->
      undoProtection s' = undoProtection (cleanupUndoProtection now s))
  /\ (forall k u,
        undoProtection (cleanupUndoProtection now s) !! k = Some u
        <-> undoProtection s !! k = Some u
            /\ ((size (undoProtection s) <= 100)%nat
                \/ now - u <= undoWindowMs (settings s) * 2)).
Proof.
  intros s' key. unfold s', key. split; [|split].
  - intros Hw Hc. rewrite taskStep_unchecked by assumption. reflexivity.
  - intros Hw Hc Hu. rewrite taskStep_enqueued by assumption.
    apply queueTaskEvent_undoProtection.
  - intros k u. apply cleanupUndoProtection_lookup.
Qed.

(** C5 fails on the code: the ledger holds one entry, 9995 ms old with
    an undo window of 1000 ms.  It is still there after an uncheck of
    another line is inserted, and still there after a check is enqueued. *)
Lemma stale_entry_survives_inserts :
  let stale : Key := ("todo.md"%string, 1) in
  let s := set_undoProtection {[ stale := 5 ]} (initial DEFAULT_SETTINGS) in
  let h := mkHost 10000 false None false false in
  let prev : gmap Z bool := {[ 2 := true ]} in
  let s1 := fst (taskStep h "todo.md" 10000 prev (s, ∅) (mkItem (Some " "%string) 2)) in
  let s2 := fst (taskStep h "todo.md" 10000 prev (s1, ∅) (mkItem (Some "x"%string) 3)) in
  undoProtection s1 !! ("todo.md"%string, 2) = Some 10000
  /\ undoProtection s1 !! stale = Some 5
  /\ length (taskEventQueue s2) = 1%nat
  /\ undoProtection s2 !! stale = Some 5
  /\ 10000 - 5 > undoWindowMs (settings s) * 2.
Proof. vm_compute. repeat split. Qed.

(** *** One key's view of the loop *)

Lemma cleanupUndoProtection_entry now s k :
  keptOrEvicted (undoWindowMs (settings s)) now
    (undoProtection s !! k) (undoProtection (cleanupUndoProtection now s) !! k).
Proof.
  unfold keptOrEvicted.
  destruct (undoProtection (cleanupUndoProtection now s) !! k) as [u'|] eqn:E.
  - apply cleanupUndoProtection_lookup in E. left. symmetry. tauto.
  - destruct (undoProtection s !! k) as [u|] eqn:E0; [|left; reflexivity].
    destruct (Z_le_gt_dec (now - u) (undoWindowMs (settings s) * 2)) as [Hle|Hgt].
    + assert (undoProtection (cleanupUndoProtection now s) !! k = Some u) as E1
        by (apply cleanupUndoProtection_lookup; tauto).
      congruence.
    + right. split; [reflexivity|]. exists u. split; [reflexivity | lia].
Qed.

Lemma eventsFor_app k q1 q2 : eventsFor k (q1 ++ q2) = eventsFor k q1 ++ eventsFor k q2.
Proof. unfold eventsFor. apply List.filter_app. Qed.

Lemma eventsFor_other k e : keyOf e <> k -> eventsFor k [e] = [].
Proof.
  intros Hk. unfold eventsFor. simpl. rewrite bool_decide_eq_false_2 by exact Hk.
  reflexivity.
Qed.

Lemma enqueued_key h e s :
  keyOf (List.last (taskEventQueue (queueTaskEvent h e s)) e) = keyOf e.
Proof. rewrite queueTaskEvent_queue, List.last_last. reflexivity. Qed.

(** One step appends at most one event, of the step's own key, checked
    and stamped [now]. *)
Lemma taskStep_queue h f now prev s cur t :
  exists extra,
    taskEventQueue (fst (taskStep h f now prev (s, cur) t)) = taskEventQueue s ++ extra
    /\ Forall (fun e => keyOf e = (f, position_line t) /\ checked e = true
                        /\ timestamp e = now) extra.
Proof.
  destruct (taskStep_cases h f now prev s cur t) as [Hc _].
  remember (fst (taskStep h f now prev (s, cur) t)) as s1 eqn:Es1. clear Es1.
  destruct Hc.
  - exists []. rewrite app_nil_r. split; [reflexivity | constructor].
  - eexists. rewrite queueTaskEvent_queue, cleanupUndoProtection_queue.
    split; [reflexivity|]. constructor; [|constructor]. repeat split.
  - exists []. rewrite app_nil_r. split; [reflexivity | constructor].
  - exists []. rewrite app_nil_r. split; [reflexivity | constructor].
Qed.

Section OneKey.

Variables (f : string) (l : Z).

(** While the uncheck of the key recorded at [tu] is less than twice the
    window old, a step keeps that record; it appends no event of the key
    when, in the key's own document, the line was unchecked before and
    the record is less than one window old. *)
Lemma taskStep_keeps_record h f' now prev s cur t tu :
  undoProtection s !! (f, l) = Some tu ->
  now - tu <= undoWindowMs (settings s) * 2 ->
  (f' = f -> default false (prev !! l) = false /\ tu <> 0
             /\ now - tu < undoWindowMs (settings s)) ->
  undoProtection (fst (taskStep h f' now prev (s, cur) t)) !! (f, l) = Some tu
  /\ eventsFor (f, l) (taskEventQueue (fst (taskStep h f' now prev (s, cur) t)))
     = eventsFor (f, l) (taskEventQueue s).
Proof.
  intros Hu H2 Hown.
  destruct (taskStep_cases h f' now prev s cur t) as [Hc _].
  remember (fst (taskStep h f' now prev (s, cur) t)) as s1 eqn:Es1. clear Es1.
  destruct Hc as [u Hw Hc Hlk Hnz Hlt | Hw Hc Hns | Hw Hc | Hw].
  - split; [assumption | reflexivity].
  - assert (Hne : (f', position_line t) <> (f, l)).
    { intros [= -> Hl]. rewrite Hl in Hns.
      destruct (Hown eq_refl) as (_ & Hnz & Hlt).
      destruct (Hns tu Hu); [contradiction | lia]. }
    split.
    + rewrite queueTaskEvent_undoProtection.
      destruct (cleanupUndoProtection_entry now s (f, l)) as [Hk|[_ (u & Hb & Hold)]].
      * congruence.
      * rewrite Hu in Hb. injection Hb as <-. lia.
    + rewrite queueTaskEvent_queue, cleanupUndoProtection_queue, eventsFor_app.
      rewrite eventsFor_other by exact Hne. apply app_nil_r.
  - assert (Hne : (f', position_line t) <> (f, l)).
    { intros [= -> Hl]. rewrite Hl in Hw.
      destruct (Hown eq_refl) as (Hw' & _). congruence. }
    split; [|reflexivity]. simpl. rewrite lookup_insert_ne by exact Hne. exact Hu.
  - split; [assumption | reflexivity].
Qed.

Lemma fold_keeps_record h f' now prev tu tasks : forall s cur,
  undoProtection s !! (f, l) = Some tu ->
  now - tu <= undoWindowMs (settings s) * 2 ->
  (f' = f -> default false (prev !! l) = false /\ tu <> 0
             /\ now - tu < undoWindowMs (settings s)) ->
  undoProtection (fst (fold_left (taskStep h f' now prev) tasks (s, cur))) !! (f, l)
  = Some tu
  /\ eventsFor (f, l)
       (taskEventQueue (fst (fold_left (taskStep h f' now prev) tasks (s, cur))))
     = eventsFor (f, l) (taskEventQueue s).
Proof.
  induction tasks as [|t tasks IH]; intros s cur Hu H2 Hown; simpl.
  - split; [assumption | reflexivity].
  - pose proof (taskStep_keeps_record h f' now prev s cur t tu Hu H2 Hown) as [K1 K2].
    pose proof (taskStep_settings h f' now prev (s, cur) t) as Kset.
    destruct (taskStep h f' now prev (s, cur) t) as [s1 cur1]. simpl in *.
    rewrite <- Kset in H2, Hown.
    destruct (IH s1 cur1 K1 H2 Hown) as [I1 I2].
    split; [exact I1 | congruence].
Qed.

(** A whole snapshot keeps the record under the same conditions. *)
Lemma handleTaskMetadataChange_keeps_record h f' cache s tu :
  undoProtection s !! (f, l) = Some tu ->
  clock h - tu <= undoWindowMs (settings s) * 2 ->
  (f' = f -> forall prev, taskStates s !! f = Some prev ->
     default false (prev !! l) = false /\ tu <> 0
     /\ clock h - tu < undoWindowMs (settings s)) ->
  undoProtection (handleTaskMetadataChange h f' cache s) !! (f, l) = Some tu
  /\ eventsFor (f, l) (taskEventQueue (handleTaskMetadataChange h f' cache s))
     = eventsFor (f, l) (taskEventQueue s).
Proof.
  intros Hu H2 Hown. unfold handleTaskMetadataChange.
  destruct cache as [items|]; [|split; [assumption | reflexivity]].
  destruct (taskStates s !! f') as [prev|] eqn:Ep; [|split; [assumption | reflexivity]].
  assert (Hown' : f' = f -> default false (prev !! l) = false /\ tu <> 0
                            /\ clock h - tu < undoWindowMs (settings s)).
  { intros ->. apply Hown; [reflexivity | exact Ep]. }
  pose proof (fold_keeps_record h f' (clock h) prev tu (List.filter isTask items)
                s ∅ Hu H2 Hown') as Hf.
  destruct (fold_left _ _ _) as [s' cur']. exact Hf.
Qed.

(** A step either leaves the record of the key, or evicts it, or (on an
    uncheck of that very line) sets it to [now]. *)
Lemma taskStep_entry h f' now prev s cur t :
  keptOrEvicted (undoWindowMs (settings s)) now
    (undoProtection s !! (f, l))
    (undoProtection (fst (taskStep h f' now prev (s, cur) t)) !! (f, l))
  \/ (f' = f /\ position_line t = l /\ default false (prev !! l) = true
      /\ isChecked t = false
      /\ undoProtection (fst (taskStep h f' now prev (s, cur) t)) !! (f, l) = Some now).
Proof.
  destruct (taskStep_cases h f' now prev s cur t) as [Hc _].
  remember (fst (taskStep h f' now prev (s, cur) t)) as s1 eqn:Es1. clear Es1.
  destruct Hc as [u Hw Hc Hlk Hnz Hlt | Hw Hc Hns | Hw Hc | Hw].
  - left. left. reflexivity.
  - left. rewrite queueTaskEvent_undoProtection. apply cleanupUndoProtection_entry.
  - simpl. destruct (decide ((f', position_line t) = (f, l))) as [[= -> Hl]|Hne].
    + right. rewrite <- Hl. rewrite lookup_insert_eq. tauto.
    + left. left. apply lookup_insert_ne. exact Hne.
  - left. left. reflexivity.
Qed.

Lemma fold_entry_shrinks h f' now prev tasks : forall s cur,
  (f' = f -> default false (prev !! l) = false) ->
  let s' := fst (fold_left (taskStep h f' now prev) tasks (s, cur)) in
  undoProtection s' !! (f, l) = undoProtection s !! (f, l)
  \/ undoProtection s' !! (f, l) = None.
Proof.
  induction tasks as [|t tasks IH]; intros s cur Hown; simpl.
  - left. reflexivity.
  - pose proof (taskStep_entry h f' now prev s cur t) as Hs.
    destruct (taskStep h f' now prev (s, cur) t) as [s1 cur1]. simpl in Hs.
    specialize (IH s1 cur1 Hown). simpl in IH.
    destruct Hs as [[Hk|[Hn _]]|(Hf & _ & Hw & _)].
    + rewrite <- Hk. exact IH.
    + right. destruct IH as [IH|IH]; congruence.
    + specialize (Hown Hf). congruence.
Qed.

Lemma handleTaskMetadataChange_entry_shrinks h f' cache s :
  (f' = f -> forall prev, taskStates s !! f = Some prev ->
             default false (prev !! l) = false) ->
  undoProtection (handleTaskMetadataChange h f' cache s) !! (f, l)
  = undoProtection s !! (f, l)
  \/ undoProtection (handleTaskMetadataChange h f' cache s) !! (f, l) = None.
Proof.
  intros Hown. unfold handleTaskMetadataChange.
  destruct cache as [items|]; [|left; reflexivity].
  destruct (taskStates s !! f') as [prev|] eqn:Ep; [|left; reflexivity].
  assert (Hown' : f' = f -> default false (prev !! l) = false).
  { intros ->. apply Hown; [reflexivity | exact Ep]. }
  pose proof (fold_entry_shrinks h f' (clock h) prev (List.filter isTask items)
                s ∅ Hown') as Hf.
  destruct (fold_left _ _ _) as [s' cur']. exact Hf.
Qed.

(** The state tracked for the document after a snapshot of it. *)
Lemma fold_current h now prev tasks : forall s cur,
  snd (fold_left (taskStep h f now prev) tasks (s, cur))
  = fold_left (fun c t => <[position_line t := isChecked t]> c) tasks cur.
Proof.
  induction tasks as [|t tasks IH]; intros s cur; simpl; [reflexivity|].
  pose proof (taskStep_cases h f now prev s cur t) as [_ Hc].
  destruct (taskStep h f now prev (s, cur) t) as [s1 cur1]. simpl in Hc.
  rewrite IH, Hc. reflexivity.
Qed.

Lemma handleTaskMetadataChange_tracked h items s prev :
  taskStates s !! f = Some prev ->
  taskStates (handleTaskMetadataChange h f (Some items) s) !! f
  = Some (fold_left (fun c t => <[position_line t := isChecked t]> c)
                    (List.filter isTask items) ∅).
Proof.
  intros Hp. unfold handleTaskMetadataChange. rewrite Hp.
  pose proof (fold_current h (clock h) prev (List.filter isTask items) s ∅) as Hcur.
  destruct (fold_left _ _ _) as [s' cur']. simpl in *.
  rewrite lookup_insert_eq, Hcur. reflexivity.
Qed.

Lemma current_stays_unchecked tasks : forall cur : gmap Z bool,
  (forall t, In t tasks -> position_line t = l -> isChecked t = false) ->
  default false (cur !! l) = false ->
  default false
    (fold_left (fun c t => <[position_line t := isChecked t]> c) tasks cur !! l)
  = false.
Proof.
  induction tasks as [|t tasks IH]; intros cur Hall Hc; simpl; [exact Hc|].
  apply IH; [intros t' Ht'; apply Hall; right; exact Ht'|].
  destruct (decide (position_line t = l)) as [Hl|Hl].
  - rewrite Hl, lookup_insert_eq. simpl. apply Hall; [left; reflexivity | exact Hl].
  - rewrite lookup_insert_ne by exact Hl. exact Hc.
Qed.

(** What an input that leaves the line unchecked does to the document
    and to the record of the key. *)
Lemma step_quiet h i s cur :
  quietFor f l i ->
  taskStates s !! f = Some cur -> default false (cur !! l) = false ->
  settings (fst (step h i s)) = settings s
  /\ (exists cur', taskStates (fst (step h i s)) !! f = Some cur'
                   /\ default false (cur' !! l) = false)
  /\ (undoProtection (fst (step h i s)) !! (f, l) = undoProtection s !! (f, l)
      \/ undoProtection (fst (step h i s)) !! (f, l) = None)
  /\ (forall tu, undoProtection s !! (f, l) = Some tu ->
                 tu <> 0 -> 0 <= undoWindowMs (settings s) ->
                 clock h - tu < undoWindowMs (settings s) ->
                 undoProtection (fst (step h i s)) !! (f, l) = Some tu).
Proof.
  intros Hi Hp Hc. destruct i as [f' cache|a ln r|tid]; simpl in *.
  - split; [apply handleTaskMetadataChange_settings|].
    destruct (decide (f' = f)) as [->|Hne].
    + destruct (Hi eq_refl) as (items & -> & Hall).
      split; [|split].
      * eexists. split; [apply (handleTaskMetadataChange_tracked h items s cur Hp)|].
        apply current_stays_unchecked; [|reflexivity].
        intros t Ht. apply List.filter_In in Ht. destruct Ht. apply Hall; assumption.
      * apply handleTaskMetadataChange_entry_shrinks.
        intros _ prev Hprev. congruence.
      * intros tu Hu Hnz Hw Hlt.
        apply handleTaskMetadataChange_keeps_record; [exact Hu | lia |].
        intros _ prev Hprev. rewrite Hp in Hprev. injection Hprev as <-. auto.
    + split; [|split].
      * exists cur. split; [|exact Hc].
        rewrite handleTaskMetadataChange_taskStates_other by exact Hne. exact Hp.
      * apply handleTaskMetadataChange_entry_shrinks. intros; contradiction.
      * intros tu Hu Hnz Hw Hlt.
        apply handleTaskMetadataChange_keeps_record; [exact Hu | lia |].
        intros; contradiction.
  - destruct a, ln; simpl; eauto 10.
  - destruct (find _ _) as [t|]; [|simpl; eauto 10].
    destruct (isDue (clock h) t); [|simpl; eauto 10].
    unfold fireTimeout.
    pose proof (processMergedEvents_ledger h (clearTimeout tid s)) as [L1 L2].
    destruct (processMergedEvents h (clearTimeout tid s)) as [s' r] eqn:E. simpl in *.
    assert (Hset : settings s' = settings s).
    { destruct r as [| |n calls c].
      - apply processMergedEvents_not_dispatched in E; [tauto | exact I].
      - apply processMergedEvents_not_dispatched in E; [tauto | exact I].
      - apply processMergedEvents_dispatched in E. tauto. }
    rewrite L1, L2. eauto 10.
Qed.

(** The same along a run of such inputs, when every input arrives no
    later than [bound]. *)
Lemma run_quiet inputs : forall s cur,
  Forall (fun hi => quietFor f l (snd hi)) inputs ->
  taskStates s !! f = Some cur -> default false (cur !! l) = false ->
  settings (fst (run inputs s)) = settings s
  /\ (exists cur', taskStates (fst (run inputs s)) !! f = Some cur'
                   /\ default false (cur' !! l) = false)
  /\ (undoProtection (fst (run inputs s)) !! (f, l) = undoProtection s !! (f, l)
      \/ undoProtection (fst (run inputs s)) !! (f, l) = None)
  /\ (forall tu bound,
        undoProtection s !! (f, l) = Some tu ->
        tu <> 0 -> 0 <= undoWindowMs (settings s) ->
        Forall (fun hi => clock (fst hi) <= bound) inputs ->
        bound - tu < undoWindowMs (settings s) ->
        undoProtection (fst (run inputs s)) !! (f, l) = Some tu).
Proof.
  induction inputs as [|[h i] rest IH]; intros s cur Hall Hp Hc; simpl.
  - split; [reflexivity|]. split; [exists cur; auto|]. split; auto.
  - inversion Hall as [|? ? Hi Hrest]; subst. simpl in Hi.
    pose proof (step_quiet h i s cur Hi Hp Hc) as (S1 & (cur1 & S2 & S2') & S3 & S4).
    destruct (step h i s) as [s1 log1]. simpl in *.
    specialize (IH s1 cur1 Hrest S2 S2'). destruct (run rest s1) as [s2 log2].
    simpl in *. destruct IH as (I1 & I2 & I3 & I4).
    split; [congruence|]. split; [exact I2|]. split.
    + destruct S3 as [S3|S3], I3 as [I3|I3]; try (right; congruence).
      left. congruence.
    + intros tu bound Hu Hnz Hw Hb Hlt.
      inversion Hb as [|? ? Hb1 Hb2]; subst. simpl in Hb1.
      apply (I4 tu bound); [|exact Hnz|rewrite S1; exact Hw|exact Hb2
                            |rewrite S1; exact Hlt].
      apply S4; [exact Hu | exact Hnz | exact Hw | lia].
Qed.

(** *** The uncheck snapshot *)

Lemma current_lookup (b : bool) tasks : forall cur : gmap Z bool,
  (forall t, In t tasks -> position_line t = l -> isChecked t = b) ->
  (exists t, In t tasks /\ position_line t = l) \/ cur !! l = Some b ->
  fold_left (fun c t => <[position_line t := isChecked t]> c) tasks cur !! l = Some b.
Proof.
  induction tasks as [|t tasks IH]; intros cur Hall Hex; simpl.
  - destruct Hex as [(t & [] & _)|Hc]. exact Hc.
  - apply IH; [intros t' Ht'; apply Hall; right; exact Ht'|].
    destruct (decide (position_line t = l)) as [Hl|Hl].
    + right. rewrite Hl, lookup_insert_eq. f_equal.
      apply Hall; [left; reflexivity | exact Hl].
    + destruct Hex as [(t' & [<-|Ht'] & Hl')|Hc].
      * contradiction.
      * left. exists t'. split; assumption.
      * right. rewrite lookup_insert_ne by exact Hl. exact Hc.
Qed.

Lemma fold_records_uncheck h now prev tasks : forall s cur,
  0 <= undoWindowMs (settings s) ->
  default false (prev !! l) = true ->
  (forall t, In t tasks -> position_line t = l -> isChecked t = false) ->
  (exists t, In t tasks /\ position_line t = l)
  \/ undoProtection s !! (f, l) = Some now ->
  undoProtection (fst (fold_left (taskStep h f now prev) tasks (s, cur))) !! (f, l)
  = Some now.
Proof.
  induction tasks as [|t tasks IH]; intros s cur Hw Hp Hall Hex; simpl.
  - destruct Hex as [(t & [] & _)|Hc]. exact Hc.
  - pose proof (taskStep_entry h f now prev s cur t) as He.
    pose proof (taskStep_settings h f now prev (s, cur) t) as Hset.
    pose proof (taskStep_unchecked h f now prev s cur t) as Hun.
    destruct (taskStep h f now prev (s, cur) t) as [s1 cur1]. simpl in *.
    apply IH; [rewrite Hset; exact Hw | exact Hp | intros t' Ht'; apply Hall; right; exact Ht' |].
    destruct (decide (position_line t = l)) as [Hl|Hl].
    + right. rewrite Hun.
      * simpl. rewrite Hl. apply lookup_insert_eq.
      * rewrite Hl. exact Hp.
      * apply Hall; [left; reflexivity | exact Hl].
    + destruct Hex as [(t' & [<-|Ht'] & Hl')|Hc].
      * contradiction.
      * left. exists t'. split; assumption.
      * right. destruct He as [[Hk|[_ (u & Hb & Hold)]]|(_ & _ & _ & _ & Hn)].
        -- congruence.
        -- rewrite Hc in Hb. injection Hb as <-. lia.
        -- exact Hn.
Qed.

(** A snapshot in which a line checked before shows unchecked records
    the time of the snapshot under the key and tracks the line as
    unchecked. *)
Lemma uncheck_snapshot h items s prev :
  0 <= undoWindowMs (settings s) ->
  taskStates s !! f = Some prev -> prev !! l = Some true ->
  (exists t, In t items /\ isTask t = true /\ position_line t = l) ->
  (forall t, In t items -> isTask t = true -> position_line t = l ->
             isChecked t = false) ->
  let s1 := handleTaskMetadataChange h f (Some items) s in
  settings s1 = settings s
  /\ undoProtection s1 !! (f, l) = Some (clock h)
  /\ exists cur, taskStates s1 !! f = Some cur /\ cur !! l = Some false.
Proof.
  intros Hw Hp Hl (t0 & Hin0 & Htask0 & Hl0) Hall s1.
  split; [apply handleTaskMetadataChange_settings|].
  unfold s1, handleTaskMetadataChange. rewrite Hp.
  assert (Hex : exists t, In t (List.filter isTask items) /\ position_line t = l).
  { exists t0. split; [apply List.filter_In; split; assumption | exact Hl0]. }
  assert (Hall' : forall t, In t (List.filter isTask items) -> position_line t = l ->
                            isChecked t = false).
  { intros t Ht. apply List.filter_In in Ht. destruct Ht. apply Hall; assumption. }
  assert (Hd : default false (prev !! l) = true) by (rewrite Hl; reflexivity).
  pose proof (fold_records_uncheck h (clock h) prev (List.filter isTask items) s ∅
                Hw Hd Hall' (or_introl Hex)) as Hrec.
  pose proof (fold_current h (clock h) prev (List.filter isTask items) s ∅) as Hcur.
  destruct (fold_left _ _ _) as [s' cur']. simpl in *.
  split; [exact Hrec|].
  exists cur'. split; [apply lookup_insert_eq|].
  rewrite Hcur. apply current_lookup; [exact Hall' | left; exact Hex].
Qed.

(** *** The check snapshot *)

Lemma fold_queue_extends h f' now prev tasks : forall s cur,
  exists extra,
    taskEventQueue (fst (fold_left (taskStep h f' now prev) tasks (s, cur)))
    = taskEventQueue s ++ extra.
Proof.
  induction tasks as [|t tasks IH]; intros s cur; simpl.
  - exists []. symmetry. apply app_nil_r.
  - pose proof (taskStep_queue h f' now prev s cur t) as (x1 & Hx1 & _).
    destruct (taskStep h f' now prev (s, cur) t) as [s1 cur1]. simpl in Hx1.
    destruct (IH s1 cur1) as (x2 & Hx2).
    exists (x1 ++ x2). rewrite Hx2, Hx1. symmetry. apply app_assoc.
Qed.

(** When the line was unchecked before and no record of its key is
    younger than the undo window, a snapshot that shows the line checked
    appends an event of the key. *)
Lemma fold_enqueues h now prev tasks : forall s cur,
  default false (prev !! l) = false ->
  (forall u, undoProtection s !! (f, l) = Some u ->
             u = 0 \/ undoWindowMs (settings s) <= now - u) ->
  (exists t, In t tasks /\ position_line t = l /\ isChecked t = true) ->
  exists q1 e q2,
    taskEventQueue (fst (fold_left (taskStep h f now prev) tasks (s, cur)))
    = taskEventQueue s ++ q1 ++ e :: q2
    /\ keyOf e = (f, l) /\ checked e = true /\ timestamp e = now.
Proof.
  induction tasks as [|t tasks IH]; intros s cur Hp Hns (t0 & Hin & Hl0 & Hc0).
  - destruct Hin.
  - simpl.
    pose proof (taskStep_entry h f now prev s cur t) as He.
    pose proof (taskStep_settings h f now prev (s, cur) t) as Hset.
    pose proof (taskStep_queue h f now prev s cur t) as (x1 & Hx1 & _).
    pose proof (taskStep_enqueued h f now prev s cur t) as Henq.
    destruct (taskStep h f now prev (s, cur) t) as [s1 cur1]. simpl in *.
    destruct Hin as [<-|Hin].
    + rewrite Hl0 in Henq. specialize (Henq Hp Hc0 Hns). subst s1.
      destruct (fold_queue_extends h f now prev tasks
                  (queueTaskEvent h (mkEvent f l true now None)
                     (cleanupUndoProtection now s)) cur1) as (x2 & Hx2).
      rewrite Hx2, queueTaskEvent_queue, cleanupUndoProtection_queue.
      exists [], (mkEvent f l true now
                    (orElse (cachedCoords (clock h)
                               (recentTaskCoordinates (cleanupUndoProtection now s)
                                  !! keyOf (mkEvent f l true now None)))
                       (orElse None (computeTaskCoordinates h f l)))), x2.
      simpl. rewrite <- app_assoc. repeat split.
    + assert (Hns1 : forall u, undoProtection s1 !! (f, l) = Some u ->
                               u = 0 \/ undoWindowMs (settings s1) <= now - u).
      { rewrite Hset. intros u Hu.
        destruct He as [[Hk|[Hn _]]|(_ & _ & Hw & _)].
        - apply Hns. congruence.
        - congruence.
        - congruence. }
      destruct (IH s1 cur1 Hp Hns1) as (q1 & e & q2 & Hq & Hk & Hc & Ht).
      { exists t0. tauto. }
      exists (x1 ++ q1), e, q2. rewrite Hq, Hx1, <- !app_assoc. repeat split; assumption.
Qed.

End OneKey.

(** C2. Take any state in which a line of a tracked document is
    checked.  A snapshot at [h1] shows the line unchecked; then any
    inputs arrive, none later than [h2], that keep the document tracked
    and do not show the line checked; then a snapshot at [h2] shows the
    line checked again.  If [h2] is less than [undoWindowMs] after [h1],
    the second snapshot appends no event of the line's key to the pending
    batch; if it is more than [undoWindowMs] after, it appends one. *)
Theorem undo_window_suppression f l h1 itemsA mid h2 itemsB s prev :
  0 <= undoWindowMs (settings s) ->
  clock h1 <> 0 ->
  taskStates s !! f = Some prev -> prev !! l = Some true ->
  (exists t, In t itemsA /\ isTask t = true /\ position_line t = l) ->
  (forall t, In t itemsA -> isTask t = true -> position_line t = l ->
             isChecked t = false) ->
  Forall (fun hi => quietFor f l (snd hi) /\ clock (fst hi) <= clock h2) mid ->
  (exists t, In t itemsB /\ isTask t = true /\ position_line t = l
             /\ isChecked t = true) ->
  let s1 := handleTaskMetadataChange h1 f (Some itemsA) s in
  let s2 := fst (run mid s1) in
  let s3 := handleTaskMetadataChange h2 f (Some itemsB) s2 in
  (clock h2 - clock h1 < undoWindowMs (settings s) ->
   eventsFor (f, l) (taskEventQueue s3) = eventsFor (f, l) (taskEventQueue s2))
  /\ (undoWindowMs (settings s) < clock h2 - clock h1 ->
      exists q1 e q2,
        taskEventQueue s3 = taskEventQueue s2 ++ q1 ++ e :: q2
        /\ keyOf e = (f, l) /\ checked e = true /\ timestamp e = clock h2).
Proof.
  intros Hw Hnz Hp Hl HexA HallA Hmid (tB & HinB & HtaskB & HlB & HcB) s1 s2 s3.
  destruct (uncheck_snapshot f l h1 itemsA s prev Hw Hp Hl HexA HallA)
    as (Set1 & Rec1 & curA & St1 & Cur1).
  fold s1 in Set1, Rec1, St1.
  assert (Hmid1 : Forall (fun hi => quietFor f l (snd hi)) mid)
    by (eapply List.Forall_impl; [|exact Hmid]; simpl; tauto).
  assert (Hmid2 : Forall (fun hi => clock (fst hi) <= clock h2) mid)
    by (eapply List.Forall_impl; [|exact Hmid]; simpl; tauto).
  assert (HdA : default false (curA !! l) = false) by (rewrite Cur1; reflexivity).
  destruct (run_quiet f l mid s1 curA Hmid1 St1 HdA)
    as (Set2 & (cur2 & St2 & Hd) & Rec2 & Keep2).
  fold s2 in Set2, St2, Rec2, Keep2.
  split.
  - intros Hlt.
    assert (R2 : undoProtection s2 !! (f, l) = Some (clock h1)).
    { apply (Keep2 (clock h1) (clock h2));
        [exact Rec1 | exact Hnz | rewrite Set1; exact Hw | exact Hmid2
         | rewrite Set1; lia]. }
    apply (handleTaskMetadataChange_keeps_record f l h2 f (Some itemsB) s2 (clock h1));
      [exact R2 | rewrite Set2, Set1; lia |].
    intros _ prev' Hprev'. rewrite St2 in Hprev'. injection Hprev' as <-.
    rewrite Set2, Set1. auto.
  - intros Hgt. unfold s3, handleTaskMetadataChange. rewrite St2.
    assert (Hns : forall u, undoProtection s2 !! (f, l) = Some u ->
                            u = 0 \/ undoWindowMs (settings s2) <= clock h2 - u).
    { intros u Hu. right. rewrite Set2, Set1.
      destruct Rec2 as [R|R]; [|congruence].
      rewrite R, Rec1 in Hu. injection Hu as <-. lia. }
    destruct (fold_enqueues f l h2 (clock h2) cur2 (List.filter isTask itemsB) s2 ∅
                Hd Hns) as (q1 & e & q2 & Hq & He).
    { exists tB. split; [apply List.filter_In; tauto | tauto]. }
    destruct (fold_left _ _ _) as [s' cur']. simpl in *.
    exists q1, e, q2. tauto.
Qed.

End UndoLedger.

(** ** The merge timer *)
Section MergeTimer.

Import Main Vocabulary.
Local Open Scope Z_scope.

Lemma initial_timerInv st : timerInv (initial st).
Proof.
  unfold timerInv, initial. simpl. split; [lia|]. split; [|split].
  - discriminate.
  - intros t [].
  - lia.
Qed.

Lemma filter_all_out (id : Z) (ts : list (Z * Z)) :
  (forall t, In t ts -> fst t = id) ->
  List.filter (fun t => negb (fst t =? id)) ts = [].
Proof.
  induction ts as [|t ts IH]; intros Hall; simpl; [reflexivity|].
  rewrite (Hall t (or_introl eq_refl)), Z.eqb_refl. simpl.
  apply IH. intros t' Ht'. apply Hall. right. exact Ht'.
Qed.

(** Under the timer discipline an enqueue leaves exactly one pending
    timeout: the new one, due [mergeWindowMs] after the enqueue. *)
Lemma queueTaskEvent_timer h e s :
  timerInv s ->
  pendingTimeouts (queueTaskEvent h e s)
  = [(nextHandle s, clock h + Z.max 0 (mergeWindowMs (settings s)))]
  /\ mergeTimer (queueTaskEvent h e s) = Some (nextHandle s)
  /\ nextHandle (queueTaskEvent h e s) = nextHandle s + 1.
Proof.
  intros (Hn & Hm & Hp & Hlen). unfold queueTaskEvent. simpl.
  destruct (mergeTimer s) as [id|] eqn:Em.
  - destruct (Hm id eq_refl) as [Hpos _].
    unfold truthy. destruct (Z.eqb_spec id 0) as [Hz|Hz]; [lia|]. simpl.
    rewrite filter_all_out; [repeat split|].
    intros t Ht. specialize (Hp t Ht). congruence.
  - simpl. destruct (pendingTimeouts s) as [|t ts] eqn:Ep; [repeat split|].
    specialize (Hp t (or_introl eq_refl)). discriminate.
Qed.

Lemma queueTaskEvent_timerInv h e s : timerInv s -> timerInv (queueTaskEvent h e s).
Proof.
  intros Hinv. pose proof Hinv as (Hn & _).
  destruct (queueTaskEvent_timer h e s Hinv) as (Hp & Hm & Hnx).
  unfold timerInv. rewrite Hp, Hm, Hnx. split; [lia|]. split; [|split].
  - intros id [= <-]. lia.
  - intros t [<-|[]]. reflexivity.
  - simpl. lia.
Qed.

Lemma cleanupUndoProtection_timerInv now s :
  timerInv s -> timerInv (cleanupUndoProtection now s).
Proof. unfold cleanupUndoProtection. destruct (_ <=? _)%nat; auto. Qed.

Lemma taskStep_timerInv h f now prev acc t :
  timerInv (fst acc) -> timerInv (fst (taskStep h f now prev acc t)).
Proof.
  destruct acc as [s cur]. simpl. intros Hinv.
  destruct (taskStep_cases h f now prev s cur t) as [Hc _].
  remember (fst (taskStep h f now prev (s, cur) t)) as s1 eqn:Es1. clear Es1.
  destruct Hc; auto.
  apply queueTaskEvent_timerInv, cleanupUndoProtection_timerInv, Hinv.
Qed.

Lemma handleTaskMetadataChange_timerInv h f cache s :
  timerInv s -> timerInv (handleTaskMetadataChange h f cache s).
Proof.
  intros Hinv. unfold handleTaskMetadataChange.
  destruct cache as [items|]; [|exact Hinv].
  destruct (taskStates s !! f) as [prev|]; [|exact Hinv].
  assert (Hf : forall tasks acc, timerInv (fst acc) ->
             timerInv (fst (fold_left (taskStep h f (clock h) prev) tasks acc))).
  { induction tasks as [|t tasks IH]; intros acc Ha; simpl; [exact Ha|].
    apply IH, taskStep_timerInv, Ha. }
  specialize (Hf (List.filter isTask items) (s, ∅) Hinv).
  destruct (fold_left _ _ _) as [s' cur]. exact Hf.
Qed.

(** A flush does not touch the window's timeouts. *)
Lemma processMergedEvents_window h s :
  pendingTimeouts (fst (processMergedEvents h s)) = pendingTimeouts s
  /\ nextHandle (fst (processMergedEvents h s)) = nextHandle s
  /\ (mergeTimer (fst (processMergedEvents h s)) = None
      \/ mergeTimer (fst (processMergedEvents h s)) = mergeTimer s).
Proof.
  unfold processMergedEvents.
  destruct (_ <? _); [simpl; auto|].
  destruct (_ =? _)%nat; [simpl; auto|].
  destruct (triggerFeedback h s _ _) as [[calls c] events'].
  destruct c; simpl; auto.
Qed.

(** Firing the pending timeout keeps the discipline and leaves no
    timeout pending. *)
Lemma fireTimeout_timerInv h id s :
  timerInv s -> In id (List.map fst (pendingTimeouts s)) ->
  timerInv (fst (fireTimeout h id s))
  /\ pendingTimeouts (fst (fireTimeout h id s)) = [].
Proof.
  intros (Hn & Hm & Hp & Hlen) Hin. unfold fireTimeout.
  destruct (processMergedEvents_window h (clearTimeout id s)) as (W1 & W2 & W3).
  assert (Hclear : pendingTimeouts (clearTimeout id s) = []).
  { simpl. apply filter_all_out. intros t Ht.
    apply List.in_map_iff in Hin. destruct Hin as (t' & <- & Ht').
    pose proof (Hp t Ht) as E1. pose proof (Hp t' Ht') as E2. congruence. }
  rewrite Hclear in W1. split; [|exact W1].
  unfold timerInv. rewrite W1, W2. simpl. split; [lia|]. split; [|split].
  - intros id' Hid'. destruct W3 as [W3|W3]; rewrite W3 in Hid'; [discriminate|].
    simpl in Hid'. apply Hm in Hid'. lia.
  - intros t [].
  - lia.
Qed.

Lemma step_timerInv h i s : timerInv s -> timerInv (fst (step h i s)).
Proof.
  intros Hinv. destruct i as [f cache|a l r|id]; simpl.
  - apply handleTaskMetadataChange_timerInv, Hinv.
  - destruct a, l; exact Hinv.
  - destruct (find _ _) as [t|] eqn:Ef; [|exact Hinv].
    destruct (isDue (clock h) t); [|exact Hinv].
    apply List.find_some in Ef. destruct Ef as [Hin Heq].
    apply Z.eqb_eq in Heq.
    pose proof (fireTimeout_timerInv h id s Hinv) as Hfire.
    destruct (fireTimeout h id s) as [s' r]. simpl in *.
    apply Hfire. apply List.in_map_iff. exists t. split; assumption.
Qed.

Lemma run_timerInv inputs : forall s, timerInv s -> timerInv (fst (run inputs s)).
Proof.
  induction inputs as [|[h i] rest IH]; intros s Hinv; simpl; [exact Hinv|].
  pose proof (step_timerInv h i s Hinv) as Hs.
  destruct (step h i s) as [s1 log1]. simpl in Hs.
  specialize (IH s1 Hs). destruct (run rest s1) as [s2 log2]. exact IH.
Qed.

(** *** Debounce *)

Lemma fireDue_none h s :
  (forall t, In t (pendingTimeouts s) -> clock h < snd t) ->
  fireDue h s = (s, []).
Proof.
  intros Hnot. unfold fireDue.
  replace (List.filter (isDue (clock h)) (pendingTimeouts s)) with (@nil (Z * Z));
    [reflexivity|].
  symmetry. induction (pendingTimeouts s) as [|t ts IH]; simpl; [reflexivity|].
  unfold isDue at 1. destruct (Z.leb_spec (snd t) (clock h)) as [Hle|Hgt].
  - specialize (Hnot t (or_introl eq_refl)). lia.
  - apply IH. intros t' Ht'. apply Hnot. right. exact Ht'.
Qed.

Lemma fireDue_single h s id due :
  pendingTimeouts s = [(id, due)] -> due <= clock h ->
  fireDue h s = (fst (fireTimeout h id s), [snd (fireTimeout h id s)]).
Proof.
  intros Hp Hd. unfold fireDue. rewrite Hp. simpl. unfold isDue. simpl.
  destruct (Z.leb_spec due (clock h)); [|lia]. simpl.
  destruct (fireTimeout h id s). reflexivity.
Qed.

(** While arrivals stay close, none of them finds the timeout due: no
    flush runs, the batch grows by one event per arrival, and the single
    pending timeout is re-armed from the last arrival. *)
Lemma arrive_close evs : forall s t0 tid,
  timerInv s ->
  pendingTimeouts s = [(tid, t0 + Z.max 0 (mergeWindowMs (settings s)))] ->
  closeArrivals (mergeWindowMs (settings s)) t0 evs ->
  snd (arrive evs s) = []
  /\ timerInv (fst (arrive evs s))
  /\ settings (fst (arrive evs s)) = settings s
  /\ lastFeedbackTime (fst (arrive evs s)) = lastFeedbackTime s
  /\ List.map keyOf (taskEventQueue (fst (arrive evs s)))
     = List.map keyOf (taskEventQueue s) ++ List.map (fun he => keyOf (snd he)) evs
  /\ exists id',
       pendingTimeouts (fst (arrive evs s))
       = [(id', lastArrival t0 evs + Z.max 0 (mergeWindowMs (settings s)))].
Proof.
  induction evs as [|[h e] rest IH]; intros s t0 tid Hinv Hp Hclose; simpl.
  - rewrite app_nil_r. do 5 (split; [first [reflexivity | assumption]|]).
    exists tid. exact Hp.
  - destruct Hclose as [Hnear Hclose].
    rewrite fireDue_none by (rewrite Hp; intros t [<-|[]]; simpl; lia).
    destruct (queueTaskEvent_timer h e s Hinv) as (Qp & _ & _).
    pose proof (queueTaskEvent_timerInv h e s Hinv) as Qinv.
    pose proof (queueTaskEvent_settings h e s) as Qset.
    pose proof (queueTaskEvent_lastFeedbackTime h e s) as Qlast.
    pose proof (queueTaskEvent_queue h e s) as Qq.
    specialize (IH (queueTaskEvent h e s) (clock h) (nextHandle s) Qinv).
    rewrite Qset in IH. specialize (IH Qp Hclose).
    destruct (arrive rest (queueTaskEvent h e s)) as [s2 log2]. simpl in *.
    destruct IH as (I1 & I2 & I3 & I4 & I5 & I6).
    split; [exact I1|]. split; [exact I2|]. split; [exact I3|].
    split; [congruence|]. split; [|exact I6].
    rewrite I5, Qq, List.map_app, <- app_assoc. reflexivity.
Qed.

(** The calls [triggerFeedback] makes for the profile of
    [getFeedbackProfile], and how it ends. *)
Lemma triggerFeedback_result h s events :
  let st := settings s in
  let soundOn := enableSound st && negb (globalMute st) in
  let confettiOn :=
    enableConfetti st && negb (disableConfetti st) && negb (reducedMotion h) in
  let soundCalls :=
    if soundOn then [PlayRewardSound heavy (soundVolume st)] else [] in
  let burstCalls :=
    if confettiOn
    then [Burst (mkBurst heavy 150 (confettiDuration st)
                         (fst (getConfettiOrigin h events)))]
    else [] in
  fst (triggerFeedback h s (getFeedbackProfile h s (Z.of_nat (length events))) events)
  = if soundOn && soundRaises h then (soundCalls, Threw)
    else (soundCalls ++ burstCalls,
          if confettiOn && burstRaises h then Threw else Normal).
Proof.
  unfold triggerFeedback, getFeedbackProfile, getParticleCount. simpl.
  destruct (globalMute (settings s)), (enableSound (settings s)),
    (reducedMotion h), (disableConfetti (settings s)), (enableConfetti (settings s)),
    (soundRaises h);
    simpl; try reflexivity;
    destruct (getConfettiOrigin h events); destruct (burstRaises h); reflexivity.
Qed.

(** A flush that is not throttled and finds a batch dispatches it whole. *)
Lemma processMergedEvents_dispatches h s :
  throttleMs (settings s) <= clock h - lastFeedbackTime s ->
  taskEventQueue s <> [] ->
  exists calls c,
    fst (triggerFeedback h s
           (getFeedbackProfile h s (Z.of_nat (length (taskEventQueue s))))
           (taskEventQueue s)) = (calls, c)
    /\ snd (processMergedEvents h s) = Dispatched (length (taskEventQueue s)) calls c.
Proof.
  intros Ht Hq. unfold processMergedEvents.
  destruct (Z.ltb_spec (clock h - lastFeedbackTime s) (throttleMs (settings s)));
    [lia|].
  destruct (Nat.eqb_spec (length (taskEventQueue s)) 0) as [Hz|Hz].
  - destruct (taskEventQueue s); [contradiction | discriminate].
  - destruct (triggerFeedback h s _ _) as [[calls c] events'].
    exists calls, c. split; [reflexivity|]. destruct c; reflexivity.
Qed.

(** C3, as the code has it.  Under the timer discipline, which every
    run from the initial plugin keeps, at most one timeout is pending,
    and an enqueue leaves exactly the timeout it starts, due
    [mergeWindowMs] later.  So when N check transitions arrive, each less
    than [mergeWindowMs] after the one before, no flush runs while they
    arrive, and once the window has passed exactly one flush runs, on the
    batch of those N events.  When it runs [throttleMs] or more after the
    recorded time it dispatches with count N: the sound call when sound is
    enabled and not muted, then, unless the sound driver raised, the burst
    of 150 heavy particles at the mean origin of the batch when confetti
    is enabled, not disabled and reduced motion is off.  When it runs
    sooner it is dropped: no call is made and the N events are discarded.
    Either way no timeout is pending afterwards, so no other flush
    follows. *)
Theorem debounce_single_flush h e rest hf s :
  timerInv s -> pendingTimeouts s = [] -> taskEventQueue s = [] ->
  closeArrivals (mergeWindowMs (settings s)) (clock h) rest ->
  lastArrival (clock h) rest + Z.max 0 (mergeWindowMs (settings s)) <= clock hf ->
  let evs := (h, e) :: rest in
  let s1 := fst (arrive evs s) in
  let s2 := fst (fireDue hf s1) in
  let st := settings s in
  let soundOn := enableSound st && negb (globalMute st) in
  let confettiOn :=
    enableConfetti st && negb (disableConfetti st) && negb (reducedMotion hf) in
  let soundCalls :=
    if soundOn then [PlayRewardSound heavy (soundVolume st)] else [] in
  let burstCalls :=
    if confettiOn
    then [Burst (mkBurst heavy 150 (confettiDuration st)
                         (fst (getConfettiOrigin hf (taskEventQueue s1))))]
    else [] in
  snd (arrive evs s) = []
  /\ length (pendingTimeouts s1) = 1%nat
  /\ List.map keyOf (taskEventQueue s1) = List.map (fun he => keyOf (snd he)) evs
  /\ (throttleMs st <= clock hf - lastFeedbackTime s ->
      snd (fireDue hf s1)
      = [if soundOn && soundRaises hf
         then Dispatched (length evs) soundCalls Threw
         else Dispatched (length evs) (soundCalls ++ burstCalls)
                (if confettiOn && burstRaises hf then Threw else Normal)])
  /\ (throttleMs st <= clock hf - lastFeedbackTime s ->
      soundRaises hf = false -> burstRaises hf = false ->
      taskEventQueue s2 = [] /\ lastFeedbackTime s2 = clock hf)
  /\ (clock hf - lastFeedbackTime s < throttleMs st ->
      snd (fireDue hf s1) = [Throttled]
      /\ taskEventQueue s2 = [] /\ lastFeedbackTime s2 = lastFeedbackTime s)
  /\ pendingTimeouts s2 = []
  /\ (forall h', fireDue h' s2 = (s2, []))
  /\ (forall inputs st0,
        (length (pendingTimeouts (fst (run inputs (initial st0)))) <= 1)%nat)
  /\ (forall h0 e0 s0, timerInv s0 ->
        pendingTimeouts (queueTaskEvent h0 e0 s0)
        = [(nextHandle s0, clock h0 + Z.max 0 (mergeWindowMs (settings s0)))]).
Proof.
  intros Hinv Hp Hq Hclose Hlate evs s1 s2 st soundOn confettiOn soundCalls burstCalls.
  assert (Harr : arrive evs s = arrive rest (queueTaskEvent h e s)).
  { unfold evs. simpl. rewrite fireDue_none by (rewrite Hp; intros t []).
    destruct (arrive rest (queueTaskEvent h e s)). reflexivity. }
  destruct (queueTaskEvent_timer h e s Hinv) as (Qp & _ & _).
  pose proof (queueTaskEvent_timerInv h e s Hinv) as Qinv.
  pose proof (queueTaskEvent_settings h e s) as Qset.
  pose proof (queueTaskEvent_lastFeedbackTime h e s) as Qlast.
  pose proof (queueTaskEvent_queue h e s) as Qq. rewrite Hq in Qq. cbn [app] in Qq.
  pose proof (arrive_close rest (queueTaskEvent h e s) (clock h) (nextHandle s) Qinv)
    as Hac.
  rewrite Qset in Hac. specialize (Hac Qp Hclose). rewrite <- Harr in Hac.
  fold s1 in Hac. destruct Hac as (A1 & A2 & A3 & A4 & A5 & tid & A6).
  rewrite Qq in A5. cbn [List.map app] in A5.
  assert (Hlen : length (taskEventQueue s1) = length evs).
  { rewrite <- (length_map keyOf), A5. simpl. rewrite length_map. reflexivity. }
  assert (Hfire : fireDue hf s1
                  = (fst (fireTimeout hf tid s1), [snd (fireTimeout hf tid s1)])).
  { apply (fireDue_single hf s1 tid _ A6). exact Hlate. }
  destruct (fireTimeout_timerInv hf tid s1 A2) as [F1 F2].
  { rewrite A6. left. reflexivity. }
  assert (Hs2 : s2 = fst (fireTimeout hf tid s1)) by (unfold s2; rewrite Hfire; reflexivity).
  assert (Hset : settings (clearTimeout tid s1) = st) by (simpl; exact A3).
  assert (Hlast : lastFeedbackTime (clearTimeout tid s1) = lastFeedbackTime s)
    by (simpl; rewrite A4; exact Qlast).
  assert (Hqueue : taskEventQueue (clearTimeout tid s1) = taskEventQueue s1)
    by reflexivity.
  assert (Hne : taskEventQueue (clearTimeout tid s1) <> []).
  { rewrite Hqueue. intros Hnil. rewrite Hnil in Hlen. discriminate. }
  split; [exact A1|]. split; [rewrite A6; reflexivity|]. split; [exact A5|].
  split; [|split; [|split; [|split; [|split; [|split]]]]].
  - intros Hok. rewrite Hfire. cbn [snd]. unfold fireTimeout. f_equal.
    destruct (processMergedEvents_dispatches hf (clearTimeout tid s1))
      as (calls & c & Htf & Hd); [rewrite Hset, Hlast; exact Hok | exact Hne |].
    rewrite Hd, Hqueue, Hlen.
    pose proof (triggerFeedback_result hf (clearTimeout tid s1)
                  (taskEventQueue (clearTimeout tid s1))) as Hres.
    cbv zeta in Hres. rewrite Htf, Hset, Hqueue in Hres.
    fold soundOn confettiOn soundCalls burstCalls in Hres.
    destruct (soundOn && soundRaises hf); injection Hres as -> ->; reflexivity.
  - intros Hok Hs Hb. rewrite Hs2. unfold fireTimeout.
    destruct (processMergedEvents_dispatches hf (clearTimeout tid s1))
      as (calls & c & _ & Hd); [rewrite Hset, Hlast; exact Hok | exact Hne |].
    destruct (processMergedEvents hf (clearTimeout tid s1)) as [s' r] eqn:E.
    cbn [fst snd] in *. subst r.
    apply processMergedEvents_dispatched in E. destruct E as (_ & _ & _ & _ & E).
    destruct c; [tauto|]. destruct E as (_ & _ & _ & [E|E]); congruence.
  - intros Hth. rewrite Hfire, Hs2. cbn [snd]. unfold fireTimeout.
    rewrite processMergedEvents_throttled by (rewrite Hset, Hlast; exact Hth).
    cbn [fst snd]. split; [reflexivity|]. split; [reflexivity|]. exact Hlast.
  - rewrite Hs2. exact F2.
  - intros h'. apply fireDue_none. rewrite Hs2, F2. intros t [].
  - intros inputs st0.
    pose proof (run_timerInv inputs (initial st0) (initial_timerInv st0)) as Hr.
    unfold timerInv in Hr. tauto.
  - intros h0 e0 s0 H0. apply (queueTaskEvent_timer h0 e0 s0 H0).
Qed.

(** C3 fails on the code when the single flush is throttled.  With a
    merge window of 100 ms and a throttle of 1000 ms, a check at 4900 is
    dispatched at 5000; two checks then arrive at 5200 and 5250, no flush
    runs while they arrive, and the one flush of their batch at 5350
    dispatches nothing: it is dropped and the two events are gone. *)
Lemma throttled_batch_is_not_dispatched :
  let st := mkSettings true true false false (3 # 10) 800 100 1000 1000 in
  let host t := mkHost t false None false false in
  let ev l t := mkEvent "todo.md" l true t None in
  let s := fst (fireDue (host 5000) (fst (arrive [(host 4900, ev 1 4900)] (initial st)))) in
  let evs := [(host 5200, ev 2 5200); (host 5250, ev 3 5250)] in
  let s1 := fst (arrive evs s) in
  lastFeedbackTime s = 5000 /\ taskEventQueue s = [] /\ pendingTimeouts s = []
  /\ snd (arrive evs s) = []
  /\ length (taskEventQueue s1) = 2%nat
  /\ snd (fireDue (host 5350) s1) = [Throttled]
  /\ taskEventQueue (fst (fireDue (host 5350) s1)) = []
  /\ ~ (exists calls c, snd (fireDue (host 5350) s1) = [Dispatched 2 calls c]).
Proof.
  intros st host ev s evs s1.
  assert (Hlog : snd (fireDue (host 5350) s1) = [Throttled]) by (vm_compute; reflexivity).
  split; [vm_compute; reflexivity|]. split; [vm_compute; reflexivity|].
  split; [vm_compute; reflexivity|]. split; [vm_compute; reflexivity|].
  split; [vm_compute; reflexivity|]. split; [exact Hlog|].
  split; [vm_compute; reflexivity|].
  intros (calls & c & H). rewrite Hlog in H. discriminate.
Qed.

End MergeTimer.

(** ** The test buttons *)
Section TestButtons.

Import Main SettingsTab.
Local Open Scope Z_scope.

(** The calls a flush can make: an optional sound call at intensity
    heavy, then an optional burst of 150 heavy particles. *)
Lemma flushPath_shape h s events :
  exists o,
    flushPath h s events
    = (if negb (globalMute (settings s)) && enableSound (settings s)
       then [PlayRewardSound heavy (soundVolume (settings s))] else [])
      ++ (if (negb (globalMute (settings s)) && enableSound (settings s)
              && soundRaises h)
             || reducedMotion h || disableConfetti (settings s)
             || negb (enableConfetti (settings s))
          then []
          else [Burst (mkBurst heavy 150 (confettiDuration (settings s)) o)]).
Proof.
  unfold flushPath, triggerFeedback, getFeedbackProfile, getParticleCount.
  exists (fst (getConfettiOrigin h events)). simpl.
  destruct (globalMute (settings s)), (enableSound (settings s)), (soundRaises h),
    (reducedMotion h), (disableConfetti (settings s)), (enableConfetti (settings s));
    simpl; try reflexivity; destruct (getConfettiOrigin h events); reflexivity.
Qed.

(** C6, as the code has it.  Each test button calls the two drivers
    directly: the sound at intensity light (heavy for the batch button)
    with the configured volume, and a burst of 15 (50) particles of that
    intensity with the configured duration and no origin, whatever the
    mute, enable and reduced-motion gates say.  These are never the calls
    of the profile-and-dispatch path of a flush, whose sound is heavy and
    whose burst has 150 particles. *)
Theorem test_buttons_call_drivers_directly h s events :
  testSingleCompletion s
  = [ PlayRewardSound light (soundVolume (settings s));
      Burst (mkBurst light 15 (confettiDuration (settings s)) None) ]
  /\ testBatchCompletion s
     = [ PlayRewardSound heavy (soundVolume (settings s));
         Burst (mkBurst heavy 50 (confettiDuration (settings s)) None) ]
  /\ flushPath h s events <> testSingleCompletion s
  /\ flushPath h s events <> testBatchCompletion s.
Proof.
  split; [reflexivity|]. split; [reflexivity|].
  destruct (flushPath_shape h s events) as [o ->].
  unfold testSingleCompletion, testBatchCompletion.
  split.
  - destruct (negb (globalMute (settings s)) && enableSound (settings s));
      simpl; destruct (_ || _); simpl; intros H; inversion H.
  - destruct (negb (globalMute (settings s)) && enableSound (settings s));
      simpl; destruct (_ || _); simpl; intros H; inversion H.
Qed.

(** C6 fails on the code: with the default settings the single-test
    button does not make the calls a flush of one event makes, nor the
    batch button those of a flush of five; and with global mute on, the
    button still calls the sound driver while a flush does not. *)
Lemma test_buttons_differ_from_flush :
  let s := initial DEFAULT_SETTINGS in
  let muted := initial (mkSettings true true true false (3 # 10) 800 300 250 1000) in
  let h := mkHost 5000 false None false false in
  let e := mkEvent "todo.md" 3 true 5000 None in
  flushPath h s [e]
  = [ PlayRewardSound heavy (3 # 10); Burst (mkBurst heavy 150 800 None) ]
  /\ testSingleCompletion s
     = [ PlayRewardSound light (3 # 10); Burst (mkBurst light 15 800 None) ]
  /\ testSingleCompletion s <> flushPath h s [e]
  /\ testBatchCompletion s <> flushPath h s [e; e; e; e; e]
  /\ flushPath h muted [e] = [ Burst (mkBurst heavy 150 800 None) ]
  /\ In (PlayRewardSound light (3 # 10)) (testSingleCompletion muted).
Proof.
  vm_compute. repeat split; try discriminate. left. reflexivity.
Qed.

End TestButtons.

(** ** The theorems at concrete inputs *)
Section Instances.

Import Main Vocabulary SettingsTab.
Local Open Scope Z_scope.

(** A viewport of 1000 by 800 and a request at (10, 790): the origin
    used is (40, 760). *)
Lemma burst_origin_clamped_witness :
  let w := Confetti.mkWindow 1000 800 (fun _ => 1 # 2) in
  let m := Confetti.mkManager false false [] false 0 0 in
  let config := mkBurst heavy 150 800 (Some (mkCoord 10 790)) in
  (80 <= Confetti.innerWidth w)%Q
  /\ (Confetti.originX w m config <= Confetti.innerWidth w - 40)%Q
  /\ Confetti.originX w m config = 40%Q
  /\ (Confetti.originY w m config == 760)%Q.
Proof.
  intros w m config.
  pose proof (burst_origin_clamped w m config) as H. cbv zeta in H.
  destruct H as (_ & _ & _ & _ & HW & _).
  assert (H80 : (80 <= Confetti.innerWidth w)%Q) by (vm_compute; discriminate).
  split; [exact H80|]. split; [exact (HW H80)|].
  split; reflexivity.
Defined.

(** The line 3 of a tracked document is unchecked at 10000; its checkbox
    is clicked and another document changes; the line is checked again
    400 ms after the uncheck (no event), or 2000 ms after it (one event),
    with an undo window of 1000 ms. *)
Lemma undo_window_suppression_witness :
  let s := set_taskStates {[ "todo.md"%string := {[ 3 := true ]} ]}
             (initial DEFAULT_SETTINGS) in
  let host t := mkHost t false None false false in
  let unchecked := [mkItem (Some " "%string) 3] in
  let rechecked := [mkItem (Some "x"%string) 3] in
  let mid := [ (host 10100, CheckboxChanged (Some "todo.md"%string) (Some 3)
                              (mkRect 100 200 16 16));
               (host 10200, MetadataChanged "other.md"
                              (Some [mkItem (Some "x"%string) 3])) ] in
  let s1 := handleTaskMetadataChange (host 10000) "todo.md" (Some unchecked) s in
  let s2 := fst (run mid s1) in
  eventsFor ("todo.md"%string, 3)
    (taskEventQueue (handleTaskMetadataChange (host 10400) "todo.md" (Some rechecked) s2))
  = eventsFor ("todo.md"%string, 3) (taskEventQueue s2)
  /\ exists q1 e q2,
       taskEventQueue
         (handleTaskMetadataChange (host 12000) "todo.md" (Some rechecked) s2)
       = taskEventQueue s2 ++ q1 ++ e :: q2
       /\ keyOf e = ("todo.md"%string, 3) /\ checked e = true /\ timestamp e = 12000.
Proof.
  intros s host unchecked rechecked mid s1 s2.
  assert (HA : exists t, In t unchecked /\ isTask t = true /\ position_line t = 3)
    by (exists (mkItem (Some " "%string) 3); repeat split; left; reflexivity).
  assert (HA' : forall t, In t unchecked -> isTask t = true -> position_line t = 3 ->
                          isChecked t = false)
    by (intros t [<-|[]] _ _; reflexivity).
  assert (HB : exists t, In t rechecked /\ isTask t = true /\ position_line t = 3
                         /\ isChecked t = true)
    by (exists (mkItem (Some "x"%string) 3); repeat split; left; reflexivity).
  assert (Hmid : forall t2, 10200 <= t2 ->
            Forall (fun hi => quietFor "todo.md" 3 (snd hi)
                              /\ clock (fst hi) <= clock (host t2)) mid).
  { intros t2 Ht2. repeat constructor; simpl; try lia. intros [=]. }
  split.
  - apply (undo_window_suppression "todo.md" 3 (host 10000) unchecked mid (host 10400)
             rechecked s {[ 3 := true ]});
      [simpl; lia | simpl; lia | reflexivity | reflexivity | exact HA | exact HA'
       | apply Hmid; lia | exact HB | simpl; lia].
  - apply (undo_window_suppression "todo.md" 3 (host 10000) unchecked mid (host 12000)
             rechecked s {[ 3 := true ]});
      [simpl; lia | simpl; lia | reflexivity | reflexivity | exact HA | exact HA'
       | apply Hmid; lia | exact HB | simpl; lia].
Defined.

(** Lines 3 and 5 are checked at 1000 and 1100 with a merge window of
    300 ms: one flush at 1400, of both events. *)
Lemma debounce_single_flush_witness :
  let s := initial DEFAULT_SETTINGS in
  let host t := mkHost t false None false false in
  let e3 := mkEvent "todo.md" 3 true 1000 None in
  let e5 := mkEvent "todo.md" 5 true 1100 None in
  let evs := [(host 1000, e3); (host 1100, e5)] in
  snd (arrive evs s) = []
  /\ snd (fireDue (host 1400) (fst (arrive evs s)))
     = [Dispatched 2 [PlayRewardSound heavy (3 # 10);
                      Burst (mkBurst heavy 150 800 None)] Normal]
  /\ taskEventQueue (fst (fireDue (host 1400) (fst (arrive evs s)))) = [].
Proof.
  intros s host e3 e5 evs.
  destruct (debounce_single_flush (host 1000) e3 [(host 1100, e5)] (host 1400) s)
    as (H1 & _ & _ & Hd & Hc & _).
  - unfold timerInv. simpl. split; [lia|]. split; [discriminate|].
    split; [intros t []| lia].
  - reflexivity.
  - reflexivity.
  - simpl. lia.
  - simpl. lia.
  - split; [exact H1|]. split.
    + eapply eq_trans; [apply Hd; simpl; lia | vm_compute; reflexivity].
    + apply Hc; [simpl; lia | reflexivity | reflexivity].
Defined.


(** The checkbox of line 3 is clicked at 500 and its check is enqueued
    at 1000: the event carries the coordinate of the click. *)
Lemma cached_coordinate_round_trip_witness :
  let rect := mkRect 100 200 16 16 in
  let s := onCheckboxChange (mkHost 500 false None false false)
             (Some "todo.md"%string) (Some 3) rect (initial DEFAULT_SETTINGS) in
  let h := mkHost 1000 false None false false in
  let e := mkEvent "todo.md" 3 true 1000 None in
  coords (List.last (taskEventQueue (queueTaskEvent h e s)) e) = Some (rectCenter rect).
Proof.
  intros rect s h e.
  destruct (cached_coordinate_round_trip h e s) as (_ & _ & Hfresh & _).
  apply (Hfresh (rectCenter rect) 500); [reflexivity | simpl; lia].
Defined.

(** Enqueuing line 3 leaves the cache entry of line 4 alone. *)
Lemma enqueue_consumes_cache_entry_witness :
  let rect := mkRect 100 200 16 16 in
  let h := mkHost 500 false None false false in
  let s := onCheckboxChange h (Some "todo.md"%string) (Some 4) rect
             (initial DEFAULT_SETTINGS) in
  let e := mkEvent "todo.md" 3 true 500 None in
  recentTaskCoordinates (queueTaskEvent h e s) !! ("todo.md"%string, 4)
  = recentTaskCoordinates s !! ("todo.md"%string, 4).
Proof.
  intros rect h s e.
  destruct (enqueue_consumes_cache_entry h e s) as (_ & Hother & _).
  apply Hother. simpl. intros [= ].
Defined.


(** An uncheck of line 2 inserts its time and evicts nothing; a cleanup
    at 10000 of a ledger of 102 entries, with an undo window of 1000 ms,
    keeps the entry of time 9000 and drops an entry of time 5. *)
Lemma ledger_eviction_policy_witness :
  let s := set_undoProtection {[ ("todo.md"%string, 1) := 5 ]}
             (initial DEFAULT_SETTINGS) in
  let crowded := set_undoProtection crowdedLedger (initial DEFAULT_SETTINGS) in
  let h := mkHost 10000 false None false false in
  let prev : gmap Z bool := {[ 2 := true ]} in
  undoProtection
    (fst (taskStep h "todo.md" 10000 prev (s, ∅) (mkItem (Some " "%string) 2)))
  = <[ ("todo.md"%string, 2) := 10000 ]> (undoProtection s)
  /\ undoProtection (cleanupUndoProtection 10000 crowded) !! ("todo.md"%string, 500)
     = Some 9000
  /\ undoProtection (cleanupUndoProtection 10000 crowded) !! ("todo.md"%string, 0)
     <> Some 5.
Proof.
  intros s crowded h prev. split; [|split].
  - destruct (ledger_eviction_policy h "todo.md" 10000 prev s ∅
                (mkItem (Some " "%string) 2)) as (Huncheck & _).
    apply Huncheck; reflexivity.
  - destruct (ledger_eviction_policy h "todo.md" 10000 prev crowded ∅
                (mkItem (Some " "%string) 2)) as (_ & _ & Hclean).
    apply Hclean. split; [vm_compute; reflexivity | right; simpl; lia].
  - destruct (ledger_eviction_policy h "todo.md" 10000 prev crowded ∅
                (mkItem (Some " "%string) 2)) as (_ & _ & Hclean).
    intros Hkept. apply Hclean in Hkept. destruct Hkept as [_ [Hsize|Hage]].
    + vm_compute in Hsize. lia.
    + simpl in Hage. lia.
Defined.

End Instances.

(** * Further properties of the code *)

(** ** Snapshots of a document *)
Section Snapshots.

Import Main Vocabulary Observations.
Local Open Scope Z_scope.

Lemma fold_insert_lookup (l : Z) tasks : forall cur : gmap Z bool,
  fold_left (fun c t => <[position_line t := isChecked t]> c) tasks cur !! l
  = match lineState l tasks with Some b => Some b | None => cur !! l end.
Proof.
  induction tasks as [|t tasks IH]; intros cur; simpl; [reflexivity|].
  rewrite IH. destruct (lineState l tasks) as [b|]; [reflexivity|].
  destruct (Z.eqb_spec (position_line t) l) as [->|Hne].
  - apply lookup_insert_eq.
  - apply lookup_insert_ne. exact Hne.
Qed.

(** The state tracked for a document after a snapshot of it, whether it
    was tracked before or not. *)
Lemma snapshot_tracked h f items s :
  taskStates (handleTaskMetadataChange h f (Some items) s) !! f
  = Some (fold_left (fun c t => <[position_line t := isChecked t]> c)
                    (List.filter isTask items) ∅).
Proof.
  destruct (taskStates s !! f) as [prev|] eqn:Ep.
  - apply (handleTaskMetadataChange_tracked f h items s prev Ep).
  - unfold handleTaskMetadataChange. rewrite Ep. simpl. apply lookup_insert_eq.
Qed.

(** X2. After a snapshot of a document the state tracked for it is
    exactly what the snapshot lists: for each line, the state of the last
    task listed at that line, and nothing for a line the snapshot does not
    list, whatever was tracked before; the other documents keep their
    tracked state. *)
Theorem snapshot_replaces_tracked_state h f items s :
  exists cur,
    taskStates (handleTaskMetadataChange h f (Some items) s) !! f = Some cur
    /\ (forall l, cur !! l = lineState l (List.filter isTask items))
    /\ (forall f', f' <> f ->
          taskStates (handleTaskMetadataChange h f (Some items) s) !! f'
          = taskStates s !! f').
Proof.
  eexists. split; [apply snapshot_tracked|]. split.
  - intros l. rewrite fold_insert_lookup.
    destruct (lineState l (List.filter isTask items)); [reflexivity|].
    apply lookup_empty.
  - intros f' Hne. apply handleTaskMetadataChange_taskStates_other. congruence.
Qed.

(** What a first observation leaves: only the tracked states change. *)
Lemma first_observation h f items s :
  taskStates s !! f = None ->
  handleTaskMetadataChange h f (Some items) s
  = set_taskStates
      (<[f := fold_left (fun c t => <[position_line t := isChecked t]> c)
                        (List.filter isTask items) ∅]> (taskStates s)) s.
Proof. intros Hn. unfold handleTaskMetadataChange. rewrite Hn. reflexivity. Qed.

(** A snapshot of one document leaves the state tracked for another. *)
Lemma snapshot_replaces_tracked_state_witness :
  let s := set_taskStates {[ "a.md"%string := {[ 1 := true ]};
                             "b.md"%string := {[ 2 := false ]} ]}
             (initial DEFAULT_SETTINGS) in
  taskStates (handleTaskMetadataChange (mkHost 1000 false None false false)
                "a.md" (Some [mkItem (Some "x"%string) 3]) s) !! "b.md"%string
  = Some {[ 2 := false ]}.
Proof.
  intros s.
  destruct (snapshot_replaces_tracked_state (mkHost 1000 false None false false)
              "a.md"%string [mkItem (Some "x"%string) 3] s) as (cur & _ & _ & H).
  rewrite (H "b.md"%string); [vm_compute; reflexivity | discriminate].
Defined.

(** X1. The first snapshot of a document, and the first snapshot after
    a null cache made the plugin forget the document, enqueue nothing,
    record no uncheck and start no timer, even when they list checked
    tasks. *)
Theorem reobservation_is_silent h1 h2 f items s :
  let quiet (a b : Plugin) :=
    taskEventQueue b = taskEventQueue a
    /\ undoProtection b = undoProtection a
    /\ pendingTimeouts b = pendingTimeouts a
    /\ mergeTimer b = mergeTimer a
    /\ lastFeedbackTime b = lastFeedbackTime a in
  (taskStates s !! f = None ->
   quiet s (handleTaskMetadataChange h2 f (Some items) s))
  /\ taskStates (handleTaskMetadataChange h1 f None s) !! f = None
  /\ quiet s (handleTaskMetadataChange h2 f (Some items)
                (handleTaskMetadataChange h1 f None s)).
Proof.
  intros quiet. unfold quiet.
  assert (Hdrop : taskStates (handleTaskMetadataChange h1 f None s) !! f = None)
    by (unfold handleTaskMetadataChange; simpl; apply lookup_delete_eq).
  split; [|split].
  - intros Hn. rewrite (first_observation h2 f items s Hn). repeat split.
  - exact Hdrop.
  - rewrite (first_observation h2 f items _ Hdrop). repeat split.
Qed.

(** A first snapshot listing a checked task, on the plugin as loaded. *)
Lemma reobservation_is_silent_witness :
  let host t := mkHost t false None false false in
  let items := [mkItem (Some "x"%string) 3] in
  let s' := handleTaskMetadataChange (host 2000) "todo.md" (Some items)
              (initial DEFAULT_SETTINGS) in
  taskEventQueue s' = [] /\ pendingTimeouts s' = [].
Proof.
  intros host items s'.
  destruct (reobservation_is_silent (host 1000) (host 2000) "todo.md"%string items
              (initial DEFAULT_SETTINGS)) as [H _].
  destruct (H eq_refl) as (Hq & _ & Hp & _).
  split; [exact Hq | exact Hp].
Defined.

Lemma lineState_of_listed tasks : forall t,
  In t tasks ->
  exists t', In t' tasks /\ position_line t' = position_line t
             /\ lineState (position_line t) tasks = Some (isChecked t').
Proof.
  induction tasks as [|t0 tasks IH]; intros t Hin; [destruct Hin|].
  simpl. destruct Hin as [->|Hin].
  - destruct (lineState (position_line t) tasks) as [b|] eqn:El.
    + assert (Hex : exists t', In t' tasks /\ position_line t' = position_line t
                               /\ Some b = Some (isChecked t')).
      { clear IH. induction tasks as [|t1 tasks IH1]; [discriminate|].
        simpl in El. destruct (lineState (position_line t) tasks) as [b'|] eqn:El'.
        - destruct (IH1 El) as (t' & H1 & H2 & H3).
          exists t'. split; [right; exact H1 | split; assumption].
        - destruct (Z.eqb_spec (position_line t1) (position_line t)) as [He|He];
            [|discriminate].
          exists t1. split; [left; reflexivity | split; [exact He | congruence]]. }
      destruct Hex as (t' & H1 & H2 & H3).
      exists t'. split; [right; exact H1 | split; assumption].
    + rewrite Z.eqb_refl. exists t. split; [left; reflexivity | split; reflexivity].
  - destruct (IH t Hin) as (t' & H1 & H2 & H3). rewrite H3.
    exists t'. split; [right; exact H1 | split; [exact H2 | reflexivity]].
Qed.

(** When the state before agrees with every task listed, the loop leaves
    the plugin as it is. *)
Lemma fold_same h f now prev tasks : forall s cur,
  (forall t, In t tasks -> default false (prev !! position_line t) = isChecked t) ->
  fold_left (taskStep h f now prev) tasks (s, cur)
  = (s, fold_left (fun c t => <[position_line t := isChecked t]> c) tasks cur).
Proof.
  induction tasks as [|t tasks IH]; intros s cur Hall; simpl; [reflexivity|].
  destruct (taskStep_cases h f now prev s cur t) as [Hc Hs].
  specialize (Hall t (or_introl eq_refl)) as Ht.
  destruct (taskStep h f now prev (s, cur) t) as [s1 cur1]. simpl in Hc, Hs. subst cur1.
  assert (s1 = s) as ->.
  { destruct Hc as [u Hw Hck _ _ _ | Hw Hck _ | Hw Hck | _];
      try reflexivity; congruence. }
  apply IH. intros t' Ht'. apply Hall. right. exact Ht'.
Qed.

Lemma set_taskStates_same s : set_taskStates (taskStates s) s = s.
Proof. destruct s. reflexivity. Qed.

(** X3. A snapshot that repeats the one before (the host notifies
    again and no task changed) changes nothing at all: the plugin after
    both is the plugin after the first, for every clock. *)
Theorem repeated_snapshot_is_idempotent h1 h2 f items s :
  consistentLines (List.filter isTask items) ->
  handleTaskMetadataChange h2 f (Some items)
    (handleTaskMetadataChange h1 f (Some items) s)
  = handleTaskMetadataChange h1 f (Some items) s.
Proof.
  intros Hcons.
  pose proof (snapshot_tracked h1 f items s) as Htr.
  remember (handleTaskMetadataChange h1 f (Some items) s) as s1 eqn:Es1. clear Es1.
  set (tasks := List.filter isTask items) in *.
  set (cur1 := fold_left (fun c t => <[position_line t := isChecked t]> c) tasks ∅)
    in *.
  unfold handleTaskMetadataChange. fold tasks. rewrite Htr.
  rewrite fold_same.
  - fold cur1. rewrite insert_id by exact Htr. apply set_taskStates_same.
  - intros t Ht. unfold cur1. rewrite fold_insert_lookup.
    destruct (lineState_of_listed tasks t Ht) as (t' & Hin' & Hl' & ->). simpl.
    apply Hcons; assumption.
Qed.

(** The task lines 3 (checked) and 5 (unchecked), notified twice. *)
Lemma repeated_snapshot_is_idempotent_witness :
  let items := [mkItem (Some "x"%string) 3; mkItem None 4; mkItem (Some " "%string) 5] in
  let host t := mkHost t false None false false in
  let s := set_taskStates {[ "todo.md"%string := {[ 3 := false ]} ]}
             (initial DEFAULT_SETTINGS) in
  handleTaskMetadataChange (host 2000) "todo.md" (Some items)
    (handleTaskMetadataChange (host 1000) "todo.md" (Some items) s)
  = handleTaskMetadataChange (host 1000) "todo.md" (Some items) s.
Proof.
  intros items host s. apply repeated_snapshot_is_idempotent.
  intros t t' Ht Ht' Hl. simpl in Ht, Ht'.
  destruct Ht as [<-|[<-|[]]], Ht' as [<-|[<-|[]]];
    first [reflexivity | discriminate Hl].
Defined.

(** One step appends at most one event, and none for a task that is
    not checked. *)
Lemma taskStep_appends h f now prev s cur t :
  exists extra,
    taskEventQueue (fst (taskStep h f now prev (s, cur) t)) = taskEventQueue s ++ extra
    /\ Forall (fun e => file e = f /\ line e = position_line t /\ checked e = true
                        /\ timestamp e = now) extra
    /\ (length extra <= if isChecked t then 1 else 0)%nat.
Proof.
  destruct (taskStep_cases h f now prev s cur t) as [Hc _].
  remember (fst (taskStep h f now prev (s, cur) t)) as s1 eqn:Es1. clear Es1.
  destruct Hc as [u Hw Hck _ _ _ | Hw Hck _ | Hw Hck | _].
  - exists []. rewrite app_nil_r. split; [reflexivity|]. split; [constructor|simpl; lia].
  - eexists. rewrite queueTaskEvent_queue, cleanupUndoProtection_queue.
    split; [reflexivity|]. rewrite Hck. split; [|simpl; lia].
    constructor; [|constructor]. repeat split.
  - exists []. rewrite app_nil_r. split; [reflexivity|]. split; [constructor|simpl; lia].
  - exists []. rewrite app_nil_r. split; [reflexivity|]. split; [constructor|simpl; lia].
Qed.

Lemma fold_appends h f now prev tasks : forall s cur,
  exists extra,
    taskEventQueue (fst (fold_left (taskStep h f now prev) tasks (s, cur)))
    = taskEventQueue s ++ extra
    /\ Forall (fun e => file e = f /\ checked e = true /\ timestamp e = now
                        /\ exists t, In t tasks /\ isChecked t = true
                                     /\ line e = position_line t) extra
    /\ (length extra <= length (List.filter isChecked tasks))%nat.
Proof.
  induction tasks as [|t tasks IH]; intros s cur; simpl.
  - exists []. rewrite app_nil_r. split; [reflexivity|]. split; [constructor|simpl; lia].
  - destruct (taskStep_appends h f now prev s cur t) as (x1 & Hq1 & Hf1 & Hl1).
    destruct (taskStep h f now prev (s, cur) t) as [s1 cur1]. simpl in Hq1.
    destruct (IH s1 cur1) as (x2 & Hq2 & Hf2 & Hl2).
    exists (x1 ++ x2). rewrite Hq2, Hq1, <- app_assoc. split; [reflexivity|].
    split.
    + apply Forall_app. split.
      * destruct (isChecked t) eqn:Ect.
        -- eapply List.Forall_impl; [|exact Hf1]. simpl.
           intros e (E1 & E2 & E3 & E4).
           split; [exact E1|]. split; [exact E3|]. split; [exact E4|].
           exists t. split; [left; reflexivity|]. split; [exact Ect | exact E2].
        -- destruct x1; [constructor | simpl in Hl1; lia].
      * eapply List.Forall_impl; [|exact Hf2]. simpl.
        intros e (E1 & E2 & E3 & t' & T1 & T2 & T3).
        split; [exact E1|]. split; [exact E2|]. split; [exact E3|].
        exists t'. split; [right; exact T1 | split; assumption].
    + rewrite length_app. destruct (isChecked t); simpl; lia.
Qed.

(** X4. Whatever a snapshot lists, the events it appends to the pending
    batch are all of the snapshot's document, checked, stamped with the
    snapshot's clock and at the line of a task the snapshot shows checked;
    there are no more of them than checked tasks, so a snapshot without a
    checked task (an uncheck, say) appends none.  Events already pending
    keep their place. *)
Theorem snapshot_appends_only_checks h f items s :
  exists extra,
    taskEventQueue (handleTaskMetadataChange h f (Some items) s)
    = taskEventQueue s ++ extra
    /\ Forall (fun e => file e = f /\ checked e = true /\ timestamp e = clock h
                        /\ exists t, In t items /\ isTask t = true
                             /\ isChecked t = true /\ line e = position_line t) extra
    /\ (length extra <= length (List.filter isChecked (List.filter isTask items)))%nat.
Proof.
  unfold handleTaskMetadataChange.
  destruct (taskStates s !! f) as [prev|].
  - destruct (fold_appends h f (clock h) prev (List.filter isTask items) s ∅)
      as (extra & Hq & Hf & Hl).
    destruct (fold_left _ _ _) as [s' cur']. simpl in *.
    exists extra. split; [exact Hq|]. split; [|exact Hl].
    eapply List.Forall_impl; [|exact Hf]. simpl.
    intros e (E1 & E2 & E3 & t & T1 & T2 & T3).
    split; [exact E1|]. split; [exact E2|]. split; [exact E3|].
    apply List.filter_In in T1. exists t. tauto.
  - exists []. simpl. rewrite app_nil_r. split; [reflexivity|].
    split; [constructor | lia].
Qed.

End Snapshots.

(** ** Checklist markers *)
Section Markers.

Import Main Observations.
Local Open Scope string_scope.

Lemma lower_is_space c : is_space (lower c) = is_space c.
Proof. destruct c as [[] [] [] [] [] [] [] []]; reflexivity. Qed.

Lemma trimStart_lower s : trimStart (toLowerCase s) = toLowerCase (trimStart s).
Proof.
  induction s as [|c s IH]; simpl; [reflexivity|].
  rewrite lower_is_space. destruct (is_space c); [exact IH | reflexivity].
Qed.

Lemma trimEnd_lower s : trimEnd (toLowerCase s) = toLowerCase (trimEnd s).
Proof.
  induction s as [|c s IH]; simpl; [reflexivity|].
  rewrite IH, lower_is_space.
  destruct (trimEnd s); simpl; [destruct (is_space c)|]; reflexivity.
Qed.

(** Trimming and lowering commute, so the marker may be lowered first. *)
Lemma trim_lower s : toLowerCase (trim s) = trim (toLowerCase s).
Proof. unfold trim. rewrite trimStart_lower, trimEnd_lower. reflexivity. Qed.

Lemma trimStart_padding ws s : allSpace ws = true -> trimStart (ws ++ s) = trimStart s.
Proof.
  induction ws as [|c ws IH]; simpl; [reflexivity|].
  intros H. apply andb_true_iff in H. destruct H as [Hc Hws].
  rewrite Hc. apply IH, Hws.
Qed.

Lemma trimEnd_allSpace ws : allSpace ws = true -> trimEnd ws = "".
Proof.
  induction ws as [|c ws IH]; simpl; [reflexivity|].
  intros H. apply andb_true_iff in H. destruct H as [Hc Hws].
  rewrite (IH Hws), Hc. reflexivity.
Qed.

Lemma trimEnd_padding s ws : allSpace ws = true -> trimEnd (s ++ ws) = trimEnd s.
Proof.
  intros Hws. induction s as [|c s IH]; simpl.
  - apply trimEnd_allSpace, Hws.
  - rewrite IH. reflexivity.
Qed.

Lemma trimStart_then_padding s ws :
  allSpace ws = true -> trimEnd (trimStart (s ++ ws)) = trimEnd (trimStart s).
Proof.
  intros Hws. induction s as [|c s IH]; simpl.
  - assert (Hs : trimStart ws = "").
    { clear -Hws. induction ws as [|c ws IH]; simpl; [reflexivity|].
      simpl in Hws. apply andb_true_iff in Hws. destruct Hws as [Hc Hws].
      rewrite Hc. apply IH, Hws. }
    change ("" ++ ws) with ws. rewrite Hs. reflexivity.
  - destruct (is_space c); [exact IH|].
    change (String c (s ++ ws)) with (String c s ++ ws).
    apply trimEnd_padding, Hws.
Qed.

Lemma trim_padding ws1 s ws2 :
  allSpace ws1 = true -> allSpace ws2 = true -> trim (ws1 ++ s ++ ws2) = trim s.
Proof.
  intros H1 H2. unfold trim. rewrite (trimStart_padding ws1 _ H1).
  apply trimStart_then_padding, H2.
Qed.

(** X5. Whether a marker counts as checked depends only on the marker
    without its leading and trailing ASCII white space and without
    regard to the case of its ASCII letters; a list item that is no task
    is never checked. *)
Theorem isChecked_ignores_case_and_padding m m' ws1 ws2 l l' :
  (allSpace ws1 = true -> allSpace ws2 = true ->
   isChecked (mkItem (Some (ws1 ++ m ++ ws2)) l) = isChecked (mkItem (Some m) l'))
  /\ (toLowerCase m = toLowerCase m' ->
      isChecked (mkItem (Some m) l) = isChecked (mkItem (Some m') l'))
  /\ isChecked (mkItem None l) = false.
Proof.
  unfold isChecked. simpl. split; [|split].
  - intros H1 H2. rewrite (trim_padding ws1 m ws2 H1 H2). reflexivity.
  - intros Hl. rewrite !trim_lower, Hl. reflexivity.
  - reflexivity.
Qed.

(** [" X "] and ["Checked"] count as checked like ["x"] and ["checked"];
    a blank marker and ["-"] do not. *)
Lemma isChecked_ignores_case_and_padding_witness :
  isChecked (mkItem (Some " X ") 3) = isChecked (mkItem (Some "X") 3)
  /\ isChecked (mkItem (Some "X") 3) = isChecked (mkItem (Some "x") 3)
  /\ isChecked (mkItem (Some "x") 3) = true
  /\ isChecked (mkItem (Some "Checked") 3) = true
  /\ isChecked (mkItem (Some " ") 3) = false
  /\ isChecked (mkItem (Some "-") 3) = false.
Proof.
  destruct (isChecked_ignores_case_and_padding "X" "x" " " " " 3 3) as (Hpad & Hcase & _).
  split; [apply Hpad; reflexivity|]. split; [apply Hcase; reflexivity|].
  repeat split.
Defined.

End Markers.

(** ** The origin of a dispatch *)
Section Origin.

Import Main Observations.
Local Open Scope Q_scope.

Lemma omap_coords_nil (l : list TaskEvent) :
  omap coords l = [] <-> forall e, In e l -> coords e = None.
Proof.
  induction l as [|e l IH]; simpl.
  - split; [intros _ e [] | reflexivity].
  - destruct (coords e) as [c|] eqn:Ec; simpl.
    + split; [discriminate|]. intros H. specialize (H e (or_introl eq_refl)). congruence.
    + rewrite IH. split.
      * intros H e' [<-|He']; [exact Ec | apply H, He'].
      * intros H e' He'. apply H. right. exact He'.
Qed.

Lemma omap_coords_in (l : list TaskEvent) c :
  In c (omap coords l) -> exists e, In e l /\ coords e = Some c.
Proof.
  induction l as [|e l IH]; simpl; [intros []|].
  destruct (coords e) as [c'|] eqn:Ec; simpl.
  - intros [<-|Hin]; [exists e; auto|].
    destruct (IH Hin) as (e' & H1 & H2). exists e'. auto.
  - intros Hin. destruct (IH Hin) as (e' & H1 & H2). exists e'. auto.
Qed.

(** The running sum of [getConfettiOrigin] stays between the sums of the
    bounds. *)
Lemma sum_in_box xlo xhi ylo yhi cs : forall acc,
  Forall (inBox xlo xhi ylo yhi) cs ->
  let n := inject_Z (Z.of_nat (length cs)) in
  let r := fold_left addCoord cs acc in
  cx acc + n * xlo <= cx r /\ cx r <= cx acc + n * xhi
  /\ cy acc + n * ylo <= cy r /\ cy r <= cy acc + n * yhi.
Proof.
  induction cs as [|c cs IH]; intros acc Hall; cbn [fold_left length].
  - change (inject_Z (Z.of_nat 0)) with 0. repeat split; lra.
  - inversion Hall as [|? ? (X1 & X2 & Y1 & Y2) Hrest]; subst.
    specialize (IH (addCoord acc c) Hrest). cbv zeta in IH. cbn [addCoord cx cy] in IH.
    destruct IH as (I1 & I2 & I3 & I4).
    assert (Hn : inject_Z (Z.of_nat (S (length cs)))
                 == inject_Z (Z.of_nat (length cs)) + 1).
    { rewrite Nat2Z.inj_succ. unfold Z.succ. rewrite inject_Z_plus. reflexivity. }
    assert (Hnn : 0 <= inject_Z (Z.of_nat (length cs))).
    { unfold Qle. simpl. lia. }
    rewrite Hn. repeat split; nra.
Qed.

(** The running sum of [getConfettiOrigin] adds the components up. *)
Lemma sum_components cs : forall acc,
  cx (fold_left addCoord cs acc) == cx acc + sumX cs
  /\ cy (fold_left addCoord cs acc) == cy acc + sumY cs.
Proof.
  induction cs as [|c cs IH]; intros acc; cbn [fold_left sumX sumY fold_right].
  - split; ring.
  - destruct (IH (addCoord acc c)) as [I1 I2]. cbn [addCoord cx cy] in I1, I2.
    fold (sumX cs) (sumY cs). rewrite I1, I2. split; ring.
Qed.

(** X6. The origin of a dispatch is the mean of the coordinates of the
    events that have one, the geometry lookup being asked only for the
    events that carry none: there is no origin exactly when no event has
    a coordinate; otherwise its components are the sums of the components
    of those coordinates divided by their number, so it lies in every box
    that holds all those coordinates. *)
Theorem confetti_origin_is_mean h events xlo xhi ylo yhi :
  (fst (getConfettiOrigin h events) = None
   <-> forall e, In e events -> coords (resolveCoords h e) = None)
  /\ (forall o, fst (getConfettiOrigin h events) = Some o ->
        let cs := knownCoords h events in
        let n := inject_Z (Z.of_nat (length cs)) in
        0 < n /\ cx o == sumX cs / n /\ cy o == sumY cs / n)
  /\ (forall o, fst (getConfettiOrigin h events) = Some o ->
        (forall e c, In e events -> coords (resolveCoords h e) = Some c ->
                     inBox xlo xhi ylo yhi c) ->
        inBox xlo xhi ylo yhi o)
  /\ (forall e c, coords e = Some c -> resolveCoords h e = e)
  /\ (forall e, coords e = None ->
        coords (resolveCoords h e) = computeTaskCoordinates h (file e) (line e)).
Proof.
  split; [|split; [|split; [|split]]].
  - unfold getConfettiOrigin.
    destruct (omap coords (List.map (resolveCoords h) events)) as [|c cs] eqn:Ecs.
    + simpl. split; [|reflexivity]. intros _ e He.
      apply (proj1 (omap_coords_nil _) Ecs). apply List.in_map. exact He.
    + simpl. split; [discriminate|]. intros Hnone. exfalso.
      assert (Hin : In c (omap coords (List.map (resolveCoords h) events)))
        by (rewrite Ecs; left; reflexivity).
      apply omap_coords_in in Hin. destruct Hin as (e' & He' & Hc').
      apply List.in_map_iff in He'. destruct He' as (e & <- & He).
      rewrite (Hnone e He) in Hc'. discriminate.
  - intros o Ho cs n. unfold getConfettiOrigin in Ho. unfold n, cs, knownCoords.
    destruct (omap coords (List.map (resolveCoords h) events)) as [|c cs'] eqn:Ecs;
      [discriminate|].
    simpl in Ho. injection Ho as <-.
    destruct (sum_components (c :: cs') (mkCoord 0 0)) as [S1 S2].
    cbn [cx cy] in S1, S2 |- *.
    split; [unfold Qlt; simpl; lia|].
    split; [rewrite S1 | rewrite S2]; apply Qdiv_comp; try reflexivity; ring.
  - intros o Ho Hbox. unfold getConfettiOrigin in Ho.
    destruct (omap coords (List.map (resolveCoords h) events)) as [|c cs] eqn:Ecs;
      [discriminate|].
    simpl in Ho. injection Ho as <-.
    assert (Hall : Forall (inBox xlo xhi ylo yhi) (c :: cs)).
    { apply List.Forall_forall. intros d Hd. rewrite <- Ecs in Hd.
      apply omap_coords_in in Hd. destruct Hd as (e' & He' & Hc').
      apply List.in_map_iff in He'. destruct He' as (e & <- & He).
      apply (Hbox e d He Hc'). }
    pose proof (sum_in_box xlo xhi ylo yhi (c :: cs) (mkCoord 0 0) Hall) as Hs.
    cbv zeta in Hs. cbn [cx cy] in Hs.
    set (sum := fold_left addCoord (c :: cs) (mkCoord 0 0)) in *.
    set (n := inject_Z (Z.of_nat (length (c :: cs)))) in *.
    assert (Hpos : 0 < n).
    { unfold n. simpl. unfold Qlt. simpl. lia. }
    destruct Hs as (S1 & S2 & S3 & S4).
    change (inBox xlo xhi ylo yhi (mkCoord (cx sum / n) (cy sum / n))).
    unfold inBox. cbn [cx cy]. repeat split.
    + apply Qle_shift_div_l; [exact Hpos | lra].
    + apply Qle_shift_div_r; [exact Hpos | lra].
    + apply Qle_shift_div_l; [exact Hpos | lra].
    + apply Qle_shift_div_r; [exact Hpos | lra].
  - intros e c Hc. unfold resolveCoords. rewrite Hc. reflexivity.
  - intros e Hc. unfold resolveCoords. rewrite Hc. reflexivity.
Qed.

(** Three events, two clicked at (100, 200) and (300, 400) and one with
    no coordinate to be had: the origin is (200, 300), inside the box the
    two coordinates span. *)
Lemma confetti_origin_is_mean_witness :
  let h := mkHost 5000 false None false false in
  let e1 := mkEvent "todo.md" 3 true 5000 (Some (mkCoord 100 200)) in
  let e2 := mkEvent "todo.md" 5 true 5000 (Some (mkCoord 300 400)) in
  let e3 := mkEvent "todo.md" 7 true 5000 None in
  exists o, fst (getConfettiOrigin h [e1; e2; e3]) = Some o
            /\ cx o == 200 /\ cy o == 300 /\ inBox 100 300 200 400 o.
Proof.
  intros h e1 e2 e3. eexists. split; [reflexivity|].
  destruct (confetti_origin_is_mean h [e1; e2; e3] 100 300 200 400)
    as (_ & Hmean & Hbox & _).
  destruct (Hmean _ eq_refl) as (_ & Hx & Hy).
  split; [rewrite Hx; vm_compute; reflexivity|].
  split; [rewrite Hy; vm_compute; reflexivity|].
  apply Hbox; [reflexivity|].
  intros e c [<-|[<-|[<-|[]]]] Hc; simpl in Hc; try discriminate Hc;
    injection Hc as <-;
    unfold inBox; simpl; repeat split; unfold Qle; simpl; lia.
Defined.

End Origin.

(** ** Geometry lookup and dispatch *)
Section Dispatch.

Import Main Vocabulary Observations.
Local Open Scope Z_scope.

(** X7. The geometry lookup answers [null] for every line when no
    markdown view is active, when the active view shows another file, or
    when a lookup raises.  In the editor the line is clamped into the
    document: when the editor answers for the last line, every line at or
    beyond it resolves to that same point, and every line below zero
    resolves like line zero. *)
Theorem geometry_lookup_clamps_line h f view c ln :
  (activeView h = None -> computeTaskCoordinates h f ln = None)
  /\ (activeView h = Some view -> view_file view <> f ->
      computeTaskCoordinates h f ln = None)
  /\ (activeView h = Some view -> geometryRaises view = true ->
      computeTaskCoordinates h f ln = None)
  /\ (activeView h = Some view -> view_file view = f ->
      geometryRaises view = false -> cm view = Some c ->
      (forall r, 0 < doc_lines c -> doc_lines c - 1 <= ln ->
         editorCoordinates view (doc_lines c - 1) = Some r ->
         computeTaskCoordinates h f ln = Some r)
      /\ (forall r, 0 < doc_lines c -> ln <= 0 ->
            editorCoordinates view 0 = Some r ->
            computeTaskCoordinates h f ln = Some r)).
Proof.
  unfold computeTaskCoordinates. split; [|split; [|split]].
  - intros ->. reflexivity.
  - intros -> Hne. rewrite bool_decide_eq_false_2 by exact Hne. reflexivity.
  - intros -> Hr. rewrite Hr. destruct (negb _); reflexivity.
  - intros -> Hf Hr Hc. rewrite bool_decide_eq_true_2 by exact Hf. rewrite Hr. simpl.
    assert (Hclamp : forall a b,
              Z.min (Z.max 0 a) (doc_lines c - 1) = Z.min (Z.max 0 b) (doc_lines c - 1) ->
              editorCoordinates view a = editorCoordinates view b).
    { intros a b Hab. unfold editorCoordinates. rewrite Hc, Hab. reflexivity. }
    split; intros r Hpos Hln Hr'.
    + rewrite (Hclamp ln (doc_lines c - 1)) by lia. rewrite Hr'. reflexivity.
    + rewrite (Hclamp ln 0) by lia. rewrite Hr'. reflexivity.
Qed.

(** A document of 10 lines in the editor: line 250 resolves to the
    point of line 9, the last one. *)
Lemma geometry_lookup_clamps_line_witness :
  let editor :=
    mkCM 10 (fun n => (n * 100, n * 100 + 50))
         (fun pos => Some (mkPosCoords (inject_Z pos) (inject_Z pos + 8) 20 36)) in
  let view := mkView "todo.md" (Some "source"%string) (Some editor) None false in
  let h := mkHost 5000 false (Some view) false false in
  computeTaskCoordinates h "todo.md" 250 = editorCoordinates view 9.
Proof.
  intros editor view h.
  destruct (geometry_lookup_clamps_line h "todo.md" view editor 250)
    as (_ & _ & _ & Hclamp).
  destruct (Hclamp eq_refl eq_refl eq_refl eq_refl) as [Hlast _].
  apply (Hlast (posCenter (mkPosCoords 1000 (1000 + 8) 20 36))); simpl; try lia.
  reflexivity.
Defined.

(** The two driver calls of a dispatch, as the settings and the
    environment gate them. *)
Lemma triggerFeedback_calls h s events :
  soundRaises h = false ->
  fst (fst (triggerFeedback h s (getFeedbackProfile h s (Z.of_nat (length events)))
                            events))
  = (if enableSound (settings s) && negb (globalMute (settings s))
     then [PlayRewardSound heavy (soundVolume (settings s))] else [])
    ++ (if enableConfetti (settings s) && negb (disableConfetti (settings s))
           && negb (reducedMotion h)
        then [Burst (mkBurst heavy 150 (confettiDuration (settings s))
                             (fst (getConfettiOrigin h events)))]
        else []).
Proof.
  intros Hs. unfold triggerFeedback, getFeedbackProfile, getParticleCount. rewrite Hs.
  simpl.
  destruct (globalMute (settings s)), (enableSound (settings s)),
    (reducedMotion h), (disableConfetti (settings s)), (enableConfetti (settings s));
    simpl; try reflexivity; destruct (getConfettiOrigin h events); reflexivity.
Qed.

(** X8. In a flush that dispatches (the sound driver not raising), the
    sound driver is called exactly when sound is enabled and not muted,
    always at intensity heavy with the configured volume; the confetti
    driver is called exactly when confetti is enabled, not disabled and
    reduced motion is off, always with 150 heavy particles, the
    configured duration and the mean origin of the batch.  When both are
    gated off the flush still counts: it returns normally, empties the
    batch and records its time. *)
Theorem dispatch_gating h s s' n calls c :
  processMergedEvents h s = (s', Dispatched n calls c) ->
  soundRaises h = false ->
  let st := settings s in
  let soundOn := enableSound st && negb (globalMute st) in
  let confettiOn :=
    enableConfetti st && negb (disableConfetti st) && negb (reducedMotion h) in
  calls
  = (if soundOn then [PlayRewardSound heavy (soundVolume st)] else [])
    ++ (if confettiOn
        then [Burst (mkBurst heavy 150 (confettiDuration st)
                             (fst (getConfettiOrigin h (taskEventQueue s))))]
        else [])
  /\ (soundOn = false -> confettiOn = false ->
      calls = [] /\ c = Normal /\ taskEventQueue s' = []
      /\ lastFeedbackTime s' = clock h).
Proof.
  intros E Hs st soundOn confettiOn.
  pose proof (triggerFeedback_calls h s (taskEventQueue s) Hs) as Hcalls.
  fold st soundOn confettiOn in Hcalls.
  unfold processMergedEvents in E.
  destruct (_ <? _); [discriminate|].
  destruct (_ =? _)%nat; [discriminate|].
  assert (Hc : soundOn = false -> confettiOn = false ->
               snd (fst (triggerFeedback h s
                           (getFeedbackProfile h s
                              (Z.of_nat (length (taskEventQueue s))))
                           (taskEventQueue s))) = Normal).
  { intros H1 H2. unfold triggerFeedback, getFeedbackProfile. rewrite Hs. simpl.
    unfold soundOn, confettiOn, st in H1, H2.
    destruct (globalMute (settings s)), (enableSound (settings s)),
      (reducedMotion h), (disableConfetti (settings s)), (enableConfetti (settings s));
      simpl in *; try discriminate; reflexivity. }
  destruct (triggerFeedback h s _ _) as [[calls' c'] events']. simpl in Hcalls, Hc.
  destruct c'; injection E as <- <- <- <-.
  - split; [exact Hcalls|]. intros H1 H2. rewrite Hcalls, H1, H2. repeat split.
  - split; [exact Hcalls|]. intros H1 H2. specialize (Hc H1 H2). discriminate.
Qed.

(** A muted plugin with confetti disabled: the flush of one event makes
    no call and still records 5300. *)
Lemma dispatch_gating_witness :
  let st := mkSettings true true true true (3 # 10) 800 300 250 1000 in
  let e := mkEvent "todo.md" 3 true 5000 None in
  let s := set_taskEventQueue [e] (initial st) in
  let h := mkHost 5300 false None false false in
  snd (processMergedEvents h s) = Dispatched 1 [] Normal
  /\ lastFeedbackTime (fst (processMergedEvents h s)) = 5300.
Proof.
  intros st e s h.
  destruct (processMergedEvents h s) as [s' r] eqn:E.
  assert (Hr : r = Dispatched 1 [] Normal) by (vm_compute in E; congruence).
  subst r.
  destruct (dispatch_gating h s s' 1%nat [] Normal E eq_refl) as (_ & Hoff).
  destruct (Hoff eq_refl eq_refl) as (_ & _ & _ & Hlast).
  split; [reflexivity | exact Hlast].
Defined.

(** X9. A coordinate captured by the checkbox listener is used once:
    of two check events enqueued for its key within the validity window,
    the first carries the captured coordinate and the second, bringing
    none of its own, the result of the geometry lookup. *)
Theorem cached_coordinate_single_use h0 h1 h2 path ln rect e1 e2 s :
  keyOf e1 = (path, ln) -> keyOf e2 = (path, ln) -> coords e2 = None ->
  clock h1 - clock h0 < 1500 ->
  taskEventQueue
    (queueTaskEvent h2 e2
       (queueTaskEvent h1 e1 (onCheckboxChange h0 (Some path) (Some ln) rect s)))
  = taskEventQueue s
    ++ [ mkEvent (file e1) (line e1) (checked e1) (timestamp e1)
                 (Some (rectCenter rect));
         mkEvent (file e2) (line e2) (checked e2) (timestamp e2)
                 (computeTaskCoordinates h2 path ln) ].
Proof.
  intros K1 K2 C2 Hfresh.
  rewrite queueTaskEvent_queue, queueTaskEvent_recent, queueTaskEvent_queue.
  rewrite K2, <- K1, lookup_delete_eq, K1, C2. simpl.
  rewrite lookup_insert_eq. simpl.
  destruct (Z.ltb_spec (clock h1 - clock h0) 1500); [|lia].
  rewrite <- app_assoc. simpl.
  assert (Hf : file e2 = path /\ line e2 = ln) by (unfold keyOf in K2; split; congruence).
  destruct Hf as [-> ->]. reflexivity.
Qed.

(** A click on the checkbox of line 3 at 500, then two checks of that
    line enqueued at 600 and 700. *)
Lemma cached_coordinate_single_use_witness :
  let host t := mkHost t false None false false in
  let rect := mkRect 100 200 16 16 in
  let e1 := mkEvent "todo.md" 3 true 600 None in
  let e2 := mkEvent "todo.md" 3 true 700 None in
  List.map coords
    (taskEventQueue
       (queueTaskEvent (host 700) e2
          (queueTaskEvent (host 600) e1
             (onCheckboxChange (host 500) (Some "todo.md"%string) (Some 3) rect
                (initial DEFAULT_SETTINGS)))))
  = [Some (rectCenter rect); None].
Proof.
  intros host rect e1 e2.
  rewrite (cached_coordinate_single_use (host 500) (host 600) (host 700)
             "todo.md" 3 rect e1 e2 (initial DEFAULT_SETTINGS));
    [reflexivity | reflexivity | reflexivity | reflexivity | simpl; lia].
Defined.

(** X10. Under the timer discipline, unloading the plugin leaves no
    timeout pending: no flush ever runs afterwards, whatever the clock,
    and the events still pending are never dispatched. *)
Theorem onunload_stops_flushes s :
  timerInv s ->
  pendingTimeouts (onunload s) = []
  /\ taskEventQueue (onunload s) = taskEventQueue s
  /\ (forall h, fireDue h (onunload s) = (onunload s, []))
  /\ (forall h tid, step h (TimeoutFired tid) (onunload s) = (onunload s, [])).
Proof.
  intros (Hn & Hm & Hp & Hlen).
  assert (Hpend : pendingTimeouts (onunload s) = []).
  { unfold onunload. destruct (mergeTimer s) as [tid|] eqn:Em.
    - destruct (Hm tid eq_refl) as [Hpos _]. unfold truthy.
      destruct (Z.eqb_spec tid 0); [lia|]. simpl.
      apply filter_all_out. intros t Ht. specialize (Hp t Ht). congruence.
    - destruct (pendingTimeouts s) as [|t ts] eqn:Ep; [reflexivity|].
      specialize (Hp t (or_introl eq_refl)). discriminate. }
  split; [exact Hpend|]. split; [|split].
  - unfold onunload. destruct (mergeTimer s) as [tid|]; [destruct (truthy tid)|];
      reflexivity.
  - intros h. apply fireDue_none. rewrite Hpend. intros t [].
  - intros h tid. simpl. rewrite Hpend. reflexivity.
Qed.

(** Two events pending and their timer armed, then the plugin unloads. *)
Lemma onunload_stops_flushes_witness :
  let host t := mkHost t false None false false in
  let e3 := mkEvent "todo.md" 3 true 1000 None in
  let e5 := mkEvent "todo.md" 5 true 1100 None in
  let s := queueTaskEvent (host 1100) e5
             (queueTaskEvent (host 1000) e3 (initial DEFAULT_SETTINGS)) in
  pendingTimeouts s = [(2, 1400)]
  /\ fireDue (host 1400) (onunload s) = (onunload s, []).
Proof.
  intros host e3 e5 s. split; [reflexivity|].
  destruct (onunload_stops_flushes s) as (_ & _ & Hfire & _).
  - apply queueTaskEvent_timerInv, queueTaskEvent_timerInv, initial_timerInv.
  - apply Hfire.
Defined.

End Dispatch.

(** ** The confetti burst and its animation *)
Section ConfettiAnimation.

Import Confetti Animation.
Local Open Scope Q_scope.

Lemma ensureCanvas_result w m :
  canvas (ensureCanvas w m) = true
  /\ logicalWidth (ensureCanvas w m) = innerWidth w
  /\ logicalHeight (ensureCanvas w m) = innerHeight w.
Proof.
  unfold ensureCanvas, setupCanvas, resizeCanvas.
  destruct (canvas m) eqn:E; simpl; rewrite ?E; simpl; repeat split.
Qed.

Lemma originX_viewport w m m' config : originX w m config = originX w m' config.
Proof. unfold originX. rewrite !burstWidth_viewport. reflexivity. Qed.

Lemma originY_viewport w m m' config : originY w m config = originY w m' config.
Proof. unfold originY. rewrite !burstHeight_viewport. reflexivity. Qed.

Lemma burst_independent w config a b : burst w config a = burst w config b.
Proof.
  unfold burst.
  destruct (ensureCanvas_result w a) as (A1 & A2 & A3).
  destruct (ensureCanvas_result w b) as (B1 & B2 & B3).
  rewrite A1, A2, A3, B1, B2, B3, !burstWidth_viewport, !burstHeight_viewport.
  rewrite (originX_viewport w a b), (originY_viewport w a b). reflexivity.
Qed.

Lemma burst_fields w config m :
  length (particles (burst w config m)) = Z.to_nat (particleCount config)
  /\ canvas (burst w config m) = true
  /\ attached (burst w config m) = true
  /\ animating (burst w config m) = true.
Proof.
  unfold burst. simpl. rewrite length_map, length_seq.
  destruct (ensureCanvas_result w m) as (A1 & _). rewrite A1. repeat split.
Qed.

(** X11. A burst replaces the particle set outright: the manager it
    leaves (canvas created and attached, animation running, exactly
    [particleCount] particles, none for a count of zero or less) does not
    depend on the manager before, be it animating an earlier burst or
    torn down by [cleanup]. *)
Theorem burst_replaces_particles w config m m' :
  burst w config m = burst w config m'
  /\ burst w config (cleanup m) = burst w config m
  /\ length (particles (burst w config m)) = Z.to_nat (particleCount config)
  /\ canvas (burst w config m) = true
  /\ attached (burst w config m) = true
  /\ animating (burst w config m) = true.
Proof.
  split; [apply burst_independent|]. split; [apply burst_independent|].
  apply burst_fields.
Qed.

(** X12. When [Math.random] answers in [0, 1), every particle of a
    burst starts within half the spread of the origin horizontally and
    within 15% of the vertical spread of it, moves upwards (a vertical
    speed between -5 and -2) with a horizontal speed between -3 and 3,
    has a size between 4 and 10, a colour index inside the palette of
    six, a full life and the configured duration. *)
Theorem spawn_within_bounds w config m p :
  (forall k, 0 <= random w k /\ random w k < 1) ->
  In p (particles (burst w config m)) ->
  let ox := originX w m config in
  let oy := originY w m config in
  let sx := Qmax (innerWidth w * (1 # 4)) 160 in
  let sy := Qmax (innerHeight w * (15 # 100)) 80 in
  (ox - sx / 2 <= p_x p /\ p_x p < ox + sx / 2)
  /\ (oy - sy * (15 # 100) <= p_y p /\ p_y p < oy + sy * (15 # 100))
  /\ (- (3) <= p_vx p /\ p_vx p < 3)
  /\ (- (5) < p_vy p /\ p_vy p <= - (2))
  /\ (0 <= p_rotation p /\ p_rotation p < 360)
  /\ (- (5) <= p_rotationSpeed p /\ p_rotationSpeed p < 5)
  /\ (0 <= p_color p < colors_length)%Z
  /\ (4 <= p_size p /\ p_size p < 10)
  /\ p_life p = 1 /\ p_maxLife p = duration config.
Proof.
  intros Hr Hin ox oy sx sy.
  unfold burst in Hin. cbn [particles] in Hin.
  apply List.in_map_iff in Hin. destruct Hin as (i & <- & _).
  rewrite burstWidth_viewport, burstHeight_viewport. fold ox oy sx sy.
  assert (Hsx : 160 <= sx) by apply Q.le_max_r.
  assert (Hsy : 80 <= sy) by apply Q.le_max_r.
  unfold spawn. cbn [p_x p_y p_vx p_vy p_rotation p_rotationSpeed p_color p_size
                     p_life p_maxLife].
  pose proof (Hr (8 * i + 0)%nat) as [R0 R0'].
  pose proof (Hr (8 * i + 1)%nat) as [R1 R1'].
  pose proof (Hr (8 * i + 2)%nat) as [R2 R2'].
  pose proof (Hr (8 * i + 3)%nat) as [R3 R3'].
  pose proof (Hr (8 * i + 4)%nat) as [R4 R4'].
  pose proof (Hr (8 * i + 5)%nat) as [R5 R5'].
  pose proof (Hr (8 * i + 6)%nat) as [R6 R6'].
  pose proof (Hr (8 * i + 7)%nat) as [R7 R7'].
  assert (P0 : 0 <= random w (8 * i + 0) * sx)
    by (apply Qmult_le_0_compat; lra).
  assert (P0' : 0 < (1 - random w (8 * i + 0)) * sx)
    by (apply Qmult_lt_0_compat; lra).
  assert (P1 : 0 <= random w (8 * i + 1) * sy)
    by (apply Qmult_le_0_compat; lra).
  assert (P1' : 0 < (1 - random w (8 * i + 1)) * sy)
    by (apply Qmult_lt_0_compat; lra).
  unfold Qdiv. change (/ 2) with (1 # 2).
  split; [split; lra|].
  split; [split; lra|].
  split; [split; lra|]. split; [split; lra|]. split; [split; lra|].
  split; [split; lra|]. split; [|split; [split; lra | split; reflexivity]].
  unfold floorQ, colors_length. split.
  - apply (Qfloor_resp_le 0). change (inject_Z 6) with 6. lra.
  - assert (Hlt : inject_Z (Qfloor (random w (8 * i + 6) * inject_Z 6)) < inject_Z 6).
    { eapply Qle_lt_trans; [apply Qfloor_le|]. change (inject_Z 6) with 6. lra. }
    rewrite <- Zlt_Qlt in Hlt. exact Hlt.
Qed.

(** A burst of three particles with every random draw at 1/2. *)
Lemma spawn_within_bounds_witness :
  let w := mkWindow 1000 800 (fun _ => 1 # 2) in
  let m := mkManager false false [] false 0 0 in
  let config := mkBurst heavy 3 800 (Some (mkCoord 500 300)) in
  exists p, In p (particles (burst w config m))
            /\ - (5) < p_vy p /\ p_vy p <= - (2) /\ (0 <= p_color p < 6)%Z.
Proof.
  intros w m config.
  exists (spawn w (originX w m config) (originY w m config)
                (Qmax (innerWidth w * (1 # 4)) 160)
                (Qmax (innerHeight w * (15 # 100)) 80) 800 0).
  assert (Hin : In (spawn w (originX w m config) (originY w m config)
                          (Qmax (innerWidth w * (1 # 4)) 160)
                          (Qmax (innerHeight w * (15 # 100)) 80) 800 0)
                   (particles (burst w config m))) by (left; reflexivity).
  split; [exact Hin|].
  destruct (spawn_within_bounds w config m _
              (fun k => conj (ltac:(vm_compute; discriminate) : 0 <= (1 # 2))
                             (ltac:(reflexivity) : (1 # 2) < 1)) Hin)
    as (_ & _ & _ & Hvy & _ & _ & Hcol & _).
  destruct Hvy. split; [assumption|]. split; [assumption | exact Hcol].
Defined.

Lemma frameParticles_expired e d ps :
  (0 < d)%Z -> inject_Z d <= e ->
  Forall (fun p => p_maxLife p = d) ps ->
  frameParticles e ps = Some [].
Proof.
  intros Hd He Hall. induction Hall as [|p ps Hp Hps IH]; simpl; [reflexivity|].
  rewrite IH. unfold frameParticle, lifeAt. rewrite Hp.
  destruct (Z.eqb_spec d 0); [lia|].
  assert (Hdq : inject_Z 0 < inject_Z d) by (rewrite <- Zlt_Qlt; exact Hd).
  change (inject_Z 0) with 0 in Hdq.
  assert (Hq : 1 <= e / inject_Z d) by (apply Qle_shift_div_l; [exact Hdq | lra]).
  assert (Hle : Qle_bool (1 - e / inject_Z d) 0 = true)
    by (apply Qle_bool_iff; lra).
  rewrite Hle. reflexivity.
Qed.

Lemma frameParticles_kept e d ps :
  (0 < d)%Z -> e < inject_Z d ->
  Forall (fun p => p_maxLife p = d) ps ->
  frameParticles e ps
  = Some (List.map (fun p => move p (1 - e / inject_Z (p_maxLife p))) ps).
Proof.
  intros Hd He Hall. induction Hall as [|p ps Hp Hps IH]; simpl; [reflexivity|].
  rewrite IH. unfold frameParticle, lifeAt. rewrite Hp.
  destruct (Z.eqb_spec d 0); [lia|].
  assert (Hdq : inject_Z 0 < inject_Z d) by (rewrite <- Zlt_Qlt; exact Hd).
  change (inject_Z 0) with 0 in Hdq.
  assert (Hq : e / inject_Z d < 1) by (apply Qlt_shift_div_r; [exact Hdq | lra]).
  assert (Hle : Qle_bool (1 - e / inject_Z d) 0 = false).
  { destruct (Qle_bool (1 - e / inject_Z d) 0) eqn:E; [|reflexivity].
    apply Qle_bool_iff in E. lra. }
  rewrite Hle. reflexivity.
Qed.

Lemma burst_particles_duration w config m :
  Forall (fun p => p_maxLife p = duration config) (particles (burst w config m)).
Proof.
  unfold burst. cbn [particles]. apply List.Forall_forall. intros p Hp.
  apply List.in_map_iff in Hp. destruct Hp as (i & <- & _). reflexivity.
Qed.

(** The manager a burst leaves, but for its particles. *)
Lemma burst_shape w config m :
  burst w config m
  = mkManager true true (particles (burst w config m)) true
              (innerWidth w) (innerHeight w).
Proof.
  unfold burst. cbn [particles].
  destruct (ensureCanvas_result w m) as (A1 & A2 & A3). rewrite A1, A2, A3.
  reflexivity.
Qed.

(** Frames that come before the duration has passed, then one that comes
    after it: that one drops every particle and stops the animation,
    whatever frames were to follow. *)
Lemma frames_until_expiry startTime d early t later : forall m,
  canvas m = true -> (0 < d)%Z ->
  Forall (fun p => p_maxLife p = d) (particles m) ->
  Forall (fun t' => t' - startTime < inject_Z d) early ->
  inject_Z d <= t - startTime ->
  let stopped := mkManager true false [] false (logicalWidth m) (logicalHeight m) in
  (exists m', frames true startTime early m = Some m'
              /\ animate true startTime t m' = Some (stopped, false))
  /\ frames true startTime (early ++ t :: later) m = Some stopped.
Proof.
  induction early as [|t0 early IH]; intros m Hc Hd Hall Hearly Hlate stopped.
  - assert (Hend : animate true startTime t m = Some (stopped, false)).
    { unfold animate. rewrite Hc. cbn [negb orb].
      rewrite (frameParticles_expired _ _ _ Hd Hlate Hall). reflexivity. }
    split; [exists m; split; [reflexivity | exact Hend]|].
    cbn [app frames]. rewrite Hend. reflexivity.
  - inversion Hearly as [|? ? Ht0 Hrest]. subst.
    destruct (particles m) as [|p ps] eqn:Eps.
    + assert (Hfirst : animate true startTime t0 m = Some (stopped, false)).
      { unfold animate. rewrite Hc, Eps. reflexivity. }
      split.
      * exists stopped. split; [cbn [frames]; rewrite Hfirst; reflexivity|].
        reflexivity.
      * cbn [app frames]. rewrite Hfirst. reflexivity.
    + set (m1 := mkManager true (attached m)
                   (List.map (fun q => move q (1 - (t0 - startTime)
                                                  / inject_Z (p_maxLife q)))
                             (p :: ps))
                   true (logicalWidth m) (logicalHeight m)).
      assert (Hfirst : animate true startTime t0 m = Some (m1, true)).
      { unfold animate. rewrite Hc, Eps. cbn [negb orb].
        rewrite (frameParticles_kept _ _ _ Hd Ht0 Hall). reflexivity. }
      assert (Hall1 : Forall (fun q => p_maxLife q = d) (particles m1)).
      { unfold m1. cbn [particles]. apply List.Forall_forall. intros q Hq.
        apply List.in_map_iff in Hq. destruct Hq as (q0 & <- & Hq0).
        rewrite List.Forall_forall in Hall. apply (Hall q0 Hq0). }
      destruct (IH m1 eq_refl Hd Hall1 Hrest Hlate) as [(m' & F1 & F2) F3].
      split.
      * exists m'. split; [cbn [frames]; rewrite Hfirst; exact F1 | exact F2].
      * cbn [app frames]. rewrite Hfirst. exact F3.
Qed.

(** X13. The animation of a burst ends with the life of its particles.
    When the canvas gave a 2D context and the duration is positive, after
    any frames that came less than [duration] after the start, the first
    frame that comes [duration] or more after it drops every particle,
    takes the canvas out of the document, requests no further frame and
    clears the animation handle; the frames the browser might have
    delivered later change nothing.  A burst of no particle ends so at
    its very first frame, whenever it comes.  Without a 2D context the
    callback returns at once: nothing changes and no frame is requested. *)
Theorem animation_ends_with_particle_life w config m0 startTime early t later :
  let stopped :=
    mkManager true false [] false (innerWidth w) (innerHeight w) in
  ((0 < duration config)%Z ->
   Forall (fun t' => t' - startTime < inject_Z (duration config)) early ->
   inject_Z (duration config) <= t - startTime ->
   (exists m', frames true startTime early (burst w config m0) = Some m'
               /\ animate true startTime t m' = Some (stopped, false))
   /\ frames true startTime (early ++ t :: later) (burst w config m0)
      = Some stopped)
  /\ ((particleCount config <= 0)%Z ->
      animate true startTime t (burst w config m0) = Some (stopped, false)
      /\ frames true startTime (t :: later) (burst w config m0) = Some stopped)
  /\ (forall m, animate false startTime t m = Some (m, false)
                /\ frames false startTime (t :: later) m = Some m).
Proof.
  intros stopped.
  destruct (burst_fields w config m0) as (Hlen & Hc & _).
  pose proof (burst_particles_duration w config m0) as Hdur.
  split; [|split].
  - intros Hd Hearly Hlate.
    pose proof (frames_until_expiry startTime (duration config) early t later
                  (burst w config m0) Hc Hd Hdur Hearly Hlate) as H.
    cbv zeta in H.
    assert (Hw : logicalWidth (burst w config m0) = innerWidth w)
      by (rewrite (burst_shape w config m0); reflexivity).
    assert (Hh : logicalHeight (burst w config m0) = innerHeight w)
      by (rewrite (burst_shape w config m0); reflexivity).
    rewrite Hw, Hh in H. exact H.
  - intros Hz.
    assert (Hend : animate true startTime t (burst w config m0)
                   = Some (stopped, false)).
    { rewrite (burst_shape w config m0).
      destruct (particles (burst w config m0)); [reflexivity | simpl in Hlen; lia]. }
    split; [exact Hend|]. cbn [frames]. rewrite Hend. reflexivity.
  - intros m. split; reflexivity.
Qed.

(** A burst of 150 particles lasting 800 ms started at 1000, with frames
    at 1016, 1033, 1800 and 1816: the frame at 1800 ends it. *)
Lemma animation_ends_with_particle_life_witness :
  let w := mkWindow 1000 800 (fun _ => 1 # 2) in
  let m0 := mkManager false false [] false 0 0 in
  let config := mkBurst heavy 150 800 None in
  frames true 1000 [1016; 1033; 1800; 1816] (burst w config m0)
  = Some (mkManager true false [] false 1000 800).
Proof.
  intros w m0 config.
  destruct (animation_ends_with_particle_life w config m0 1000 [1016; 1033] 1800 [1816])
    as [Hend _].
  apply Hend; [reflexivity | repeat constructor | vm_compute; discriminate].
Defined.

Lemma move_maxLife p life : p_maxLife (move p life) = p_maxLife p.
Proof. reflexivity. Qed.

(** While no frame comes as late as the duration, every frame keeps
    every particle and requests the next frame. *)
Lemma frames_keep_particles startTime d times : forall m,
  canvas m = true -> (0 < d)%Z ->
  Forall (fun p => p_maxLife p = d) (particles m) -> particles m <> [] ->
  Forall (fun t => t - startTime < inject_Z d) times ->
  exists m',
    frames true startTime times m = Some m'
    /\ particles m' = List.map (moves startTime times) (particles m)
    /\ canvas m' = true /\ attached m' = attached m
    /\ (times <> [] -> animating m' = true).
Proof.
  induction times as [|t rest IH]; intros m Hc Hd Hall Hne Ht.
  - exists m. simpl. rewrite List.map_id. repeat split; try assumption.
    intros H. contradiction.
  - inversion Ht as [|? ? Ht1 Ht2]; subst.
    cbn [frames]. unfold animate. rewrite Hc. cbn [negb orb].
    rewrite (frameParticles_kept _ _ _ Hd Ht1 Hall).
    destruct (particles m) as [|p ps] eqn:Eps; [contradiction|].
    cbn [List.map].
    set (m1 := mkManager true (attached m)
                 (move p (1 - (t - startTime) / inject_Z (p_maxLife p))
                  :: List.map (fun p0 => move p0 (1 - (t - startTime)
                                                     / inject_Z (p_maxLife p0))) ps)
                 true (logicalWidth m) (logicalHeight m)).
    assert (Hall1 : Forall (fun q => p_maxLife q = d) (particles m1)).
    { unfold m1. cbn [particles].
      change (Forall (fun q => p_maxLife q = d)
                (List.map (fun p0 => move p0 (1 - (t - startTime)
                                                 / inject_Z (p_maxLife p0))) (p :: ps))).
      apply List.Forall_forall. intros q Hq.
      apply List.in_map_iff in Hq. destruct Hq as (q0 & <- & Hq0).
      rewrite move_maxLife. rewrite List.Forall_forall in Hall. apply Hall, Hq0. }
    assert (Hne1 : particles m1 <> []) by (unfold m1; cbn [particles]; discriminate).
    destruct (IH m1 eq_refl Hd Hall1 Hne1 Ht2) as (m' & F1 & F2 & F3 & F4 & F5).
    exists m'. split; [exact F1|]. split; [|split; [exact F3|split]].
    + rewrite F2. unfold m1. cbn [particles List.map moves]. f_equal.
      rewrite List.map_map. reflexivity.
    + rewrite F4. reflexivity.
    + intros _. destruct rest as [|t' rest'].
      * simpl in F1. injection F1 as <-. reflexivity.
      * apply F5. discriminate.
Qed.

Lemma sameParticle_trans p q r : sameParticle p q -> sameParticle q r -> sameParticle p r.
Proof.
  unfold sameParticle.
  intros (A1 & A2 & A3 & A4 & A5 & A6 & A7 & A8 & A9 & A10)
         (B1 & B2 & B3 & B4 & B5 & B6 & B7 & B8 & B9 & B10).
  repeat split; first [congruence | etransitivity; eassumption].
Qed.

(** The life fraction after the last of the frames. *)
Lemma moves_closed_form startTime times : forall p,
  times <> [] ->
  sameParticle (moves startTime times p)
    (afterFrames (Z.of_nat (length times)) p
       (1 - (List.last times 0 - startTime) / inject_Z (p_maxLife p))).
Proof.
  induction times as [|t rest IH]; intros p Hne; [contradiction|].
  cbn [moves]. destruct rest as [|t' rest'].
  - cbn [moves length List.last]. unfold sameParticle, afterFrames, move.
    cbn [p_x p_y p_vx p_vy p_rotation p_rotationSpeed p_color p_size p_life p_maxLife].
    change (inject_Z (Z.of_nat 1)) with 1. repeat split; try reflexivity; ring.
  - eapply sameParticle_trans; [apply IH; discriminate|].
    set (k := length (t' :: rest')).
    assert (Hk : inject_Z (Z.of_nat (S k)) == inject_Z (Z.of_nat k) + 1).
    { rewrite Nat2Z.inj_succ. unfold Z.succ. rewrite inject_Z_plus. reflexivity. }
    change (length (t :: t' :: rest')) with (S k).
    change (List.last (t :: t' :: rest') 0) with (List.last (t' :: rest') 0).
    unfold sameParticle, afterFrames, move.
    cbn [p_x p_y p_vx p_vy p_rotation p_rotationSpeed p_color p_size p_life p_maxLife].
    rewrite Hk. repeat split; try reflexivity; ring.
Qed.

(** X14. Until a frame comes as late as the duration, the frames of a
    burst keep all its particles (the canvas stays attached and the loop
    keeps running) and move each one ballistically: after [k] frames its
    position is advanced [k] times by its horizontal speed, its vertical
    speed has grown by 0.18 per frame, its height has changed by
    [k * vy + 0.09 * k * (k - 1)], its rotation by [k] times its rotation
    speed, and its life is the fraction of the duration left at the last
    frame. *)
Theorem animation_is_ballistic w config m0 startTime times :
  (0 < duration config)%Z -> (0 < particleCount config)%Z -> times <> [] ->
  Forall (fun t => t - startTime < inject_Z (duration config)) times ->
  exists m',
    frames true startTime times (burst w config m0) = Some m'
    /\ canvas m' = true /\ attached m' = true /\ animating m' = true
    /\ Forall2
         (fun p' p =>
            sameParticle p'
              (afterFrames (Z.of_nat (length times)) p
                 (1 - (List.last times 0 - startTime) / inject_Z (duration config))))
         (particles m') (particles (burst w config m0)).
Proof.
  intros Hd Hn Hne Ht.
  destruct (burst_fields w config m0) as (Hlen & Hc & Ha & _).
  pose proof (burst_particles_duration w config m0) as Hdur.
  destruct (frames_keep_particles startTime (duration config) times
              (burst w config m0) Hc Hd Hdur) as (m' & F1 & F2 & F3 & F4 & F5).
  { intros Hnil. rewrite Hnil in Hlen. simpl in Hlen. lia. }
  { exact Ht. }
  exists m'. split; [exact F1|]. split; [exact F3|].
  split; [rewrite F4; exact Ha|]. split; [apply F5, Hne|].
  rewrite F2. clear F1 F2 Hlen.
  remember (particles (burst w config m0)) as ps eqn:Eps. clear Eps.
  induction Hdur as [|p ps Hp Hps IHps]; cbn [List.map]; constructor.
  - rewrite <- Hp. apply moves_closed_form, Hne.
  - exact IHps.
Qed.

(** A burst of two particles lasting 800 ms started at 1000, with the
    frames at 1016 and 1033: both particles are kept and the loop runs. *)
Lemma animation_is_ballistic_witness :
  let w := mkWindow 1000 800 (fun _ => 1 # 2) in
  let m0 := mkManager false false [] false 0 0 in
  let config := mkBurst heavy 2 800 None in
  exists m', frames true 1000 [1016; 1033] (burst w config m0) = Some m'
             /\ animating m' = true /\ length (particles m') = 2%nat.
Proof.
  intros w m0 config.
  destruct (animation_is_ballistic w config m0 1000 [1016; 1033])
    as (m' & F1 & _ & _ & F4 & F5).
  - reflexivity.
  - reflexivity.
  - discriminate.
  - repeat constructor.
  - exists m'. split; [exact F1|]. split; [exact F4|].
    apply Forall2_length in F5. rewrite F5. reflexivity.
Defined.

End ConfettiAnimation.

(** ** sound.ts: loading the asset and the three playback tiers *)
Section SoundTiers.

Import Sound SoundAssets.
Local Open Scope Q_scope.

Lemma volumeMultiplier_nonneg i : 0 <= volumeMultiplier i.
Proof. destruct i; simpl; lra. Qed.

Lemma adjustedVolume_nonneg i v : 0 <= v -> 0 <= adjustedVolume i v.
Proof.
  intros Hv. unfold adjustedVolume. apply Q.min_glb; [|lra].
  apply Qmult_le_0_compat; [exact Hv | apply volumeMultiplier_nonneg].
Qed.

(** X15. Once loading has settled, a call with a volume that is not
    negative is never deferred; the gain of the decoded buffer and the
    volume of the audio element are the scaled volume clamped at 1, so
    they lie between 0 and 1; a synthesized tone has the layers of the
    intensity, and its volume is the one passed in or the scaled one. *)
Theorem playback_volume_in_range p sm i v :
  0 <= v -> loading sm = false ->
  match fst (playRewardSound p sm i v) with
  | BufferGain r | ElementVolume r =>
      r = adjustedVolume i v /\ 0 <= r /\ r <= 1
  | Tone r layers =>
      (r = v \/ r = adjustedVolume i v) /\ layers = layersOf i
  | Silent => True
  | Deferred _ _ => False
  end.
Proof.
  intros Hv Hl.
  pose proof (adjustedVolume_nonneg i v Hv) as H0.
  pose proof (adjustedVolume_le_1 i v) as H1.
  unfold playRewardSound. rewrite Hl.
  remember (adjustedVolume i v) as a eqn:Ea. clear Ea.
  unfold playWebAudio, ensureAudioContext, playHTML5Audio, playSynthesizedSound.
  destruct sm as [b e c u l].
  cbn [audioBuffer audioElement audioContext useWebAudio loading].
  destruct u, b, e, c, (contextAvailable p), (contextSuspended p), (resumeRejects p),
    (bufferStartRaises p), (elementPlayFails p), (synthRaises p);
    cbn [andb negb fst audioElement audioBuffer]; auto.
Qed.

Lemma playback_volume_in_range_witness :
  fst (playRewardSound (mkPlatform true false false false false false)
         (mkSound false true false false false) heavy 1)
  = ElementVolume (adjustedVolume heavy 1)
  /\ adjustedVolume heavy 1 <= 1.
Proof.
  pose proof (playback_volume_in_range
                (mkPlatform true false false false false false)
                (mkSound false true false false false) heavy 1) as H.
  cbn [playRewardSound loading useWebAudio audioBuffer audioElement andb
       playHTML5Audio negb elementPlayFails fst] in H.
  split; [reflexivity|]. apply H; [discriminate | reflexivity].
Defined.

(** X16. With the asset held as a decoded buffer only, a reward sound
    is the buffer at the scaled volume, or nothing at all when Web Audio
    fails: the fallback goes to the HTML element, which is not there,
    and the synthesized tone is not tried.  When the failure turned Web
    Audio off, every later call goes to the synthesized tone with the
    volume as passed. *)
Theorem buffer_failure_is_silent p sm i v :
  loading sm = false -> useWebAudio sm = true ->
  audioBuffer sm = true -> audioElement sm = false ->
  let r := playRewardSound p sm i v in
  fst r = (if webAudioFails p sm then Silent else BufferGain (adjustedVolume i v))
  /\ (useWebAudio (snd r) = false ->
      fst r = Silent
      /\ forall p' i' v',
           playRewardSound p' (snd r) i' v' = (playSynthesizedSound p' i' v', snd r)).
Proof.
  intros Hl Hu Hb He r. unfold r, playRewardSound, webAudioFails.
  rewrite Hl, Hu, Hb. cbn [andb].
  unfold playWebAudio, ensureAudioContext, playHTML5Audio, noWebAudio.
  rewrite Hb. cbn [negb].
  destruct sm as [b e c u l]. simpl in Hl, Hu, Hb, He. subst.
  destruct c, (contextAvailable p), (contextSuspended p), (resumeRejects p),
    (bufferStartRaises p);
    cbn [andb orb negb fst snd audioElement audioBuffer audioContext useWebAudio loading];
    (split; [reflexivity|]); intros H; try discriminate H;
    (split; [reflexivity|]); intros p' i' v'; reflexivity.
Qed.

Lemma buffer_failure_is_silent_witness :
  let p := mkPlatform true true true false false false in
  let sm := mkSound true false true true false in
  fst (playRewardSound p sm medium (1 # 2)) = Silent
  /\ fst (playRewardSound p (snd (playRewardSound p sm medium (1 # 2))) medium (1 # 2))
     = Tone (1 # 2) 2.
Proof.
  intros p sm.
  destruct (buffer_failure_is_silent p sm medium (1 # 2) eq_refl eq_refl eq_refl eq_refl)
    as [H1 H2].
  split; [exact H1|].
  destruct (H2 eq_refl) as [_ H3]. rewrite H3. reflexivity.
Defined.

(** What one candidate leaves behind: no asset when the loop goes on or
    is aborted, exactly one when it loaded. *)
Lemma tryCandidate_assets p c sm :
  noAsset sm ->
  match tryCandidate p c sm with
  | (Loaded, sm1) =>
      (audioBuffer sm1 = true /\ audioElement sm1 = false
       /\ useWebAudio sm1 = true /\ audioContext sm1 = true)
      \/ (audioBuffer sm1 = false /\ audioElement sm1 = true
          /\ useWebAudio sm1 = false)
  | (_, sm1) => noAsset sm1
  end.
Proof.
  intros [Hb He]. destruct sm as [b e cx u l]. simpl in Hb, He. subst.
  unfold tryCandidate, fromResource, fromBinary, tryLoadWithWebAudioFromUrl,
    tryLoadWithWebAudio, tryLoadWithHtmlAudio, ensureAudioContext, noWebAudio,
    set_loaded, set_element, noAsset.
  destruct c as [ex res fe hu bi hb].
  cbn [existsAnswer resourceAnswer fetchAnswer htmlFromUrlRaises binaryAnswer
       htmlFromBufferRaises].
  destruct ex as [|[|]|], res, fe as [|[|]], hu, bi as [| |[|]], hb, cx,
    (contextAvailable p);
    cbn [negb audioBuffer audioElement audioContext useWebAudio loading];
    tauto.
Qed.

Lemma tryCandidates_assets p cs : forall sm,
  noAsset sm ->
  let r := tryCandidates p cs sm in
  noAsset r
  \/ (audioBuffer r = true /\ audioElement r = false
      /\ useWebAudio r = true /\ audioContext r = true)
  \/ (audioBuffer r = false /\ audioElement r = true /\ useWebAudio r = false).
Proof.
  induction cs as [|c rest IH]; intros sm Hn; cbn [tryCandidates].
  - left. exact Hn.
  - pose proof (tryCandidate_assets p c sm Hn) as H.
    destruct (tryCandidate p c sm) as [[| |] sm1].
    + right. exact H.
    + apply IH. exact H.
    + left. exact H.
Qed.

(** X17. Started with no asset held, [loadSound] always ends with
    [loading] cleared and at most one asset: a decoded buffer with Web
    Audio on and an audio context, or an audio element with Web Audio
    off, never both; so a reward sound played afterwards is never
    deferred. *)
Theorem load_leaves_one_asset p cs sm :
  noAsset sm ->
  let r := loadSound p cs sm in
  loading r = false
  /\ oneAsset r
  /\ (audioBuffer r = true -> audioContext r = true)
  /\ forall p' i v, fst (playRewardSound p' r i v) <> Deferred i v.
Proof.
  intros Hn r. unfold r, loadSound.
  pose proof (tryCandidates_assets p cs sm Hn) as H. cbv zeta in H.
  remember (tryCandidates p cs sm) as t eqn:Et. clear Et.
  unfold oneAsset, noAsset in *.
  cbn [loading audioBuffer audioElement audioContext useWebAudio].
  split; [reflexivity|]. split; [|split].
  - destruct H as [[A B]|[(A & B & C & D)|(A & B & C)]]; rewrite A, B;
      split; intros X; try discriminate X; auto.
  - destruct H as [[A B]|[(A & B & C & D)|(A & B & C)]]; rewrite A;
      intros X; try discriminate X; auto.
  - intros p' i v. unfold playRewardSound. cbn [loading].
    unfold playWebAudio, ensureAudioContext, playHTML5Audio, playSynthesizedSound.
    cbn [audioBuffer audioElement audioContext useWebAudio].
    clear H. destruct t as [b e c u l].
    cbn [audioBuffer audioElement audioContext useWebAudio loading].
    destruct u, b, e, c, (contextAvailable p'), (contextSuspended p'),
      (resumeRejects p'), (bufferStartRaises p'), (elementPlayFails p'),
      (synthRaises p');
      cbn [andb negb fst audioElement audioBuffer]; discriminate.
Qed.

Lemma load_leaves_one_asset_witness :
  let p := mkPlatform true false false false false false in
  let m4a := mkCandidate (ExistsIs false) ResourceNone FetchFails false BinaryAbsent false in
  let mp3 := mkCandidate (ExistsIs true) ResourceUrl (FetchOk false) false BinaryAbsent false in
  let r := loadSound p [m4a; mp3] constructed in
  loading r = false /\ audioElement r = true /\ audioBuffer r = false.
Proof.
  intros p m4a mp3 r.
  destruct (load_leaves_one_asset p [m4a; mp3] constructed (conj eq_refl eq_refl))
    as (H1 & [_ H2] & _).
  split; [exact H1|]. split; [reflexivity|]. apply H2. reflexivity.
Defined.

Lemma tryCandidates_absent p pre : forall rest sm,
  Forall reportedAbsent pre ->
  tryCandidates p (pre ++ rest) sm = tryCandidates p rest sm.
Proof.
  induction pre as [|c pre IH]; intros rest sm Hp; [reflexivity|].
  inversion Hp as [|? ? Hc Hpre]; subst.
  cbn [app tryCandidates]. unfold tryCandidate. rewrite Hc. apply IH, Hpre.
Qed.

(** X18. Candidates whose file the adapter reports absent are skipped
    and leave the load as it would be without them.  When the adapter
    raises while the next candidate is looked up, the load is abandoned
    with the manager as it was (only [loading] is cleared): the
    candidates after it are not tried. *)
Theorem load_skips_absent_and_aborts_on_raise p pre c rest sm :
  Forall reportedAbsent pre ->
  loadSound p (pre ++ rest) sm = loadSound p rest sm
  /\ (lookupRaises c ->
      loadSound p (pre ++ c :: rest) sm = loadSound p [] sm).
Proof.
  intros Hp. unfold loadSound. split.
  - rewrite (tryCandidates_absent p pre rest sm Hp). reflexivity.
  - intros Hr. rewrite (tryCandidates_absent p pre (c :: rest) sm Hp).
    cbn [tryCandidates]. unfold tryCandidate, fromResource.
    destruct Hr as [Hr|[Hne Hr]].
    + rewrite Hr. reflexivity.
    + rewrite Hr. destruct (existsAnswer c) as [|[|]|]; try reflexivity.
      contradiction Hne. reflexivity.
Qed.

Lemma load_skips_absent_and_aborts_on_raise_witness :
  let p := mkPlatform true false false false false false in
  let m4a := mkCandidate ExistsRaises ResourceUrl (FetchOk true) false (BinaryOk true) false in
  let mp3 := mkCandidate (ExistsIs true) ResourceUrl (FetchOk true) false (BinaryOk true) false in
  loadSound p [m4a; mp3] constructed = mkSound false false false true false.
Proof.
  intros p m4a mp3.
  destruct (load_skips_absent_and_aborts_on_raise p [] m4a [mp3] constructed
              (List.Forall_nil _)) as [_ H].
  change ([m4a; mp3]) with ([] ++ m4a :: [mp3]).
  rewrite (H (or_introl eq_refl)). reflexivity.
Defined.

(** X19. After [cleanup] no asset is held: once loading has settled a
    reward sound can only be the synthesized tone, with the volume as
    passed, and a load started afterwards again ends with at most one
    asset. *)
Theorem cleanup_releases_assets p sm i v cs :
  loading sm = false ->
  playRewardSound p (cleanup sm) i v = (playSynthesizedSound p i v, cleanup sm)
  /\ audioContext (cleanup sm) = false
  /\ oneAsset (loadSound p cs (cleanup sm)).
Proof.
  intros Hl. split; [|split].
  - unfold playRewardSound, cleanup. cbn [loading useWebAudio audioBuffer audioElement].
    rewrite Hl, andb_false_r. reflexivity.
  - reflexivity.
  - pose proof (tryCandidates_assets p cs (cleanup sm) (conj eq_refl eq_refl)) as H.
    cbv zeta in H. unfold loadSound.
    remember (tryCandidates p cs (cleanup sm)) as t eqn:Et. clear Et.
    unfold oneAsset, noAsset in *.
    cbn [audioBuffer audioElement useWebAudio].
    destruct H as [[A B]|[(A & B & C & D)|(A & B & C)]]; rewrite A, B;
      split; intros X; try discriminate X; auto.
Qed.

Lemma cleanup_releases_assets_witness :
  fst (playRewardSound (mkPlatform true false false false false false)
         (cleanup (mkSound true false true true false)) heavy (1 # 2))
  = Tone (1 # 2) 3.
Proof.
  destruct (cleanup_releases_assets (mkPlatform true false false false false false)
              (mkSound true false true true false) heavy (1 # 2) [] eq_refl) as [H _].
  rewrite H. reflexivity.
Defined.

(** X20. The synthesized tone, for a volume that is not negative: two
    oscillators for each layer, at most three layers; every oscillator
    starts no earlier than the start time, reaches its peak after its
    start, has decayed after its peak and no later than it stops, and
    stops within 0.26 s of the start time; each peak gain is between 0
    and 0.15 times the volume, and the peak gains add up to at most 0.72
    times the volume. *)
Theorem synthesized_chord_envelope startTime volume layers :
  0 <= volume ->
  let os := synthesizeTone startTime volume layers in
  length os = (2 * Z.to_nat (Z.min layers 3))%nat
  /\ Forall (fun o =>
               startTime <= o_start o /\ o_start o < o_peakAt o
               /\ o_peakAt o < o_decayEnd o /\ o_decayEnd o <= o_stop o
               /\ o_stop o <= startTime + (26 # 100)
               /\ 0 <= o_peakGain o /\ o_peakGain o <= volume * (15 # 100)) os
  /\ totalPeakGain os <= volume * (72 # 100).
Proof.
  intros Hv os. unfold os, synthesizeTone.
  assert (Hn : (Z.to_nat (Z.min layers 3) <= 3)%nat) by lia.
  destruct (Z.to_nat (Z.min layers 3)) as [|[|[|[|n]]]]; [| | | |lia];
    unfold frequencies, layerOscillators, totalPeakGain, layerVolume;
    cbn [take imap concat app length fold_right Nat.mul Nat.add compose
         o_start o_peakAt o_peakGain o_decayEnd o_stop];
    change (inject_Z (Z.of_nat 0)) with 0;
    change (inject_Z (Z.of_nat 1)) with 1;
    change (inject_Z (Z.of_nat 2)) with 2;
    (split; [reflexivity|]);
    (split; [repeat constructor;
             cbn [o_start o_peakAt o_peakGain o_decayEnd o_stop]; lra | lra]).
Qed.

Lemma synthesized_chord_envelope_witness :
  length (synthesizeTone 0 (3 # 10) (layersOf heavy)) = 6%nat
  /\ totalPeakGain (synthesizeTone 0 (3 # 10) (layersOf heavy)) <= (3 # 10) * (72 # 100).
Proof.
  destruct (synthesized_chord_envelope 0 (3 # 10) (layersOf heavy)) as (H1 & _ & H3).
  - discriminate.
  - split; [exact H1 | exact H3].
Defined.

End SoundTiers.

(** ** settings.ts: edits made in the settings tab *)
Section TabEdits.

Import Main SettingsEdit.
Local Open Scope Z_scope.

Lemma accepted_bounds lo hi num n : accepted lo hi num = Some n -> lo <= n <= hi.
Proof.
  unfold accepted. destruct num as [k|]; [|discriminate].
  destruct (lo <=? k) eqn:E1, (k <=? hi) eqn:E2; simpl; try discriminate.
  intros [= <-]. apply Z.leb_le in E1. apply Z.leb_le in E2. lia.
Qed.

Lemma onChange_inRange e st :
  settingsInRange st -> withinLimits e ->
  settingsInRange (onChange e st)
  /\ disableConfetti (onChange e st) = disableConfetti st.
Proof.
  unfold settingsInRange, timingInRange.
  intros (Ht & Hv & Hd) He.
  destruct e as [v|v|v|v|v|num|num|num]; cbn [onChange withinLimits] in *.
  1-3: (split; [|reflexivity]); cbn; tauto.
  - split; [|reflexivity]. cbn. split; [tauto|]. split; [|tauto].
    destruct He as [H0 H1]. split.
    + apply Qle_shift_div_l; [reflexivity | lra].
    + apply Qle_shift_div_r; [reflexivity | lra].
  - split; [|reflexivity]. cbn. tauto.
  - destruct (accepted 100 1000 num) as [n|] eqn:E; [|tauto].
    apply accepted_bounds in E. split; [|reflexivity]. cbn. tauto.
  - destruct (accepted 100 1000 num) as [n|] eqn:E; [|tauto].
    apply accepted_bounds in E. split; [|reflexivity]. cbn. tauto.
  - destruct (accepted 500 3000 num) as [n|] eqn:E; [|tauto].
    apply accepted_bounds in E. split; [|reflexivity]. cbn. tauto.
Qed.

(** X21. Whatever is toggled, slid or typed in the settings tab, in any
    order, settings that were inside the ranges of their controls stay
    inside them: an entry that is not a number or lies outside the range
    of its field is ignored, so the merge window and the throttle stay
    within 100..1000 ms and the undo window within 500..3000 ms; the
    volume stays within 0..1 and the duration within 400..1200 ms; and
    no control changes [disableConfetti]. *)
Theorem tab_edits_keep_settings_in_range edits st :
  settingsInRange st -> Forall withinLimits edits ->
  settingsInRange (editAll edits st)
  /\ disableConfetti (editAll edits st) = disableConfetti st.
Proof.
  unfold editAll. revert st.
  induction edits as [|e rest IH]; intros st Hs Hl; cbn [fold_left].
  - split; [exact Hs | reflexivity].
  - inversion Hl as [|? ? He Hrest]; subst.
    destruct (onChange_inRange e st Hs He) as [H1 H2].
    destruct (IH (onChange e st) H1 Hrest) as [H3 H4].
    split; [exact H3|]. rewrite H4. exact H2.
Qed.

Lemma tab_edits_keep_settings_in_range_witness :
  let edits := [TypeThrottle (Some 50); TypeUndoWindow None; SlideVolume 100;
                TypeMergeWindow (Some 1000); ToggleMute true] in
  settingsInRange (editAll edits DEFAULT_SETTINGS)
  /\ throttleMs (editAll edits DEFAULT_SETTINGS) = 250
  /\ mergeWindowMs (editAll edits DEFAULT_SETTINGS) = 1000.
Proof.
  intros edits.
  destruct (tab_edits_keep_settings_in_range edits DEFAULT_SETTINGS) as [H _].
  - unfold settingsInRange, timingInRange. cbn.
    split; [lia|]. split; [split; discriminate | lia].
  - unfold edits. repeat constructor; discriminate.
  - split; [exact H|]. split; reflexivity.
Defined.

End TabEdits.
